(** * The WebSocket client of the scan dashboard

    A shallow embedding of the [WebSocketClient] class
    (the services/websocket module): its fields, its public and private
    methods, the four transport callbacks installed by
    [setupEventListeners], and the timer and promise callbacks it hands
    to the JavaScript host.  The host (sockets, timers, promises, the
    microtask queue) is modelled as far as the client observes it. *)

From stdpp Require Import gmap strings list.
From Stdlib Require Import ZArith Lia.

(** ** Values exchanged with the server and with subscribers *)

(** JSON values, the [any] of the TypeScript source. *)
#[local] Unset Elimination Schemes.
Inductive JVal :=
| JNull
| JBool (b : bool)
| JNum (z : Z)
| JStr (s : string)
| JArr (items : list JVal)
| JObj (fields : list (string * JVal)).
#[local] Set Elimination Schemes.

(** JavaScript truthiness, as used by [||] and [if]. *)
Definition truthy (v : JVal) : bool :=
  match v with
  | JNull => false
  | JBool b => b
  | JNum z => negb (z =? 0)%Z
  | JStr s => negb (String.eqb s "")
  | JArr _ | JObj _ => true
  end.

Fixpoint assoc (k : string) (fs : list (string * JVal)) : option JVal :=
  match fs with
  | [] => None
  | (k', v) :: fs => if String.eqb k k' then Some v else assoc k fs
  end.

(** Property access [v.k]; [None] is [undefined]. *)
Definition field (k : string) (v : JVal) : option JVal :=
  match v with
  | JObj fs => assoc k fs
  | _ => None
  end.

(** [a || b] where [a] may be [undefined]. *)
Definition or_else (a : option JVal) (b : JVal) : JVal :=
  match a with
  | Some v => if truthy v then v else b
  | None => b
  end.

(** interface WSMessage (outbound frames) *)
Inductive WSMessageType := auth | subscribe | unsubscribe | ping.

Record WSMessage := {
  msg_type : WSMessageType;
  msg_data : option JVal;
  msg_token : option string;
  msg_channel : option string
}.

(** interface WSResponse (inbound frames, after JSON.parse) *)
Record WSResponse := {
  rsp_type : string;
  rsp_data : option JVal;
  rsp_channel : option string;
  rsp_message : option string
}.

Definition opt_field (k : string) (v : option JVal) : list (string * JVal) :=
  match v with
  | Some x => [(k, x)]
  | None => []
  end.

(** The parsed frame seen as a plain object. *)
Definition frame_object (m : WSResponse) : JVal :=
  JObj ([("type", JStr (rsp_type m))]
        ++ opt_field "data" (rsp_data m)
        ++ opt_field "channel" (JStr <$> rsp_channel m)
        ++ opt_field "message" (JStr <$> rsp_message m)).

(** Thrown values and rejection reasons: [new Error(message)], or the
    exception of the [WebSocket] constructor. *)
Inductive Exn :=
| Error (message : JVal)
| DOMException.

(** ** The client's own types *)

(** private connectionState:
    'disconnected' | 'connecting' | 'connected' | 'authenticated' *)
Module State.
Inductive t := disconnected | connecting | connected | authenticated.

#[global] Instance eq_dec : EqDecision t.
Proof. solve_decision. Defined.

Definition eqb (a b : t) : bool :=
  match a, b with
  | disconnected, disconnected
  | connecting, connecting
  | connected, connected
  | authenticated, authenticated => true
  | _, _ => false
  end.

Definition name (s : t) : string :=
  match s with
  | disconnected => "disconnected"
  | connecting => "connecting"
  | connected => "connected"
  | authenticated => "authenticated"
  end.
End State.

(** type WSEventHandler = (data: any) => void.  A JavaScript [Set] tells
    functions apart by reference, so handlers are named: the [n]-th
    function a consumer passed to [on], or one of the two closures that a
    call of [authenticate] creates ([p] names the call through its
    promise, [authTimeout] is the timer the closure captured). *)
Inductive WSEventHandler :=
| Consumer (n : nat)
| AuthResponse (p authTimeout : nat)
| AuthError (p authTimeout : nat).

#[global] Instance WSEventHandler_eq_dec : EqDecision WSEventHandler.
Proof. solve_decision. Defined.

(** ** The host *)

Inductive ReadyState := CONNECTING | OPEN | CLOSING | CLOSED.

#[global] Instance ReadyState_eq_dec : EqDecision ReadyState.
Proof. solve_decision. Defined.

(** Who awaits the promise returned by [connect]: code outside the
    client, or the timer callback of [attemptReconnect] with its
    [then]/[catch]. *)
Inductive Caller := Outside | Scheduler.

Inductive PromiseKind :=
| ConnectPromise (caller : Caller)
| AuthPromise (c : nat).   (* awaited by onopen's callback for connect promise [c] *)

Record Promise := { kind : PromiseKind; settled : bool }.

(** A WebSocket object: its state and the [resolve]/[reject] pair its
    four listeners captured, once [setupEventListeners] has run. *)
Record Socket := { readyState : ReadyState; listeners : option nat }.

(** What a pending timer will run. *)
Inductive Timer :=
| SettleTimer (c : nat)      (* the 100 ms delay in onopen *)
| AuthTimeout (p : nat)      (* the 5000 ms timeout in authenticate *)
| ReconnectTimer             (* the timeout in attemptReconnect *)
| HeartbeatTimer.            (* the interval in startHeartbeat *)

#[global] Instance Timer_eq_dec : EqDecision Timer.
Proof. solve_decision. Defined.

(** Promise reactions waiting in the microtask queue. *)
Inductive Job :=
| Fulfilled (p : nat) (k : PromiseKind)
| RejectedWith (p : nat) (k : PromiseKind) (e : Exn).

(** What the client does to the outside, in order. *)
Inductive Action :=
| NewWebSocket (s : nat)
| WsClose (s : nat) (code : Z) (reason : string)
| WsSend (s : nat) (m : WSMessage)
| NotSent (m : WSMessage)
| SetTimeout (t : nat) (k : Timer) (ms : Z)
| ClearTimeout (t : nat)
| SetInterval (t : nat) (k : Timer) (ms : Z)
| ClearInterval (t : nat)
| Emit (eventType : string) (data : JVal)
| Called (handler : WSEventHandler) (data : JVal)
| Caught (eventType : string) (error : Exn)
| ParseFailed
| Resolved (p : nat)
| Rejected (p : nat) (e : Exn)
| Uncaught (e : Exn).

(** The fields of [WebSocketClient] (the two constants
    [maxReconnectAttempts] and [maxReconnectInterval] are definitions
    below; [url] is kept through [url_ok]: whether [new WebSocket(url)]
    accepts it), followed by the host's state. [consumer n data] is what
    the [n]-th consumer handler does when called with [data]: [Some e]
    when it throws [e]. *)
Record World := {
  ws : option nat;
  token : option string;
  authenticated : bool;
  reconnectAttempts : Z;
  reconnectInterval : Z;
  heartbeatInterval : option nat;
  reconnectTimeout : option nat;
  eventHandlers : gmap string (list WSEventHandler);
  connectionState : State.t;
  url_ok : bool;
  sockets : gmap nat Socket;
  timers : gmap nat Timer;
  promises : gmap nat Promise;
  fresh : nat;
  jobs : list Job;
  trace : list Action;
  consumer : nat -> JVal -> option Exn
}.

Definition maxReconnectAttempts : Z := 10.
Definition maxReconnectInterval : Z := 30000.

(** The state the class's field initialisers produce. *)
Definition new_client (ok : bool) (f : nat -> JVal -> option Exn) : World :=
  {| ws := None; token := None; authenticated := false;
     reconnectAttempts := 0; reconnectInterval := 1000;
     heartbeatInterval := None; reconnectTimeout := None;
     eventHandlers := ∅; connectionState := State.disconnected;
     url_ok := ok; sockets := ∅; timers := ∅; promises := ∅; fresh := 0;
     jobs := []; trace := []; consumer := f |}.

(** Field assignment. *)
Definition set_ws (v : option nat) (w : World) : World :=
  {| ws := v; token := token w; authenticated := authenticated w;
     reconnectAttempts := reconnectAttempts w; reconnectInterval :=
     reconnectInterval w; heartbeatInterval := heartbeatInterval w;
     reconnectTimeout := reconnectTimeout w; eventHandlers := eventHandlers w;
     connectionState := connectionState w; url_ok := url_ok w; sockets :=
     sockets w; timers := timers w; promises := promises w; fresh := fresh w;
     jobs := jobs w; trace := trace w; consumer := consumer w |}.
Definition set_token (v : option string) (w : World) : World :=
  {| ws := ws w; token := v; authenticated := authenticated w;
     reconnectAttempts := reconnectAttempts w; reconnectInterval :=
     reconnectInterval w; heartbeatInterval := heartbeatInterval w;
     reconnectTimeout := reconnectTimeout w; eventHandlers := eventHandlers w;
     connectionState := connectionState w; url_ok := url_ok w; sockets :=
     sockets w; timers := timers w; promises := promises w; fresh := fresh w;
     jobs := jobs w; trace := trace w; consumer := consumer w |}.
Definition set_authenticated (v : bool) (w : World) : World :=
  {| ws := ws w; token := token w; authenticated := v; reconnectAttempts :=
     reconnectAttempts w; reconnectInterval := reconnectInterval w;
     heartbeatInterval := heartbeatInterval w; reconnectTimeout :=
     reconnectTimeout w; eventHandlers := eventHandlers w; connectionState :=
     connectionState w; url_ok := url_ok w; sockets := sockets w; timers :=
     timers w; promises := promises w; fresh := fresh w; jobs := jobs w; trace
     := trace w; consumer := consumer w |}.
Definition set_reconnectAttempts (v : Z) (w : World) : World :=
  {| ws := ws w; token := token w; authenticated := authenticated w;
     reconnectAttempts := v; reconnectInterval := reconnectInterval w;
     heartbeatInterval := heartbeatInterval w; reconnectTimeout :=
     reconnectTimeout w; eventHandlers := eventHandlers w; connectionState :=
     connectionState w; url_ok := url_ok w; sockets := sockets w; timers :=
     timers w; promises := promises w; fresh := fresh w; jobs := jobs w; trace
     := trace w; consumer := consumer w |}.
Definition set_reconnectInterval (v : Z) (w : World) : World :=
  {| ws := ws w; token := token w; authenticated := authenticated w;
     reconnectAttempts := reconnectAttempts w; reconnectInterval := v;
     heartbeatInterval := heartbeatInterval w; reconnectTimeout :=
     reconnectTimeout w; eventHandlers := eventHandlers w; connectionState :=
     connectionState w; url_ok := url_ok w; sockets := sockets w; timers :=
     timers w; promises := promises w; fresh := fresh w; jobs := jobs w; trace
     := trace w; consumer := consumer w |}.
Definition set_heartbeatInterval (v : option nat) (w : World) : World :=
  {| ws := ws w; token := token w; authenticated := authenticated w;
     reconnectAttempts := reconnectAttempts w; reconnectInterval :=
     reconnectInterval w; heartbeatInterval := v; reconnectTimeout :=
     reconnectTimeout w; eventHandlers := eventHandlers w; connectionState :=
     connectionState w; url_ok := url_ok w; sockets := sockets w; timers :=
     timers w; promises := promises w; fresh := fresh w; jobs := jobs w; trace
     := trace w; consumer := consumer w |}.
Definition set_reconnectTimeout (v : option nat) (w : World) : World :=
  {| ws := ws w; token := token w; authenticated := authenticated w;
     reconnectAttempts := reconnectAttempts w; reconnectInterval :=
     reconnectInterval w; heartbeatInterval := heartbeatInterval w;
     reconnectTimeout := v; eventHandlers := eventHandlers w; connectionState
     := connectionState w; url_ok := url_ok w; sockets := sockets w; timers :=
     timers w; promises := promises w; fresh := fresh w; jobs := jobs w; trace
     := trace w; consumer := consumer w |}.
Definition set_eventHandlers (v : gmap string (list WSEventHandler)) (w : World) : World :=
  {| ws := ws w; token := token w; authenticated := authenticated w;
     reconnectAttempts := reconnectAttempts w; reconnectInterval :=
     reconnectInterval w; heartbeatInterval := heartbeatInterval w;
     reconnectTimeout := reconnectTimeout w; eventHandlers := v;
     connectionState := connectionState w; url_ok := url_ok w; sockets :=
     sockets w; timers := timers w; promises := promises w; fresh := fresh w;
     jobs := jobs w; trace := trace w; consumer := consumer w |}.
Definition set_connectionState (v : State.t) (w : World) : World :=
  {| ws := ws w; token := token w; authenticated := authenticated w;
     reconnectAttempts := reconnectAttempts w; reconnectInterval :=
     reconnectInterval w; heartbeatInterval := heartbeatInterval w;
     reconnectTimeout := reconnectTimeout w; eventHandlers := eventHandlers w;
     connectionState := v; url_ok := url_ok w; sockets := sockets w; timers :=
     timers w; promises := promises w; fresh := fresh w; jobs := jobs w; trace
     := trace w; consumer := consumer w |}.
Definition set_sockets (v : gmap nat Socket) (w : World) : World :=
  {| ws := ws w; token := token w; authenticated := authenticated w;
     reconnectAttempts := reconnectAttempts w; reconnectInterval :=
     reconnectInterval w; heartbeatInterval := heartbeatInterval w;
     reconnectTimeout := reconnectTimeout w; eventHandlers := eventHandlers w;
     connectionState := connectionState w; url_ok := url_ok w; sockets := v;
     timers := timers w; promises := promises w; fresh := fresh w; jobs :=
     jobs w; trace := trace w; consumer := consumer w |}.
Definition set_timers (v : gmap nat Timer) (w : World) : World :=
  {| ws := ws w; token := token w; authenticated := authenticated w;
     reconnectAttempts := reconnectAttempts w; reconnectInterval :=
     reconnectInterval w; heartbeatInterval := heartbeatInterval w;
     reconnectTimeout := reconnectTimeout w; eventHandlers := eventHandlers w;
     connectionState := connectionState w; url_ok := url_ok w; sockets :=
     sockets w; timers := v; promises := promises w; fresh := fresh w; jobs :=
     jobs w; trace := trace w; consumer := consumer w |}.
Definition set_promises (v : gmap nat Promise) (w : World) : World :=
  {| ws := ws w; token := token w; authenticated := authenticated w;
     reconnectAttempts := reconnectAttempts w; reconnectInterval :=
     reconnectInterval w; heartbeatInterval := heartbeatInterval w;
     reconnectTimeout := reconnectTimeout w; eventHandlers := eventHandlers w;
     connectionState := connectionState w; url_ok := url_ok w; sockets :=
     sockets w; timers := timers w; promises := v; fresh := fresh w; jobs :=
     jobs w; trace := trace w; consumer := consumer w |}.
Definition set_fresh (v : nat) (w : World) : World :=
  {| ws := ws w; token := token w; authenticated := authenticated w;
     reconnectAttempts := reconnectAttempts w; reconnectInterval :=
     reconnectInterval w; heartbeatInterval := heartbeatInterval w;
     reconnectTimeout := reconnectTimeout w; eventHandlers := eventHandlers w;
     connectionState := connectionState w; url_ok := url_ok w; sockets :=
     sockets w; timers := timers w; promises := promises w; fresh := v; jobs
     := jobs w; trace := trace w; consumer := consumer w |}.
Definition set_jobs (v : list Job) (w : World) : World :=
  {| ws := ws w; token := token w; authenticated := authenticated w;
     reconnectAttempts := reconnectAttempts w; reconnectInterval :=
     reconnectInterval w; heartbeatInterval := heartbeatInterval w;
     reconnectTimeout := reconnectTimeout w; eventHandlers := eventHandlers w;
     connectionState := connectionState w; url_ok := url_ok w; sockets :=
     sockets w; timers := timers w; promises := promises w; fresh := fresh w;
     jobs := v; trace := trace w; consumer := consumer w |}.
Definition set_trace (v : list Action) (w : World) : World :=
  {| ws := ws w; token := token w; authenticated := authenticated w;
     reconnectAttempts := reconnectAttempts w; reconnectInterval :=
     reconnectInterval w; heartbeatInterval := heartbeatInterval w;
     reconnectTimeout := reconnectTimeout w; eventHandlers := eventHandlers w;
     connectionState := connectionState w; url_ok := url_ok w; sockets :=
     sockets w; timers := timers w; promises := promises w; fresh := fresh w;
     jobs := jobs w; trace := v; consumer := consumer w |}.

(** ** Sequencing: state, and exceptions that unwind *)

Inductive Completion (A : Type) :=
| Normal (a : A)
| Throw (e : Exn).
Arguments Normal {A} a.
Arguments Throw {A} e.

Definition M (A : Type) : Type := World -> Completion A * World.

#[global] Instance M_ret : MRet M := fun A a w => (Normal a, w).

#[global] Instance M_bind : MBind M := fun A B f m w =>
  match m w with
  | (Normal a, w') => f a w'
  | (Throw e, w') => (Throw e, w')
  end.

Definition gets {A} (f : World -> A) : M A := fun w => (Normal (f w), w).
Definition modify (f : World -> World) : M unit := fun w => (Normal tt, f w).
Definition throw {A} (e : Exn) : M A := fun w => (Throw e, w).
Definition skip : M unit := mret tt.

(** try { body } catch (e) { handler e } *)
Definition try_catch {A} (body : M A) (handler : Exn -> M A) : M A :=
  fun w =>
    match body w with
    | (Throw e, w') => handler e w'
    | r => r
    end.

Definition log (a : Action) : M unit :=
  modify (fun w => set_trace (trace w ++ [a]) w).

(** The world a callback leaves behind; an exception that escapes a
    callback is reported by the host and goes no further. *)
Definition run (m : M unit) (w : World) : World :=
  match m w with
  | (Normal _, w') => w'
  | (Throw e, w') => set_trace (trace w' ++ [Uncaught e]) w'
  end.

(** ** Host primitives *)

Definition new_id : M nat :=
  fun w => (Normal (fresh w), set_fresh (S (fresh w)) w).

Definition setTimeout (k : Timer) (ms : Z) : M nat :=
  t ← new_id;
  modify (fun w => set_timers (<[t := k]> (timers w)) w);;
  log (SetTimeout t k ms);;
  mret t.

Definition clearTimeout (t : nat) : M unit :=
  modify (fun w => set_timers (delete t (timers w)) w);;
  log (ClearTimeout t).

Definition setInterval (k : Timer) (ms : Z) : M nat :=
  t ← new_id;
  modify (fun w => set_timers (<[t := k]> (timers w)) w);;
  log (SetInterval t k ms);;
  mret t.

Definition clearInterval (t : nat) : M unit :=
  modify (fun w => set_timers (delete t (timers w)) w);;
  log (ClearInterval t).

(** new WebSocket(this.url) *)
Definition new_WebSocket : M nat :=
  ok ← gets url_ok;
  if ok : bool then
    s ← new_id;
    modify (fun w =>
      set_sockets (<[s := {| readyState := CONNECTING; listeners := None |}]> (sockets w)) w);;
    log (NewWebSocket s);;
    mret s
  else throw DOMException.

Definition ready (s : nat) : M (option ReadyState) :=
  gets (fun w => readyState <$> sockets w !! s).

(** readyState === WebSocket.OPEN *)
Definition is_OPEN (r : option ReadyState) : bool :=
  match r with
  | Some OPEN => true
  | _ => false
  end.

(** socket.close(code, reason): the closing handshake starts; the close
    event comes later, from the host. *)
Definition ws_close (s : nat) (code : Z) (reason : string) : M unit :=
  modify (fun w =>
    set_sockets
      (alter (fun k =>
                {| readyState := match readyState k with
                                 | CLOSED => CLOSED
                                 | _ => CLOSING
                                 end;
                   listeners := listeners k |}) s (sockets w)) w);;
  log (WsClose s code reason).

Definition new_Promise (k : PromiseKind) : M nat :=
  p ← new_id;
  modify (fun w =>
    set_promises (<[p := {| kind := k; settled := false |}]> (promises w)) w);;
  mret p.

(** A promise settles once; its reaction is queued as a microtask. *)
Definition settle (p : nat) (reaction : PromiseKind -> Job) : M unit :=
  pr ← gets (fun w => promises w !! p);
  match pr with
  | Some {| kind := k; settled := false |} =>
      modify (fun w =>
        set_jobs (jobs w ++ [reaction k])
          (set_promises (<[p := {| kind := k; settled := true |}]> (promises w)) w))
  | _ => skip
  end.

Definition resolve (p : nat) : M unit := settle p (Fulfilled p).
Definition reject (p : nat) (e : Exn) : M unit :=
  settle p (fun k => RejectedWith p k e).

(** ** The subscription registry: Map<string, Set<WSEventHandler>> *)

(** A [Set] keeps insertion order and holds a function at most once. *)
Definition Set_add (h : WSEventHandler) (hs : list WSEventHandler) : list WSEventHandler :=
  if decide (h ∈ hs) then hs else hs ++ [h].

Definition Set_delete (h : WSEventHandler) (hs : list WSEventHandler) : list WSEventHandler :=
  filter (fun x => x <> h) hs.

(** public on(eventType, handler) *)
Definition on (eventType : string) (handler : WSEventHandler) : M unit :=
  has ← gets (fun w => eventHandlers w !! eventType);
  (if has is Some _ then skip
   else modify (fun w => set_eventHandlers (<[eventType := []]> (eventHandlers w)) w));;
  modify (fun w =>
    set_eventHandlers (alter (Set_add handler) eventType (eventHandlers w)) w).

(** public off(eventType, handler) *)
Definition off (eventType : string) (handler : WSEventHandler) : M unit :=
  handlers ← gets (fun w => eventHandlers w !! eventType);
  match handlers with
  | Some handlers =>
      let handlers := Set_delete handler handlers in
      modify (fun w => set_eventHandlers (<[eventType := handlers]> (eventHandlers w)) w);;
      if Nat.eqb (length handlers) 0
      then modify (fun w => set_eventHandlers (delete eventType (eventHandlers w)) w)
      else skip
  | None => skip
  end.

(** private send(message) *)
Definition send (message : WSMessage) : M unit :=
  s ← gets ws;
  match s with
  | Some s =>
      r ← ready s;
      if is_OPEN r then log (WsSend s message) else log (NotSent message)
  | None => log (NotSent message)
  end.

(** The two closures of [authenticate]. *)
Definition handleAuthResponse (p authTimeout : nat) : M unit :=
  clearTimeout authTimeout;;
  off "auth_success" (AuthResponse p authTimeout);;
  off "auth_error" (AuthError p authTimeout);;
  modify (set_authenticated true);;
  modify (set_connectionState State.authenticated);;
  resolve p.

Definition handleAuthError (p authTimeout : nat) (data : JVal) : M unit :=
  clearTimeout authTimeout;;
  off "auth_success" (AuthResponse p authTimeout);;
  off "auth_error" (AuthError p authTimeout);;
  reject p (Error (or_else (field "message" data) (JStr "Authentication failed"))).

(** handler(data) *)
Definition call (handler : WSEventHandler) (data : JVal) : M unit :=
  log (Called handler data);;
  match handler with
  | Consumer n =>
      f ← gets consumer;
      match f n data with
      | Some e => throw e
      | None => skip
      end
  | AuthResponse p authTimeout => handleAuthResponse p authTimeout
  | AuthError p authTimeout => handleAuthError p authTimeout data
  end.

(** Set.prototype.forEach: a throwing callback ends the iteration. *)
Fixpoint forEach {A} (f : A -> M unit) (l : list A) : M unit :=
  match l with
  | [] => skip
  | x :: l => f x;; forEach f l
  end.

(** private emit(eventType, data).  The handlers are taken as they are
    when [emit] starts: the only handlers that change a set while it is
    iterated are the two closures above, and they remove themselves. *)
Definition emit (eventType : string) (data : JVal) : M unit :=
  log (Emit eventType data);;
  handlers ← gets (fun w => eventHandlers w !! eventType);
  match handlers with
  | Some handlers =>
      forEach (fun handler =>
                 try_catch (call handler data)
                           (fun error => log (Caught eventType error)))
              handlers
  | None => skip
  end.

(** private handleMessage(message) *)
Definition handleMessage (message : WSResponse) : M unit :=
  if String.eqb (rsp_type message) "pong" then skip
  else emit (rsp_type message) (or_else (rsp_data message) (frame_object message)).

(** ** Heartbeat *)

(** Timer handles are truthy. *)
Definition stopHeartbeat : M unit :=
  h ← gets heartbeatInterval;
  match h with
  | Some t => clearInterval t;; modify (set_heartbeatInterval None)
  | None => skip
  end.

Definition startHeartbeat : M unit :=
  stopHeartbeat;;
  t ← setInterval HeartbeatTimer 25000;
  modify (set_heartbeatInterval (Some t)).

(** The callback given to [setInterval]. *)
Definition heartbeat_tick : M unit :=
  a ← gets authenticated;
  if a : bool
  then send {| msg_type := ping; msg_data := None; msg_token := None; msg_channel := None |}
  else skip.

(** ** Handshake *)

Definition token_present (t : option string) : bool :=
  match t with
  | Some s => negb (String.eqb s "")
  | None => false
  end.

(** private async authenticate().  [p] is the promise the call returns;
    onopen's callback awaits it on behalf of connect promise [c]. *)
Definition authenticate (c : nat) : M unit :=
  p ← new_Promise (AuthPromise c);
  tok ← gets token;
  s ← gets ws;
  if negb (token_present tok) || negb (if s is Some _ then true else false) then
    reject p (Error (JStr "No token or connection available for authentication"))
  else
    authTimeout ← setTimeout (AuthTimeout p) 5000;
    on "auth_success" (AuthResponse p authTimeout);;
    on "auth_error" (AuthError p authTimeout);;
    send {| msg_type := auth; msg_data := None; msg_token := tok; msg_channel := None |}.

(** The callback given to [setTimeout] in [authenticate]. *)
Definition authTimeout_fired (p : nat) : M unit :=
  reject p (Error (JStr "Authentication timeout")).

(** ** Reconnection *)

Definition clearReconnectTimeout : M unit :=
  r ← gets reconnectTimeout;
  match r with
  | Some t => clearTimeout t;; modify (set_reconnectTimeout None)
  | None => skip
  end.

(** private attemptReconnect(), up to the [setTimeout] call. *)
Definition attemptReconnect : M unit :=
  attempts ← gets reconnectAttempts;
  if (maxReconnectAttempts <=? attempts)%Z then
    emit "max_reconnect_attempts_reached" (JObj [("attempts", JNum attempts)])
  else
    modify (fun w => set_reconnectAttempts (reconnectAttempts w + 1)%Z w);;
    attempt ← gets reconnectAttempts;
    delay ← gets reconnectInterval;
    emit "reconnecting"
         (JObj [("attempt", JNum attempt);
                ("maxAttempts", JNum maxReconnectAttempts);
                ("delay", JNum delay)]);;
    clearReconnectTimeout;;
    interval ← gets reconnectInterval;
    t ← setTimeout ReconnectTimer interval;
    modify (set_reconnectTimeout (Some t)).

(** The [catch] of the reconnect attempt. *)
Definition reconnect_failed : M unit :=
  modify (fun w =>
    set_reconnectInterval (Z.min (reconnectInterval w * 2) maxReconnectInterval) w);;
  attemptReconnect.

(** The [then] of the reconnect attempt; an exception in it would reach
    the [catch] chained after it. *)
Definition reconnect_succeeded : M unit :=
  try_catch
    (attempts ← gets reconnectAttempts;
     emit "reconnected" (JObj [("attempts", JNum attempts)]))
    (fun _ => reconnect_failed).

(** ** The transport callbacks and the public methods *)

(** private setupEventListeners(resolve, reject) *)
Definition setupEventListeners (c : nat) : M unit :=
  s ← gets ws;
  match s with
  | None => skip
  | Some s =>
      modify (fun w =>
        set_sockets
          (alter (fun k => {| readyState := readyState k; listeners := Some c |})
                 s (sockets w)) w)
  end.

(** public connect(token); the result names the promise handed back. *)
Definition connect (caller : Caller) (tok : string) : M nat :=
  c ← new_Promise (ConnectPromise caller);
  st ← gets connectionState;
  (if State.eqb st State.connected || State.eqb st State.authenticated then resolve c
   else
     modify (set_token (Some tok));;
     modify (set_connectionState State.connecting);;
     try_catch
       (s ← new_WebSocket;
        modify (set_ws (Some s));;
        setupEventListeners c)
       (fun error =>
          modify (set_connectionState State.disconnected);;
          reject c error));;
  mret c.

(** public disconnect() *)
Definition disconnect : M unit :=
  modify (set_authenticated false);;
  modify (set_connectionState State.disconnected);;
  stopHeartbeat;;
  clearReconnectTimeout;;
  s ← gets ws;
  match s with
  | Some s => ws_close s 1000 "User initiated disconnect";; modify (set_ws None)
  | None => skip
  end.

Definition isConnected (w : World) : bool :=
  State.eqb (connectionState w) State.authenticated.

Definition getConnectionState (w : World) : string :=
  State.name (connectionState w).

(** ws.onopen *)
Definition onopen (c : nat) : M unit :=
  modify (set_connectionState State.connected);;
  modify (set_reconnectAttempts 0);;
  modify (set_reconnectInterval 1000);;
  _ ← setTimeout (SettleTimer c) 100;
  skip.

(** The callback given to [setTimeout] in onopen; the [then] and [catch]
    it chains to [authenticate()] are [run_job]'s [AuthPromise] cases. *)
Definition onopen_timeout (c : nat) : M unit :=
  s ← gets ws;
  r ← match s with
      | Some s => ready s
      | None => mret None
      end;
  if is_OPEN r then authenticate c
  else reject c (Error (JStr "WebSocket closed before authentication")).

(** ws.onmessage; [None] is text that JSON.parse refuses. *)
Definition onmessage (data : option WSResponse) : M unit :=
  try_catch
    (match data with
     | Some message => handleMessage message
     | None => throw (Error (JStr "SyntaxError"))
     end)
    (fun error => log ParseFailed).

(** ws.onerror *)
Definition onerror (c : nat) : M unit :=
  emit "error" (JObj [("error", JStr "Connection error")]);;
  st ← gets connectionState;
  if State.eqb st State.connecting
  then reject c (Error (JStr "Failed to connect to WebSocket"))
  else skip.

(** ws.onclose *)
Definition onclose (code : Z) (reason : string) : M unit :=
  wasAuthenticated ← gets authenticated;
  modify (set_authenticated false);;
  modify (set_connectionState State.disconnected);;
  modify (set_ws None);;
  stopHeartbeat;;
  emit "disconnected" (JObj [("code", JNum code); ("reason", JStr reason)]);;
  if negb (code =? 1000)%Z && wasAuthenticated then attemptReconnect else skip.

(** The callback given to [setTimeout] in [attemptReconnect]. *)
Definition reconnectTimeout_fired : M unit :=
  tok ← gets token;
  match tok with
  | Some t =>
      if token_present tok then _ ← connect Scheduler t; skip else skip
  | None => skip
  end.

(** Promise reactions. *)
Definition run_job (j : Job) : M unit :=
  match j with
  | Fulfilled _ (AuthPromise c) =>
      try_catch (startHeartbeat;; resolve c) (fun e => reject c e)
  | RejectedWith _ (AuthPromise c) e => reject c e
  | Fulfilled p (ConnectPromise Outside) => log (Resolved p)
  | RejectedWith p (ConnectPromise Outside) e => log (Rejected p e)
  | Fulfilled _ (ConnectPromise Scheduler) => reconnect_succeeded
  | RejectedWith _ (ConnectPromise Scheduler) _ => reconnect_failed
  end.

(** ** The event loop *)

Inductive Event :=
| Call_connect (tok : string)
| Call_disconnect
| Call_on (eventType : string) (n : nat)
| Call_off (eventType : string) (n : nat)
| Transport_open (s : nat)
| Transport_message (s : nat) (data : option WSResponse)
| Transport_error (s : nat)
| Transport_close (s : nat) (code : Z) (reason : string)
| Timer_fires (t : nat)
| Microtask.

Definition set_readyState (s : nat) (r : ReadyState) : M unit :=
  modify (fun w =>
    set_sockets
      (alter (fun k => {| readyState := r; listeners := listeners k |}) s (sockets w)) w).

Definition expire (t : nat) : M unit :=
  modify (fun w => set_timers (delete t (timers w)) w).

(** The socket's listeners, when [setupEventListeners] installed them. *)
Definition listening (w : World) (s : nat) : option nat :=
  k ← sockets w !! s; listeners k.

(** The macrotask an event starts, when the event can happen. *)
Definition task (w : World) (e : Event) : option (M unit) :=
  match e with
  | Call_connect tok => Some (_ ← connect Outside tok; skip)
  | Call_disconnect => Some disconnect
  | Call_on eventType n => Some (on eventType (Consumer n))
  | Call_off eventType n => Some (off eventType (Consumer n))
  | Transport_open s =>
      c ← listening w s; Some (set_readyState s OPEN;; onopen c)
  | Transport_message s data =>
      _ ← listening w s; Some (onmessage data)
  | Transport_error s =>
      c ← listening w s; Some (set_readyState s CLOSED;; onerror c)
  | Transport_close s code reason =>
      _ ← listening w s; Some (set_readyState s CLOSED;; onclose code reason)
  | Timer_fires t =>
      k ← timers w !! t;
      Some (match k with
            | SettleTimer c => expire t;; onopen_timeout c
            | AuthTimeout p => expire t;; authTimeout_fired p
            | ReconnectTimer => expire t;; reconnectTimeout_fired
            | HeartbeatTimer => heartbeat_tick
            end)
  | Microtask => None
  end.

(** One turn of the loop.  Microtasks run before anything else may
    happen; [None]: the event cannot happen in this world. *)
Definition step (w : World) (e : Event) : option World :=
  match e, jobs w with
  | Microtask, j :: js => Some (run (run_job j) (set_jobs js w))
  | Microtask, [] => None
  | _, [] => m ← task w e; Some (run m w)
  | _, _ :: _ => None
  end.

Fixpoint steps (w : World) (es : list Event) : option World :=
  match es with
  | [] => Some w
  | e :: es => w' ← step w e; steps w' es
  end.

(** * The React side of the dashboard *)

(** ** hooks/useWebSocket.ts: the state the hook keeps for its component *)

Module useWebSocket.

(** interface WebSocketState.  [error] holds what the handlers store in
    it; [None] is null. *)
Record WebSocketState := {
  isConnected : bool;
  isReconnecting : bool;
  connectionState : string;
  error : option JVal
}.

(** The initial value given to useState. *)
Definition initial : WebSocketState :=
  {| isConnected := false; isReconnecting := false;
     connectionState := "disconnected"; error := None |}.

(** Partial<WebSocketState>: the keys an update mentions. *)
Record Updates := {
  upd_isConnected : option bool;
  upd_isReconnecting : option bool;
  upd_connectionState : option string;
  upd_error : option (option JVal)
}.

(** updateState: setState(prev => ({ ...prev, ...updates })) *)
Definition updateState (updates : Updates) (prev : WebSocketState) : WebSocketState :=
  {| isConnected := default (isConnected prev) (upd_isConnected updates);
     isReconnecting := default (isReconnecting prev) (upd_isReconnecting updates);
     connectionState := default (connectionState prev) (upd_connectionState updates);
     error := default (error prev) (upd_error updates) |}.

(** [data.k] on a handler's argument; [None]: the access throws, as it
    does on null. *)
Definition prop (k : string) (data : JVal) : option (option JVal) :=
  match data with
  | JNull => None
  | _ => Some (field k data)
  end.

(** The handlers that connect() registers on the client, by event type,
    as far as the state goes: [None] when the handler throws before it
    updates the state.  The callbacks passed in the options run after
    the update and do not touch the state. *)
Definition handler (eventType : string) (data : JVal) (prev : WebSocketState)
  : option WebSocketState :=
  if String.eqb eventType "auth_success" then
    Some (updateState
            {| upd_isConnected := Some true; upd_isReconnecting := Some false;
               upd_connectionState := Some "authenticated";
               upd_error := Some None |} prev)
  else if String.eqb eventType "auth_error" then
    message ← prop "message" data;
    Some (updateState
            {| upd_isConnected := Some false; upd_isReconnecting := Some false;
               upd_connectionState := Some "disconnected";
               upd_error := Some (Some (or_else message (JStr "Authentication failed"))) |}
            prev)
  else if String.eqb eventType "disconnected" then
    reason ← prop "reason" data;
    Some (updateState
            {| upd_isConnected := Some false; upd_isReconnecting := None;
               upd_connectionState := Some "disconnected";
               upd_error := Some (Some (or_else reason (JStr "Connection lost"))) |}
            prev)
  else if String.eqb eventType "reconnecting" then
    _ ← prop "attempt" data;
    Some (updateState
            {| upd_isConnected := None; upd_isReconnecting := Some true;
               upd_connectionState := Some "reconnecting";
               upd_error := Some None |} prev)
  else if String.eqb eventType "reconnected" then
    Some (updateState
            {| upd_isConnected := Some true; upd_isReconnecting := Some false;
               upd_connectionState := Some "authenticated";
               upd_error := Some None |} prev)
  else if String.eqb eventType "max_reconnect_attempts_reached" then
    Some (updateState
            {| upd_isConnected := Some false; upd_isReconnecting := Some false;
               upd_connectionState := Some "disconnected";
               upd_error :=
                 Some (Some (JStr "Connection lost - max reconnection attempts reached")) |}
            prev)
  else if String.eqb eventType "error" then
    message ← prop "message" data;
    Some (updateState
            {| upd_isConnected := None; upd_isReconnecting := None;
               upd_connectionState := None;
               upd_error := Some (Some (or_else message (JStr "WebSocket error"))) |}
            prev)
  else Some prev.

(** [error.message || fallback] in the catch of connect(). *)
Definition message_or (message : option string) (fallback : string) : JVal :=
  match message with
  | Some m => if String.eqb m "" then JStr fallback else JStr m
  | None => JStr fallback
  end.

(** What changes the hook's state. *)
Inductive Update :=
| Emitted (eventType : string) (data : JVal)   (* the client calls a handler *)
| No_token                                     (* connect(): no auth_token stored *)
| Connecting                                   (* connect(), before it awaits the client *)
| Connect_failed (message : option string)     (* the catch of connect() *)
| Disconnect                                   (* disconnect() *)
| Polled (currentState : State.t).             (* the 1000 ms interval reads the client *)

Definition apply (u : Update) (prev : WebSocketState) : WebSocketState :=
  match u with
  | Emitted eventType data => default prev (handler eventType data prev)
  | No_token =>
      updateState
        {| upd_isConnected := None; upd_isReconnecting := None;
           upd_connectionState := None;
           upd_error := Some (Some (JStr "No authentication token available")) |}
        prev
  | Connecting =>
      updateState
        {| upd_isConnected := None; upd_isReconnecting := None;
           upd_connectionState := Some "connecting"; upd_error := Some None |}
        prev
  | Connect_failed message =>
      updateState
        {| upd_isConnected := Some false; upd_isReconnecting := Some false;
           upd_connectionState := Some "disconnected";
           upd_error := Some (Some (message_or message "Connection failed")) |}
        prev
  | Disconnect =>
      updateState
        {| upd_isConnected := Some false; upd_isReconnecting := Some false;
           upd_connectionState := Some "disconnected"; upd_error := Some None |}
        prev
  | Polled currentState =>
      if negb (String.eqb (connectionState prev) (State.name currentState)) then
        {| isConnected := State.eqb currentState State.authenticated;
           isReconnecting := isReconnecting prev;
           connectionState := State.name currentState;
           error := error prev |}
      else prev
  end.

Definition after (us : list Update) : WebSocketState :=
  foldl (fun s u => apply u s) initial us.

(** What the flags and the state name have to do with each other. *)
Definition agree (h : WebSocketState) : Prop :=
  (connectionState h = "authenticated" -> isConnected h = true)
  /\ (isConnected h = true ->
      connectionState h = "authenticated"
      \/ connectionState h = "connecting"
      \/ connectionState h = "reconnecting")
  /\ (connectionState h = "reconnecting" -> isReconnecting h = true).

End useWebSocket.

(** ** components/ScanControlWS.tsx: the scan panel *)

Module ScanControlWS.

(** getWebSocketStatusInfo(): the colour class and the text. *)
Definition getWebSocketStatusInfo (ws : useWebSocket.WebSocketState) : string * JVal :=
  if negb (useWebSocket.isConnected ws) && negb (useWebSocket.isReconnecting ws) then
    ("text-red-500", or_else (useWebSocket.error ws) (JStr "Inte ansluten"))
  else if useWebSocket.isReconnecting ws then
    ("text-yellow-500", JStr "Återansluter...")
  else ("text-green-500", JStr "Ansluten").

(** const years = Array.from({ length: 10 }, (_, i) => currentYear - i) *)
Definition years (currentYear : Z) : list Z :=
  (fun i => (currentYear - Z.of_nat i)%Z) <$> seq 0 10.

(** toggleYear(year), as the function handed to setSelectedYears *)
Definition toggleYear (year : Z) (prev : list Z) : list Z :=
  if bool_decide (year ∈ prev)
  then filter (fun y => y <> year) prev
  else prev ++ [year].

(** The selection after the buttons of [clicks] were pressed, from the
    initial selection [currentYear]. *)
Definition selectedYears (currentYear : Z) (clicks : list Z) : list Z :=
  foldl (fun prev year => toggleYear year prev) [currentYear] clicks.

(** The argument of startScanMutation.mutateAsync in handleStartScan. *)
Record ScanOptions := { opt_years : option (list Z); opt_quickScan : option bool }.

Definition handleStartScan (quickScan : bool) (selected : list Z) : ScanOptions :=
  {| opt_years := Some (if quickScan then [] else selected);
     opt_quickScan := Some quickScan |}.

(** The "scan selected years" button is disabled with an empty selection. *)
Definition custom_scan_enabled (selected : list Z) : bool :=
  negb (Nat.eqb (length selected) 0).

End ScanControlWS.

(** ** services/api.ts: the body posted to /scan-year *)

Module bookingApi.

Record ScanRequest := { years : list Z; quickScan : bool }.

(** startScan(options); [currentYear] is new Date().getFullYear(). *)
Definition startScan (currentYear : Z) (options : ScanControlWS.ScanOptions) : ScanRequest :=
  {| years := if default false (ScanControlWS.opt_quickScan options)
              then [currentYear]
              else default [] (ScanControlWS.opt_years options);
     quickScan := default false (ScanControlWS.opt_quickScan options) |}.

End bookingApi.

(** ** components/Dashboard.tsx: the status of a booking *)

Module Dashboard.

(** A date field of a booking: absent (or otherwise falsy), or what
    [new Date(field)] makes of it: a time in milliseconds, or an invalid
    date, whose time is NaN. *)
Inductive DateField :=
| Absent
| Invalid
| At (ms : Z).

(** The fields of a booking that the status depends on. *)
Record Booking := {
  status : option string;
  checkInDate : DateField;
  checkOutDate : DateField
}.

Inductive BookingStatus :=
| Avbokad     (* cancelled *)
| Framtida    (* upcoming *)
| Pagaende    (* ongoing; 'Pågående' *)
| Avslutad.   (* finished *)

(** booking.field ? new Date(booking.field) : new Date(); [clock] is
    what the clock shows when the second branch reads it; [None] is NaN. *)
Definition date_of (d : DateField) (clock : Z) : option Z :=
  match d with
  | Absent => Some clock
  | Invalid => None
  | At ms => Some ms
  end.

(** Comparison of dates: false when a side is NaN. *)
Definition date_lt (a b : option Z) : bool :=
  match a, b with
  | Some x, Some y => (x <? y)%Z
  | _, _ => false
  end.

Definition date_le (a b : option Z) : bool :=
  match a, b with
  | Some x, Some y => (x <=? y)%Z
  | _, _ => false
  end.

(** getBookingStatus(booking).  [now], [clock1] and [clock2] are the
    three readings of the clock, in the order of the source: the first
    is always taken, the others only for an absent date. *)
Definition getBookingStatus (now clock1 clock2 : Z) (booking : Booking) : BookingStatus :=
  if bool_decide (status booking = Some "cancelled") then Avbokad
  else
    let checkIn := date_of (checkInDate booking) clock1 in
    let checkOut := date_of (checkOutDate booking) clock2 in
    if date_lt (Some now) checkIn then Framtida
    else if date_le checkIn (Some now) && date_le (Some now) checkOut then Pagaende
    else Avslutad.

(** The order in which a booking passes through its statuses. *)
Definition stage (s : BookingStatus) : nat :=
  match s with
  | Avbokad => 0
  | Framtida => 1
  | Pagaende => 2
  | Avslutad => 3
  end.

End Dashboard.

(** * Vocabulary of the properties *)

(** ** Reading a trace *)

Definition calls (tr : list Action) : list (WSEventHandler * JVal) :=
  omap (fun a => match a with Called h d => Some (h, d) | _ => None end) tr.

(** Delays of the reconnect timers that were set. *)
Definition scheduled_delays (tr : list Action) : list Z :=
  omap (fun a => match a with
                 | SetTimeout _ ReconnectTimer ms => Some ms
                 | _ => None
                 end) tr.

(** Payloads of the emissions of one event type. *)
Definition emitted (eventType : string) (tr : list Action) : list JVal :=
  omap (fun a => match a with
                 | Emit e d => if String.eqb e eventType then Some d else None
                 | _ => None
                 end) tr.

(** Transports that were created. *)
Definition connections (tr : list Action) : list nat :=
  omap (fun a => match a with NewWebSocket s => Some s | _ => None end) tr.

(** ** The registry as a value *)

Definition subscribers (m : gmap string (list WSEventHandler)) (eventType : string)
  : list WSEventHandler :=
  default [] (m !! eventType).

Definition reg_on (eventType : string) (h : WSEventHandler)
    (m : gmap string (list WSEventHandler)) : gmap string (list WSEventHandler) :=
  <[eventType := Set_add h (subscribers m eventType)]> m.

Definition reg_off (eventType : string) (h : WSEventHandler)
    (m : gmap string (list WSEventHandler)) : gmap string (list WSEventHandler) :=
  match m !! eventType with
  | Some hs =>
      match Set_delete h hs with
      | [] => delete eventType m
      | hs' => <[eventType := hs']> m
      end
  | None => m
  end.

Definition is_consumer (h : WSEventHandler) : bool :=
  match h with
  | Consumer _ => true
  | _ => false
  end.

(** What [emit] adds to the trace for one handler that is a consumer's. *)
Definition delivery (f : nat -> JVal -> option Exn) (eventType : string)
    (data : JVal) (h : WSEventHandler) : list Action :=
  Called h data ::
  match h with
  | Consumer n =>
      match f n data with
      | Some e => [Caught eventType e]
      | None => []
      end
  | _ => []
  end.

Definition notify (f : nat -> JVal -> option Exn)
    (m : gmap string (list WSEventHandler)) (eventType : string) (data : JVal)
  : list Action :=
  Emit eventType data :: flat_map (delivery f eventType data) (subscribers m eventType).

(** Handlers that [emit eventType data] called, from world [w]. *)
Definition delivered (eventType : string) (data : JVal) (w : World)
  : list WSEventHandler :=
  (drop (length (calls (trace w))) (calls (trace (run (emit eventType data) w)))).*1.

(** Calls of [on] and [off], in any order. *)
Inductive RegistryCall :=
| Reg_on (eventType : string) (h : WSEventHandler)
| Reg_off (eventType : string) (h : WSEventHandler).

Definition registry_call (c : RegistryCall) : M unit :=
  match c with
  | Reg_on eventType h => on eventType h
  | Reg_off eventType h => off eventType h
  end.

Definition after_calls (cs : list RegistryCall) (w : World) : World :=
  foldl (fun w c => run (registry_call c) w) w cs.

(** ** Invariants of the states the client reaches *)

(** Every entry is a set (no handler twice) and no entry is empty. *)
Definition registry_sets (m : gmap string (list WSEventHandler)) : Prop :=
  forall e hs, m !! e = Some hs -> NoDup hs /\ hs <> [].


(** The closures of [authenticate] sit under their own event types. *)
Definition registered_under (eventType : string) (h : WSEventHandler) : bool :=
  match h with
  | Consumer _ => true
  | AuthResponse _ _ => String.eqb eventType "auth_success"
  | AuthError _ _ => String.eqb eventType "auth_error"
  end.

Definition wf_registry (m : gmap string (list WSEventHandler)) : Prop :=
  forall eventType h, h ∈ subscribers m eventType -> registered_under eventType h = true.

Definition settled_in (ps : gmap nat Promise) (p : nat) : bool :=
  match ps !! p with
  | Some pr => settled pr
  | None => false
  end.

(** No handshake is in flight: listeners still registered belong to
    handshakes that are over. *)
Definition idle_handler (ps : gmap nat Promise) (h : WSEventHandler) : bool :=
  match h with
  | Consumer _ => true
  | AuthResponse p _ | AuthError p _ => settled_in ps p
  end.

Definition handshake_idle (w : World) : Prop :=
  forall eventType h,
    h ∈ subscribers (eventHandlers w) eventType -> idle_handler (promises w) h = true.

(** A listener of 'auth_error' that is a consumer's or is left over from
    a handshake that is over. *)
Definition idle_listener (ps : gmap nat Promise) (h : WSEventHandler) : bool :=
  match h with
  | Consumer _ => true
  | AuthError p _ => settled_in ps p
  | AuthResponse _ _ => false
  end.

(** Every handler of [m'] is a handler of [m], under the same type. *)
Definition sub_registry (m' m : gmap string (list WSEventHandler)) : Prop :=
  forall eventType h,
    h ∈ subscribers m' eventType -> h ∈ subscribers m eventType.

(** Trace entries that neither emit, set a timer nor open a transport. *)
Definition silent (tr : list Action) : Prop :=
  scheduled_delays tr = [] /\ connections tr = []
  /\ forall e, emitted e tr = [].

(** Promise names come from the counter. *)
Definition fresh_ids (w : World) : Prop :=
  forall p, is_Some (promises w !! p) -> p < fresh w.

(** The one pending reconnect timer is the one the field holds. *)
Definition reconnect_timer_tracked (w : World) : Prop :=
  forall t, timers w !! t = Some ReconnectTimer -> reconnectTimeout w = Some t.

(** What holds of every world the client reaches, and between any two
    statements of its methods. *)
Definition invariant (w : World) : Prop :=
  wf_registry (eventHandlers w) /\ fresh_ids w /\ reconnect_timer_tracked w.

Definition preserves {A} (m : M A) : Prop :=
  forall w, invariant w -> invariant (m w).2.

(** The worlds a client reaches from its construction. *)
Definition reachable (w : World) : Prop :=
  exists ok f es, steps (new_client ok f) es = Some w.

(** Checks of the same, for worlds given in full. *)
Definition check_registry (P : string -> WSEventHandler -> bool)
    (m : gmap string (list WSEventHandler)) : bool :=
  forallb (fun '(e, hs) => forallb (P e) hs) (map_to_list m).

Definition check_fresh_ids (w : World) : bool :=
  forallb (fun '(p, _) => Nat.ltb p (fresh w)) (map_to_list (promises w)).

Definition check_tracked (w : World) : bool :=
  forallb (fun '(t, k) =>
             match k with
             | ReconnectTimer => bool_decide (reconnectTimeout w = Some t)
             | _ => true
             end) (map_to_list (timers w)).

(** The session dropped: the state in which [onclose] calls
    [attemptReconnect], and in which every failed attempt leaves the
    client. *)
Record dropped (w : World) : Prop := {
  dropped_jobs : jobs w = [];
  dropped_token : token_present (token w) = true;
  dropped_authenticated : authenticated w = false;
  dropped_heartbeat : heartbeatInterval w = None;
  dropped_state :
    State.eqb (connectionState w) State.connected
    || State.eqb (connectionState w) State.authenticated = false;
  dropped_registry : wf_registry (eventHandlers w);
  dropped_idle : handshake_idle w;
  dropped_fresh : fresh_ids w;
  dropped_tracked : reconnect_timer_tracked w
}.

(** ... and the scheduler's timer is pending. *)
Definition armed (w : World) : Prop :=
  dropped w /\
  exists t, reconnectTimeout w = Some t /\ timers w !! t = Some ReconnectTimer.

(** ** Reconnect attempts, as the network plays them *)

(** The name handed out last. *)
Definition latest (w : World) : nat := pred (fresh w).

(** An attempt that fails before the transport opens: the constructor
    refuses the URL, or the connection fails (error event while
    connecting, with or without the close event that follows). *)
Definition failed_attempt (close : option (Z * string)) (w : World) : option World :=
  t ← reconnectTimeout w;
  w1 ← step w (Timer_fires t);
  if url_ok w then
    s ← ws w1;
    w2 ← steps w1 [Transport_error s; Microtask];
    match close with
    | Some (code, reason) => step w2 (Transport_close s code reason)
    | None => Some w2
    end
  else step w1 Microtask.

Fixpoint failed_attempts (closes : list (option (Z * string))) (w : World)
  : option World :=
  match closes with
  | [] => Some w
  | c :: cs => w' ← failed_attempt c w; failed_attempts cs w'
  end.

(** The delays of the backoff, attempt by attempt. *)
Definition backoff : list Z :=
  [1000; 2000; 4000; 8000; 16000; 30000; 30000; 30000; 30000; 30000]%Z.

(** How a handshake fails once the transport is open. *)
Inductive HandshakeFailure :=
| Auth_refused (message : WSResponse)          (* an auth_error frame *)
| Auth_silence                                 (* 5000 ms without an answer *)
| Closed_early (code : Z) (reason : string).   (* closed within the 100 ms delay *)

(** An attempt whose transport opens and whose handshake fails. *)
Definition opened_then_failed (f : HandshakeFailure) (w : World) : option World :=
  t ← reconnectTimeout w;
  w1 ← step w (Timer_fires t);
  s ← ws w1;
  w2 ← step w1 (Transport_open s);
  match f with
  | Auth_refused message =>
      w3 ← step w2 (Timer_fires (latest w2));
      steps w3 [Transport_message s (Some message); Microtask; Microtask]
  | Auth_silence =>
      w3 ← step w2 (Timer_fires (latest w2));
      steps w3 [Timer_fires (latest w3); Microtask; Microtask]
  | Closed_early code reason =>
      steps w2 [Transport_close s code reason; Timer_fires (latest w2); Microtask]
  end.

(** Settled [connect] promises of outside callers, and frames sent. *)
Definition rejections (tr : list Action) : list (nat * Exn) :=
  omap (fun a => match a with Rejected p e => Some (p, e) | _ => None end) tr.

Definition resolutions (tr : list Action) : list nat :=
  omap (fun a => match a with Resolved p => Some p | _ => None end) tr.

Definition sent (tr : list Action) : list WSMessage :=
  omap (fun a => match a with WsSend _ m => Some m | _ => None end) tr.

Definition check_dropped (w : World) : bool :=
  match jobs w with [] => true | _ => false end
  && token_present (token w)
  && negb (authenticated w)
  && match heartbeatInterval w with None => true | Some _ => false end
  && negb (State.eqb (connectionState w) State.connected
           || State.eqb (connectionState w) State.authenticated)
  && check_registry registered_under (eventHandlers w)
  && check_registry (fun _ h => idle_handler (promises w) h) (eventHandlers w)
  && check_fresh_ids w
  && check_tracked w.

Definition check_armed (w : World) : bool :=
  check_dropped w
  && match reconnectTimeout w with
     | Some t => bool_decide (timers w !! t = Some ReconnectTimer)
     | None => false
     end.

(** ** Scenarios *)

Definition well_behaved : nat -> JVal -> option Exn := fun _ _ => None.

(** Consumer 1 throws on every call. *)
Definition first_throws : nat -> JVal -> option Exn :=
  fun n _ => if Nat.eqb n 1 then Some (Error (JStr "boom")) else None.

Definition frame (type : string) (message : option string) : WSResponse :=
  {| rsp_type := type; rsp_data := None; rsp_channel := None; rsp_message := message |}.

Definition the (o : option World) : World :=
  default (new_client false well_behaved) o.

(** A consumer subscribes, connects, and the server accepts the token:
    promise 0, transport 1, settle timer 2, handshake 3 with timer 4,
    heartbeat 5. *)
Definition session_events : list Event :=
  [Call_on "disconnected" 1; Call_on "reconnecting" 2; Call_on "pong" 3;
   Call_connect "token"; Transport_open 1; Timer_fires 2;
   Transport_message 1 (Some (frame "auth_success" None));
   Microtask; Microtask].

Definition session : World :=
  the (steps (new_client true well_behaved) session_events).

(** The session's transport is lost. *)
Definition lost_session : World :=
  the (step session (Transport_close 1 1006 "lost")).

(** The session's transport closes with code 1000: nothing is scheduled. *)
Definition ended_session : World :=
  the (step session (Transport_close 1 1000 "bye")).

(** The consumer disconnects, and the close events arrive. *)
Definition late_closes : list (nat * Z * string) :=
  [(1, 1000%Z, "User initiated disconnect"); (1, 1006%Z, "")].

Definition closed_session : World :=
  the (step session Call_disconnect).

Definition disconnected_session : World :=
  the (steps closed_session
         (map (fun '(s, code, reason) => Transport_close s code reason) late_closes)).

(** Ten attempts that fail before their transport opens. *)
Definition ten_failures : list (option (Z * string)) :=
  [Some (1006%Z, ""); None; Some (1006%Z, ""); None; None;
   Some (1006%Z, ""); None; None; None; Some (1006%Z, "")].

Definition exhausted_session : World :=
  the (failed_attempts ten_failures (run attemptReconnect ended_session)).

(** Six failed attempts: seven attempts counted, interval 30000. *)
Definition backed_off_session : World :=
  the (failed_attempts (take 6 ten_failures) (run attemptReconnect ended_session)).

Definition refusal : WSResponse := frame "auth_error" (Some "invalid token").

Definition restarted_session : World :=
  the (opened_then_failed (Auth_refused refusal) backed_off_session).

(** An attempt that the server refuses and whose transport it then closes. *)
Definition refused_attempt (w : World) : option World :=
  w1 ← opened_then_failed (Auth_refused refusal) w;
  s ← ws w1;
  step w1 (Transport_close s 1008 "policy").

Fixpoint refused_attempts (n : nat) (w : World) : option World :=
  match n with
  | 0 => Some w
  | S n => w' ← refused_attempt w; refused_attempts n w'
  end.

Definition never_exhausted : World :=
  the (refused_attempts 12 (run attemptReconnect ended_session)).

(** A first connect that the server refuses, or never answers. *)
Definition refused_connect : World :=
  the (steps (new_client true well_behaved)
         [Call_connect "bad"; Transport_open 1; Timer_fires 2;
          Transport_message 1 (Some refusal); Microtask; Microtask]).

Definition unanswered_connect : World :=
  the (steps (new_client true well_behaved)
         [Call_connect "token"; Transport_open 1; Timer_fires 2;
          Timer_fires 4; Microtask; Microtask]).

(** A second connect after the refusal. *)
Definition second_connect : World :=
  the (steps refused_connect [Call_connect "good"; Microtask]).

(** A manual connect while the reconnect timer (6) is pending, and the
    timer firing afterwards. *)
Definition manual_connect : World :=
  the (step lost_session (Call_connect "token")).

Definition double_connect : World :=
  the (step manual_connect (Timer_fires 6)).

(** Two consumers listen to 'progress'; the first throws. *)
Definition two_listeners : World :=
  the (steps (new_client true first_throws)
         [Call_on "progress" 1; Call_on "progress" 2; Call_on "scan_status" 3]).

(** * Specifications of the client's methods *)

(** [wp m Q E w]: run from [w], [m] returns [a] in a world that
    satisfies [Q a], or throws [e] into a world that satisfies [E e]. *)
Definition wp {A} (m : M A) (Q : A -> World -> Prop) (E : Exn -> World -> Prop)
    (w : World) : Prop :=
  match m w with
  | (Normal a, w') => Q a w'
  | (Throw e, w') => E e w'
  end.

Definition triple {A} (P : World -> Prop) (m : M A)
    (Q : A -> World -> Prop) (E : Exn -> World -> Prop) : Prop :=
  forall w, P w -> wp m Q E w.

(** Nothing is thrown. *)
Definition no_throw : Exn -> World -> Prop := fun _ _ => False.

(** ** What the client does to the outside *)

(** Frames the client sends: a ping, or the auth frame with a token. *)
Definition frame_allowed (m : WSMessage) : bool :=
  match msg_type m with
  | ping => true
  | auth => token_present (msg_token m)
  | subscribe | unsubscribe => false
  end.

(** The timers, frames and closes of the client, and no exception left
    to the host. *)
Definition allowed (a : Action) : bool :=
  match a with
  | WsSend _ m => frame_allowed m
  | WsClose _ code reason =>
      (code =? 1000)%Z && String.eqb reason "User initiated disconnect"
  | SetTimeout _ (SettleTimer _) ms => (ms =? 100)%Z
  | SetTimeout _ (AuthTimeout _) ms => (ms =? 5000)%Z
  | SetTimeout _ ReconnectTimer ms =>
      (1000 <=? ms)%Z && (ms <=? maxReconnectInterval)%Z
  | SetTimeout _ HeartbeatTimer _ => false
  | SetInterval _ HeartbeatTimer ms => (ms =? 25000)%Z
  | SetInterval _ _ _ => false
  | Uncaught _ => false
  | _ => true
  end.

(** An 'auth_success' event was dispatched. *)
Definition accepted (tr : list Action) : Prop := emitted "auth_success" tr <> [].

(** What holds in every world the client reaches and between the
    statements of its methods; [req] is set while a listener of
    'auth_success' runs. *)
Record sound (req : Prop) (w : World) : Prop := {
  sound_registry : wf_registry (eventHandlers w);
  sound_attempts : (0 <= reconnectAttempts w <= maxReconnectAttempts)%Z;
  sound_interval : (1000 <= reconnectInterval w <= maxReconnectInterval)%Z;
  sound_heartbeat :
    forall t, timers w !! t = Some HeartbeatTimer -> heartbeatInterval w = Some t;
  sound_flag : connectionState w = State.authenticated -> authenticated w = true;
  sound_accepted :
    connectionState w = State.authenticated \/ req -> accepted (trace w);
  sound_trace : forallb allowed (trace w) = true;
  sound_sockets : forall s, is_Some (sockets w !! s) -> s < fresh w
}.

(** ** A handshake that succeeds *)

(** A listener of 'auth_success' that is a consumer's or is left over
    from a handshake that is over. *)
Definition idle_success_listener (ps : gmap nat Promise) (h : WSEventHandler) : bool :=
  match h with
  | Consumer _ => true
  | AuthResponse p _ => settled_in ps p
  | AuthError _ _ => false
  end.

(** The consumers' subscriptions are the same in both registries. *)
Definition same_consumers (m' m : gmap string (list WSEventHandler)) : Prop :=
  forall eventType n,
    Consumer n ∈ subscribers m' eventType <-> Consumer n ∈ subscribers m eventType.

(** Trace entries of handler calls: nothing is sent, set or settled. *)
Definition is_call (a : Action) : bool :=
  match a with
  | Called _ _ | Caught _ _ | ClearTimeout _ => true
  | _ => false
  end.

(** The transport opens, the 100 ms delay passes, the server accepts
    the token, and the two promise reactions run. *)
Definition handshake_accepted (message : WSResponse) (w1 : World) : option World :=
  s ← ws w1;
  w2 ← step w1 (Transport_open s);
  w3 ← step w2 (Timer_fires (latest w2));
  steps w3 [Transport_message s (Some message); Microtask; Microtask].

Definition accepted_connect (tok : string) (message : WSResponse) (w : World)
  : option World :=
  w1 ← step w (Call_connect tok);
  handshake_accepted message w1.

Definition accepted_attempt (message : WSResponse) (w : World) : option World :=
  t ← reconnectTimeout w;
  w1 ← step w (Timer_fires t);
  handshake_accepted message w1.

Definition auth_frame (tok : string) : WSMessage :=
  {| msg_type := auth; msg_data := None; msg_token := Some tok; msg_channel := None |}.

(** What a handshake that the server accepts leaves behind. *)
Definition session_established (caller : Caller) (c s : nat) (tok : string)
    (w1 w' : World) : Prop :=
  connectionState w' = State.authenticated
  /\ authenticated w' = true
  /\ jobs w' = []
  /\ ws w' = Some s
  /\ reconnectAttempts w' = 0%Z
  /\ reconnectInterval w' = 1000%Z
  /\ (exists t, heartbeatInterval w' = Some t
                /\ timers w' !! t = Some HeartbeatTimer)
  /\ sub_registry (eventHandlers w') (eventHandlers w1)
  /\ same_consumers (eventHandlers w') (eventHandlers w1)
  /\ sent (trace w') = sent (trace w1) ++ [auth_frame tok]
  /\ scheduled_delays (trace w') = scheduled_delays (trace w1)
  /\ connections (trace w') = connections (trace w1)
  /\ rejections (trace w') = rejections (trace w1)
  /\ (forall t k, timers w' !! t = Some k ->
                  heartbeatInterval w' = Some t \/ timers w1 !! t = Some k)
  /\ match caller with
     | Outside => resolutions (trace w') = resolutions (trace w1) ++ [c]
     | Scheduler =>
         emitted "reconnected" (trace w')
         = emitted "reconnected" (trace w1) ++ [JObj [("attempts", JNum 0)]]
     end.

(** A connect whose transport opens, up to the end of the 100 ms delay
    and the promise reactions that follow. *)
Definition opened_connect (tok : string) (w : World) : option World :=
  w1 ← step w (Call_connect tok);
  s ← ws w1;
  w2 ← step w1 (Transport_open s);
  steps w2 [Timer_fires (latest w2); Microtask; Microtask].

(** A connect whose transport opens and whose handshake the server
    refuses, or leaves unanswered for 5000 ms. *)
Definition failed_connect (tok : string) (f : HandshakeFailure) (w : World)
  : option World :=
  w1 ← step w (Call_connect tok);
  s ← ws w1;
  w2 ← step w1 (Transport_open s);
  w3 ← step w2 (Timer_fires (latest w2));
  match f with
  | Auth_refused message =>
      steps w3 [Transport_message s (Some message); Microtask; Microtask]
  | Auth_silence =>
      steps w3 [Timer_fires (latest w3); Microtask; Microtask]
  | Closed_early _ _ => None
  end.

(** ** More scenarios *)

(** Three consumers have subscribed; nothing else has happened. *)
Definition subscribed : World :=
  the (steps (new_client true well_behaved)
         [Call_on "disconnected" 1; Call_on "reconnecting" 2; Call_on "pong" 3]).

Definition acceptance : WSResponse := frame "auth_success" None.

(** The reconnect attempt after six failures is accepted. *)
Definition recovered_session : World :=
  the (accepted_attempt acceptance backed_off_session).

(** A connect without a token, and a connect when the constructor throws. *)
Definition tokenless_connect : World :=
  the (opened_connect "" (new_client true well_behaved)).

Definition blocked_connect : World :=
  the (steps (new_client false well_behaved) [Call_connect "token"; Microtask]).

(** A second connect on the session, with another token. *)
Definition repeated_connect : World :=
  the (steps session [Call_connect "other"; Microtask]).

(** The consumer disconnects and connects again at once; the close
    event of the first transport comes after the second connect. *)
Definition hasty_reconnect : World :=
  the (steps session
         [Call_disconnect; Call_connect "token";
          Transport_close 1 1000 "User initiated disconnect";
          Transport_open 7; Timer_fires 8; Microtask]).

(** [disconnect] during a reconnect attempt: the session is lost, the
    reconnect timer (6) fires and the new transport (8) opens; the
    consumer disconnects before the 100 ms delay (timer 9) is over. *)
Definition interrupted_events : list Event :=
  session_events
  ++ [Transport_close 1 1006 "lost"; Timer_fires 6; Transport_open 8;
      Call_disconnect].

Definition interrupted_attempt : World :=
  the (steps (new_client true well_behaved) interrupted_events).

(** The close event of the transport arrives, and the delay ends. *)
Definition resumed_reconnection : World :=
  the (steps interrupted_attempt
         [Transport_close 8 1000 "User initiated disconnect";
          Timer_fires 9; Microtask]).

(** The timer set after the disconnect (10) fires, and the server
    accepts the token on the transport it opens (12). *)
Definition reconnected_after_disconnect : World :=
  the (steps resumed_reconnection
         [Timer_fires 10; Transport_open 12; Timer_fires 13;
          Transport_message 12 (Some acceptance); Microtask; Microtask]).

(** The same with a [disconnect] that comes after the auth frame was
    sent, while the 5000 ms timeout (timer 11) is pending. *)
Definition interrupted_handshake : World :=
  the (steps lost_session
         [Timer_fires 6; Transport_open 8; Timer_fires 9; Call_disconnect;
          Transport_close 8 1000 "User initiated disconnect"]).

Definition resumed_after_timeout : World :=
  the (steps interrupted_handshake [Timer_fires 11; Microtask; Microtask]).

(** A progress frame arrives on the session. *)
Definition progress_frame : WSResponse :=
  {| rsp_type := "progress"; rsp_data := Some (JNum 0); rsp_channel := None;
     rsp_message := Some "scanning" |}.

Definition progress_delivered : World :=
  the (step session (Transport_message 1 (Some progress_frame))).

(** The session with a consumer that throws, after a progress frame. *)
Definition noisy_session : World :=
  the (steps (new_client true first_throws)
         [Call_on "progress" 1; Call_connect "token"; Transport_open 1;
          Timer_fires 2; Transport_message 1 (Some acceptance);
          Microtask; Microtask; Transport_message 1 (Some progress_frame)]).

(** The hook after the client announced a reconnection. *)
Definition announced : list useWebSocket.Update :=
  [useWebSocket.Connecting;
   useWebSocket.Emitted "auth_success" (frame_object acceptance);
   useWebSocket.Emitted "disconnected"
     (JObj [("code", JNum 1006); ("reason", JStr "lost")]);
   useWebSocket.Emitted "reconnecting"
     (JObj [("attempt", JNum 1); ("maxAttempts", JNum 10); ("delay", JNum 1000)])].

(** A stay of one week. *)
Definition week_stay : Dashboard.Booking :=
  {| Dashboard.status := Some "confirmed";
     Dashboard.checkInDate := Dashboard.At 1000;
     Dashboard.checkOutDate := Dashboard.At 8000 |}.

(** * Proofs *)

#[local] Arguments emit : simpl never.
#[local] Arguments on : simpl never.
#[local] Arguments off : simpl never.
#[local] Arguments settle : simpl never.

Ltac monad :=
  repeat progress
    unfold mbind, M_bind, mret, M_ret, modify, gets, skip, log, try_catch,
           throw, option_bind, option_ret in *.

Ltac exec := repeat progress (monad; cbn).

(** Reads fields through field assignments, and nothing else. *)
Ltac fields :=
  cbn [ws token authenticated reconnectAttempts reconnectInterval
       heartbeatInterval reconnectTimeout eventHandlers connectionState
       url_ok sockets timers promises fresh jobs trace consumer
       set_ws set_token set_authenticated set_reconnectAttempts
       set_reconnectInterval set_heartbeatInterval set_reconnectTimeout
       set_eventHandlers set_connectionState set_sockets set_timers
       set_promises set_fresh set_jobs set_trace] in *.

(** The same, using the equations at hand on the way. *)
Ltac use_hyps :=
  repeat match goal with
         | H : ?x = _ |- context [?x] => rewrite H
         end.

Ltac exec_with_hyps := repeat progress (monad; cbn; use_hyps).

(** ** The sequencing laws used below *)

Lemma bind_normal {A B} (m : M A) (f : A -> M B) w a w' :
  m w = (Normal a, w') -> (m ≫= f) w = f a w'.
Proof. unfold mbind, M_bind. intros ->. reflexivity. Qed.

Lemma set_trace_id w : set_trace (trace w) w = w.
Proof. destruct w; reflexivity. Qed.

Lemma set_eventHandlers_id w : set_eventHandlers (eventHandlers w) w = w.
Proof. destruct w; reflexivity. Qed.

(** ** Trace readers over concatenation *)

Lemma calls_app a b : calls (a ++ b) = calls a ++ calls b.
Proof. apply omap_app. Qed.

Lemma scheduled_delays_app a b :
  scheduled_delays (a ++ b) = scheduled_delays a ++ scheduled_delays b.
Proof. apply omap_app. Qed.

Lemma emitted_app e a b : emitted e (a ++ b) = emitted e a ++ emitted e b.
Proof. apply omap_app. Qed.

Lemma connections_app a b : connections (a ++ b) = connections a ++ connections b.
Proof. apply omap_app. Qed.

Lemma calls_deliveries f e d hs :
  calls (flat_map (delivery f e d) hs) = map (fun h => (h, d)) hs.
Proof.
  induction hs as [|h hs IH]; [reflexivity|].
  cbn [flat_map]. rewrite calls_app, IH.
  destruct h as [n| |]; cbn; [destruct (f n d)|..]; reflexivity.
Qed.

Lemma scheduled_delays_deliveries f e d hs :
  scheduled_delays (flat_map (delivery f e d) hs) = [].
Proof.
  induction hs as [|h hs IH]; [reflexivity|].
  cbn [flat_map]. rewrite scheduled_delays_app, IH.
  destruct h as [n| |]; cbn; [destruct (f n d)|..]; reflexivity.
Qed.

Lemma emitted_deliveries e' f e d hs :
  emitted e' (flat_map (delivery f e d) hs) = [].
Proof.
  induction hs as [|h hs IH]; [reflexivity|].
  cbn [flat_map]. rewrite emitted_app, IH.
  destruct h as [n| |]; cbn; [destruct (f n d)|..]; reflexivity.
Qed.

Lemma connections_deliveries f e d hs :
  connections (flat_map (delivery f e d) hs) = [].
Proof.
  induction hs as [|h hs IH]; [reflexivity|].
  cbn [flat_map]. rewrite connections_app, IH.
  destruct h as [n| |]; cbn; [destruct (f n d)|..]; reflexivity.
Qed.

Lemma scheduled_delays_notify f m e d : scheduled_delays (notify f m e d) = [].
Proof. unfold notify. cbn. apply scheduled_delays_deliveries. Qed.

Lemma connections_notify f m e d : connections (notify f m e d) = [].
Proof. unfold notify. cbn. apply connections_deliveries. Qed.

Lemma emitted_notify e' f m e d :
  emitted e' (notify f m e d) = if String.eqb e e' then [d] else [].
Proof.
  unfold notify.
  change (emitted e' ([Emit e d] ++ flat_map (delivery f e d) (subscribers m e))
          = if String.eqb e e' then [d] else []).
  rewrite emitted_app, emitted_deliveries. cbn.
  destruct (String.eqb e e'); reflexivity.
Qed.

Lemma emitted_cleared e (o : option nat) :
  emitted e (from_option (fun t => [ClearTimeout t]) [] o) = [].
Proof. now destruct o. Qed.

Lemma scheduled_delays_cleared (o : option nat) :
  scheduled_delays (from_option (fun t => [ClearTimeout t]) [] o) = [].
Proof. now destruct o. Qed.

Lemma connections_cleared (o : option nat) :
  connections (from_option (fun t => [ClearTimeout t]) [] o) = [].
Proof. now destruct o. Qed.

#[local] Arguments calls : simpl never.
#[local] Arguments scheduled_delays : simpl never.
#[local] Arguments emitted : simpl never.
#[local] Arguments connections : simpl never.
#[local] Arguments notify : simpl never.

(** Reading the trace of a world reached by symbolic execution. *)
Ltac observe :=
  rewrite ?scheduled_delays_app, ?emitted_app, ?connections_app, ?calls_app,
          ?scheduled_delays_notify, ?emitted_notify, ?connections_notify,
          ?scheduled_delays_cleared, ?emitted_cleared, ?connections_cleared;
  unfold scheduled_delays, emitted, connections, calls; cbn;
  rewrite ?app_nil_r.

(** ** The registry operations compute [reg_on] and [reg_off] *)

Lemma alter_as_insert (f : list WSEventHandler -> list WSEventHandler)
    (k : string) (m : gmap string (list WSEventHandler)) x :
  m !! k = Some x -> alter f k m = <[k := f x]> m.
Proof.
  intros E. apply map_eq. intros k'.
  destruct (decide (k = k')) as [->|Hne].
  - now rewrite lookup_alter_eq, lookup_insert_eq, E.
  - now rewrite lookup_alter_ne, lookup_insert_ne by done.
Qed.

Lemma on_spec eventType h w :
  on eventType h w
  = (Normal tt, set_eventHandlers (reg_on eventType h (eventHandlers w)) w).
Proof.
  unfold on, reg_on, subscribers. monad. cbn.
  destruct (eventHandlers w !! eventType) as [hs|] eqn:E; cbn.
  - now rewrite (alter_as_insert _ _ _ _ E).
  - rewrite (alter_as_insert _ _ _ []) by apply lookup_insert_eq.
    now rewrite insert_insert_eq.
Qed.

Lemma off_spec eventType h w :
  off eventType h w
  = (Normal tt, set_eventHandlers (reg_off eventType h (eventHandlers w)) w).
Proof.
  unfold off, reg_off. monad. cbn.
  destruct (eventHandlers w !! eventType) as [hs|] eqn:E; cbn.
  - destruct (Set_delete h hs) as [|x hs'] eqn:D; cbn.
    + now rewrite delete_insert_eq.
    + reflexivity.
  - now rewrite set_eventHandlers_id.
Qed.

Lemma subscribers_reg_on e h m e' :
  subscribers (reg_on e h m) e'
  = if decide (e = e') then Set_add h (subscribers m e) else subscribers m e'.
Proof.
  unfold reg_on, subscribers at 1. rewrite lookup_insert.
  destruct (decide (e = e')); reflexivity.
Qed.

Lemma subscribers_reg_off e h m e' :
  subscribers (reg_off e h m) e'
  = if decide (e = e') then Set_delete h (subscribers m e) else subscribers m e'.
Proof.
  unfold reg_off, subscribers.
  destruct (m !! e) as [hs|] eqn:E.
  - destruct (Set_delete h hs) as [|x hs'] eqn:D.
    + rewrite lookup_delete.
      destruct (decide (e = e')); [exact (eq_sym D)|reflexivity].
    + rewrite lookup_insert.
      destruct (decide (e = e')); [exact (eq_sym D)|reflexivity].
  - destruct (decide (e = e')) as [<-|]; [now rewrite E|reflexivity].
Qed.

Lemma elem_of_Set_add x h hs : x ∈ Set_add h hs <-> x = h \/ x ∈ hs.
Proof.
  unfold Set_add. destruct (decide (h ∈ hs)).
  - split; [auto|]. intros [->|]; assumption.
  - rewrite elem_of_app, list_elem_of_singleton. tauto.
Qed.

Lemma elem_of_Set_delete x h hs : x ∈ Set_delete h hs <-> x <> h /\ x ∈ hs.
Proof. unfold Set_delete. rewrite list_elem_of_filter. tauto. Qed.

(** ** [emit] when only consumers listen *)

Lemma deliver_consumer eventType data n w :
  try_catch (call (Consumer n) data) (fun error => log (Caught eventType error)) w
  = (Normal tt,
     set_trace (trace w ++ delivery (consumer w) eventType data (Consumer n)) w).
Proof.
  unfold call, delivery. monad. cbn.
  destruct (consumer w n data); cbn; [|reflexivity].
  now rewrite <- app_assoc.
Qed.

Lemma forEach_consumers eventType data hs : forall w,
  forallb is_consumer hs = true ->
  forEach (fun handler =>
             try_catch (call handler data)
                       (fun error => log (Caught eventType error))) hs w
  = (Normal tt,
     set_trace (trace w ++ flat_map (delivery (consumer w) eventType data) hs) w).
Proof.
  induction hs as [|h hs IH]; intros w Hc.
  - cbn. now rewrite app_nil_r, set_trace_id.
  - cbn in Hc. apply andb_prop in Hc as [Hh Hc].
    destruct h as [n| |]; try discriminate.
    cbn [forEach flat_map].
    erewrite bind_normal by apply deliver_consumer.
    rewrite (IH _ Hc). cbn. now rewrite <- app_assoc.
Qed.

Lemma emit_consumers eventType data w :
  forallb is_consumer (subscribers (eventHandlers w) eventType) = true ->
  emit eventType data w
  = (Normal tt,
     set_trace (trace w ++ notify (consumer w) (eventHandlers w) eventType data) w).
Proof.
  intros Hc. unfold emit, notify, subscribers in *.
  erewrite bind_normal by reflexivity.
  erewrite bind_normal by reflexivity. cbn.
  destruct (eventHandlers w !! eventType) as [hs|]; cbn in *.
  - rewrite (forEach_consumers _ _ _ _ Hc). cbn. now rewrite <- app_assoc.
  - reflexivity.
Qed.

(** Outside the two handshake events, a well-formed registry holds
    consumers only. *)
Lemma wf_consumers m eventType :
  wf_registry m ->
  negb (String.eqb eventType "auth_success") && negb (String.eqb eventType "auth_error") = true ->
  forallb is_consumer (subscribers m eventType) = true.
Proof.
  intros Hwf Hne. apply forallb_forall. intros h Hin.
  apply list_elem_of_In in Hin. specialize (Hwf _ _ Hin).
  apply andb_prop in Hne as [H1 H2].
  destruct h; cbn in *; [reflexivity|..].
  - rewrite Hwf in H1. discriminate.
  - rewrite Hwf in H2. discriminate.
Qed.

(** ** Runs, and registries within registries *)

Lemma steps_cons w e es : steps w (e :: es) = step w e ≫= fun w' => steps w' es.
Proof. reflexivity. Qed.

Lemma steps_nil w : steps w [] = Some w.
Proof. reflexivity. Qed.

Lemma sub_registry_refl m : sub_registry m m.
Proof. intros e h. auto. Qed.

Lemma sub_registry_trans m1 m2 m3 :
  sub_registry m1 m2 -> sub_registry m2 m3 -> sub_registry m1 m3.
Proof. intros H1 H2 e h Hin. auto. Qed.

Lemma sub_registry_off e h m : sub_registry (reg_off e h m) m.
Proof.
  intros e' x. rewrite subscribers_reg_off.
  destruct (decide (e = e')) as [<-|]; [|auto].
  rewrite elem_of_Set_delete. tauto.
Qed.

Lemma wf_sub_registry m' m : sub_registry m' m -> wf_registry m -> wf_registry m'.
Proof. intros Hs Hwf e h Hin. apply Hwf, Hs, Hin. Qed.

Lemma wf_reg_on e h m :
  wf_registry m -> registered_under e h = true -> wf_registry (reg_on e h m).
Proof.
  intros Hwf Hh e' x. rewrite subscribers_reg_on.
  destruct (decide (e = e')) as [<-|]; [|apply Hwf].
  rewrite elem_of_Set_add. intros [->|Hin]; [exact Hh|now apply Hwf].
Qed.


Lemma settle_spec p reaction w :
  settle p reaction w
  = (Normal tt,
     match promises w !! p with
     | Some {| kind := k; settled := false |} =>
         set_jobs (jobs w ++ [reaction k])
           (set_promises (<[p := {| kind := k; settled := true |}]> (promises w)) w)
     | _ => w
     end).
Proof.
  unfold settle. monad. cbn.
  destruct (promises w !! p) as [[k []]|]; reflexivity.
Qed.

Lemma settle_trace p reaction w : trace (settle p reaction w).2 = trace w.
Proof.
  rewrite settle_spec. cbn.
  destruct (promises w !! p) as [[k []]|]; reflexivity.
Qed.

(** Whatever the handler is, [emit]'s callback returns normally and
    records one call. *)
Lemma deliver_any eventType data h w :
  exists w',
    try_catch (call h data) (fun error => log (Caught eventType error)) w
    = (Normal tt, w')
    /\ calls (trace w') = calls (trace w) ++ [(h, data)].
Proof.
  destruct h as [n|p t|p t].
  - eexists. split; [apply deliver_consumer|].
    cbn [trace set_trace]. rewrite calls_app. f_equal.
    unfold calls. cbn. destruct (consumer w n data); reflexivity.
  - unfold call, handleAuthResponse, resolve, clearTimeout. exec.
    rewrite !off_spec. exec. rewrite settle_spec. exec.
    eexists. split; [reflexivity|].
    match goal with |- context [promises ?W !! p] =>
      destruct (promises W !! p) as [[k []]|] end;
      cbn; rewrite !calls_app; unfold calls; cbn; now rewrite app_nil_r.
  - unfold call, handleAuthError, reject, clearTimeout. exec.
    rewrite !off_spec. exec. rewrite settle_spec. exec.
    eexists. split; [reflexivity|].
    match goal with |- context [promises ?W !! p] =>
      destruct (promises W !! p) as [[k []]|] end;
      cbn; rewrite !calls_app; unfold calls; cbn; now rewrite app_nil_r.
Qed.

Lemma forEach_any eventType data hs : forall w,
  exists w',
    forEach (fun handler =>
               try_catch (call handler data)
                         (fun error => log (Caught eventType error))) hs w
    = (Normal tt, w')
    /\ calls (trace w') = calls (trace w) ++ map (fun h => (h, data)) hs.
Proof.
  induction hs as [|h hs IH]; intros w.
  - exists w. split; [reflexivity|]. cbn. now rewrite app_nil_r.
  - destruct (deliver_any eventType data h w) as (w1 & E1 & C1).
    destruct (IH w1) as (w2 & E2 & C2).
    exists w2. split.
    + cbn [forEach]. erewrite bind_normal by exact E1. exact E2.
    + rewrite C2, C1. cbn. now rewrite <- app_assoc.
Qed.

Lemma emit_any eventType data w :
  exists w',
    emit eventType data w = (Normal tt, w')
    /\ calls (trace w')
       = calls (trace w)
         ++ map (fun h => (h, data)) (subscribers (eventHandlers w) eventType).
Proof.
  unfold emit, subscribers.
  erewrite bind_normal by reflexivity.
  erewrite bind_normal by reflexivity. cbn.
  destruct (eventHandlers w !! eventType) as [hs|]; cbn.
  - destruct (forEach_any eventType data hs
                (set_trace (trace w ++ [Emit eventType data]) w)) as (w' & E & C).
    exists w'. split; [exact E|].
    rewrite C. cbn [trace set_trace]. rewrite calls_app. unfold calls. cbn.
    now rewrite app_nil_r.
  - eexists. split; [reflexivity|]. cbn. rewrite calls_app. unfold calls. cbn.
    now rewrite !app_nil_r.
Qed.

(** ** Dispatch *)

(** C9. A frame of type 'pong' given to the message handler is dropped
    before dispatch: [handleMessage] returns at once and the world,
    trace included, is what it was, so no handler of any event type is
    called and nothing is emitted; as a transport event the frame
    leaves the client unchanged. *)
Theorem pong_never_dispatched (w : World) (s : nat) (message : WSResponse) :
  rsp_type message = "pong" ->
  handleMessage message w = (Normal tt, w)
  /\ run (onmessage (Some message)) w = w
  /\ (jobs w = [] -> is_Some (listening w s) ->
      step w (Transport_message s (Some message)) = Some w).
Proof.
  intros Hpong.
  assert (H : handleMessage message w = (Normal tt, w)).
  { unfold handleMessage. now rewrite Hpong. }
  assert (R : run (onmessage (Some message)) w = w).
  { unfold run, onmessage, try_catch. now rewrite H. }
  repeat split; [exact H|exact R|].
  intros Hj [c Hc]. unfold step, task. rewrite Hj, Hc. cbn. now rewrite R.
Qed.

(** C8. [emit] calls every handler registered for the event type, in
    registration order, and always returns normally: a handler's
    exception is caught and logged and the handlers after it still run.
    When the handlers are consumers' (the ones that can throw), the
    emission changes nothing but the trace, so a later emission of any
    other type reaches exactly the handlers registered for that type. *)
Theorem emit_isolates_handler_failures
    (w : World) (eventType : string) (data : JVal) (handlers : list WSEventHandler) :
  eventHandlers w !! eventType = Some handlers ->
  exists w',
    emit eventType data w = (Normal tt, w')
    /\ calls (trace w') = calls (trace w) ++ map (fun h => (h, data)) handlers
    /\ (forallb is_consumer handlers = true ->
        w' = set_trace
               (trace w ++ Emit eventType data
                  :: flat_map (delivery (consumer w) eventType data) handlers) w
        /\ forall other data',
             exists w'',
               emit other data' w' = (Normal tt, w'')
               /\ calls (trace w'')
                  = calls (trace w')
                    ++ map (fun h => (h, data')) (subscribers (eventHandlers w) other)).
Proof.
  intros Hh.
  assert (Hs : subscribers (eventHandlers w) eventType = handlers).
  { unfold subscribers. now rewrite Hh. }
  destruct (emit_any eventType data w) as (w' & E & C).
  exists w'. split; [exact E|]. split; [now rewrite C, Hs|].
  intros Hc.
  rewrite emit_consumers in E by now rewrite Hs.
  injection E as <-. unfold notify. rewrite Hs. split; [reflexivity|].
  intros other data'.
  match goal with
  | |- context [emit other data' ?W] => exact (emit_any other data' W)
  end.
Qed.

(** ** The registry under any sequence of [on] and [off] *)

Lemma NoDup_Set_add h hs : NoDup hs -> NoDup (Set_add h hs).
Proof.
  intros Hn. unfold Set_add. destruct (decide (h ∈ hs)); [assumption|].
  apply NoDup_app. repeat split; [assumption| |apply NoDup_singleton].
  intros x Hx Hx'. apply list_elem_of_singleton in Hx'. now subst.
Qed.

Lemma Set_add_not_nil h hs : Set_add h hs <> [].
Proof.
  unfold Set_add. destruct (decide (h ∈ hs)) as [Hin|].
  - intros ->. now apply not_elem_of_nil in Hin.
  - now destruct hs.
Qed.

Lemma Set_add_idem h hs : Set_add h (Set_add h hs) = Set_add h hs.
Proof.
  unfold Set_add at 1. rewrite decide_True; [reflexivity|].
  apply elem_of_Set_add. now left.
Qed.

Lemma Set_delete_absent h hs : h ∉ hs -> Set_delete h hs = hs.
Proof.
  intros Hn. unfold Set_delete. induction hs as [|x hs IH]; [reflexivity|].
  rewrite not_elem_of_cons in Hn. destruct Hn as [Hx Hn].
  rewrite filter_cons_True by congruence. now rewrite IH.
Qed.

Lemma registry_sets_on e h m : registry_sets m -> registry_sets (reg_on e h m).
Proof.
  intros Hm e' hs. unfold reg_on. rewrite lookup_insert.
  destruct (decide (e = e')) as [<-|].
  - intros [= <-]. split; [|apply Set_add_not_nil].
    apply NoDup_Set_add. unfold subscribers.
    destruct (m !! e) as [hs|] eqn:E; [apply (Hm _ _ E)|apply NoDup_nil_2].
  - apply Hm.
Qed.

Lemma registry_sets_off e h m : registry_sets m -> registry_sets (reg_off e h m).
Proof.
  intros Hm e' hs'. unfold reg_off.
  destruct (m !! e) as [hs|] eqn:E; [|apply Hm].
  destruct (Set_delete h hs) as [|x l] eqn:D.
  - rewrite lookup_delete. destruct (decide (e = e')); [discriminate|apply Hm].
  - rewrite lookup_insert. destruct (decide (e = e')); [|apply Hm].
    intros [= <-]. split; [|discriminate].
    rewrite <- D. apply NoDup_filter, (Hm _ _ E).
Qed.

Lemma after_calls_registry cs : forall w,
  registry_sets (eventHandlers w) ->
  registry_sets (eventHandlers (after_calls cs w)).
Proof.
  induction cs as [|c cs IH]; intros w Hw; [exact Hw|].
  cbn [after_calls foldl]. apply IH.
  destruct c as [e h|e h]; unfold run, registry_call.
  - rewrite on_spec. cbn. now apply registry_sets_on.
  - rewrite off_spec. cbn. now apply registry_sets_off.
Qed.

Lemma Set_delete_all h hs : (forall x, x ∈ hs -> x = h) -> Set_delete h hs = [].
Proof.
  unfold Set_delete. induction hs as [|x hs IH]; intros Hall; [reflexivity|].
  rewrite filter_cons_False.
  - apply IH. intros y Hy. apply Hall. now right.
  - intros Hne. apply Hne, Hall. now left.
Qed.

Lemma filter_absent (h : WSEventHandler) (hs : list WSEventHandler) :
  h ∉ hs -> filter (fun x => x = h) hs = [].
Proof.
  induction hs as [|x hs IH]; intros Hn; [reflexivity|].
  rewrite not_elem_of_cons in Hn. destruct Hn as [Hx Hn].
  rewrite filter_cons_False by congruence. now apply IH.
Qed.

Lemma called_once (h : WSEventHandler) (hs : list WSEventHandler) :
  NoDup hs -> h ∈ hs -> length (filter (fun x => x = h) hs) = 1.
Proof.
  induction 1 as [|x hs Hx Hn IH]; intros Hin.
  - now apply not_elem_of_nil in Hin.
  - apply elem_of_cons in Hin. destruct (decide (x = h)) as [->|Hne].
    + rewrite filter_cons_True by reflexivity. cbn. f_equal.
      now rewrite filter_absent.
    + rewrite filter_cons_False by assumption. apply IH.
      destruct Hin as [->|]; [contradiction|assumption].
Qed.

Lemma delivered_subscribers e d w :
  delivered e d w = subscribers (eventHandlers w) e.
Proof.
  unfold delivered, run.
  destruct (emit_any e d w) as (w' & E & C). rewrite E, C.
  rewrite drop_app_length. rewrite <- list_fmap_compose.
  apply list_fmap_id.
Qed.

Lemma run_on e h w :
  run (on e h) w = set_eventHandlers (reg_on e h (eventHandlers w)) w.
Proof. unfold run. now rewrite on_spec. Qed.

Lemma run_off e h w :
  run (off e h) w = set_eventHandlers (reg_off e h (eventHandlers w)) w.
Proof. unfold run. now rewrite off_spec. Qed.

Lemma reg_off_absent e h m :
  registry_sets m -> h ∉ subscribers m e -> reg_off e h m = m.
Proof.
  intros Hm Hn. unfold reg_off, subscribers in *.
  destruct (m !! e) as [hs|] eqn:E; [|reflexivity]. cbn in Hn.
  rewrite (Set_delete_absent _ _ Hn).
  destruct hs as [|x hs]; [now destruct (Hm _ _ E)|].
  now apply insert_id.
Qed.

(** C7. In the registry that any sequence of [on] and [off] calls
    builds from the empty one: registering a handler a second time
    changes nothing, and an emission of that type then calls it exactly
    once; removing a handler that is not registered changes nothing, so
    [off] is idempotent; and [off] deletes the entry of a type whose
    set it empties, hence never leaves an empty set behind. *)
Theorem registry_has_set_semantics
    (ok : bool) (f : nat -> JVal -> option Exn) (cs : list RegistryCall)
    (eventType : string) (h : WSEventHandler) (data : JVal) :
  let w := after_calls cs (new_client ok f) in
  let once := run (on eventType h) w in
  let twice := run (on eventType h) once in
  twice = once
  /\ length (filter (fun x => x = h) (delivered eventType data twice)) = 1
  /\ (h ∉ subscribers (eventHandlers w) eventType -> run (off eventType h) w = w)
  /\ run (off eventType h) (run (off eventType h) w) = run (off eventType h) w
  /\ ((forall x, x ∈ subscribers (eventHandlers w) eventType -> x = h) ->
      eventHandlers (run (off eventType h) w) !! eventType = None)
  /\ eventHandlers (run (off eventType h) w) !! eventType <> Some [].
Proof.
  intros w once twice.
  assert (Hw : registry_sets (eventHandlers w)).
  { apply after_calls_registry. intros e hs. cbn.
    rewrite lookup_empty. discriminate. }
  assert (Htwice : twice = once).
  { subst twice once. rewrite !run_on. cbn.
    assert (Hreg : reg_on eventType h (reg_on eventType h (eventHandlers w))
                   = reg_on eventType h (eventHandlers w)).
    { unfold reg_on at 1.
      rewrite subscribers_reg_on, decide_True by reflexivity.
      rewrite Set_add_idem. unfold reg_on. now rewrite insert_insert_eq. }
    rewrite Hreg. reflexivity. }
  assert (Hoff : forall w0, registry_sets (eventHandlers w0) ->
            h ∉ subscribers (eventHandlers w0) eventType ->
            run (off eventType h) w0 = w0).
  { intros w0 Hw0 Hn. rewrite run_off, (reg_off_absent _ _ _ Hw0 Hn).
    apply set_eventHandlers_id. }
  repeat split.
  - exact Htwice.
  - rewrite Htwice, delivered_subscribers. subst once. rewrite run_on. cbn.
    rewrite subscribers_reg_on, decide_True by reflexivity.
    apply called_once.
    + apply NoDup_Set_add. unfold subscribers.
      destruct (eventHandlers w !! eventType) as [hs|] eqn:E;
        [apply (Hw _ _ E)|apply NoDup_nil_2].
    + apply elem_of_Set_add. now left.
  - apply Hoff, Hw.
  - apply Hoff.
    + rewrite run_off. cbn. now apply registry_sets_off.
    + rewrite run_off. cbn. rewrite subscribers_reg_off, decide_True by reflexivity.
      rewrite elem_of_Set_delete. tauto.
  - intros Hall. rewrite run_off. cbn. unfold reg_off, subscribers in *.
    destruct (eventHandlers w !! eventType) as [hs|] eqn:E; [|exact E].
    cbn in Hall. rewrite (Set_delete_all _ _ Hall).
    apply lookup_delete_eq.
  - rewrite run_off. cbn. intros Hbad.
    assert (Hr : registry_sets (reg_off eventType h (eventHandlers w)))
      by now apply registry_sets_off.
    now destruct (Hr _ _ Hbad).
Qed.

(** ** Reflection of the invariants, for worlds given in full *)

Lemma check_registry_sound P m :
  check_registry P m = true ->
  forall e h, h ∈ subscribers m e -> P e h = true.
Proof.
  unfold check_registry, subscribers. intros Hc e h Hin.
  destruct (m !! e) as [hs|] eqn:E; [|now apply not_elem_of_nil in Hin].
  rewrite forallb_forall in Hc.
  specialize (Hc (e, hs)). cbn in Hc.
  rewrite forallb_forall in Hc.
  apply Hc; [|now apply list_elem_of_In].
  apply list_elem_of_In. now apply elem_of_map_to_list.
Qed.

Lemma check_fresh_ids_sound w : check_fresh_ids w = true -> fresh_ids w.
Proof.
  unfold check_fresh_ids, fresh_ids. intros Hc p [pr E].
  rewrite forallb_forall in Hc. specialize (Hc (p, pr)). cbn in Hc.
  apply Nat.ltb_lt, Hc, list_elem_of_In. now apply elem_of_map_to_list.
Qed.

Lemma check_tracked_sound w : check_tracked w = true -> reconnect_timer_tracked w.
Proof.
  unfold check_tracked, reconnect_timer_tracked. intros Hc t E.
  rewrite forallb_forall in Hc. specialize (Hc (t, ReconnectTimer)). cbn in Hc.
  eapply bool_decide_eq_true_1, Hc, list_elem_of_In. now apply elem_of_map_to_list.
Qed.

(** ** Closing *)

Lemma wf_disconnected m :
  wf_registry m -> forallb is_consumer (subscribers m "disconnected") = true.
Proof. intros H. now apply wf_consumers. Qed.

Lemma wf_reconnecting m :
  wf_registry m -> forallb is_consumer (subscribers m "reconnecting") = true.
Proof. intros H. now apply wf_consumers. Qed.

Lemma wf_exhausted m :
  wf_registry m ->
  forallb is_consumer (subscribers m "max_reconnect_attempts_reached") = true.
Proof. intros H. now apply wf_consumers. Qed.

Lemma wf_error m :
  wf_registry m -> forallb is_consumer (subscribers m "error") = true.
Proof. intros H. now apply wf_consumers. Qed.

(** A close event on a session that is not authenticated goes no
    further than the 'disconnected' notification. *)
Lemma close_without_session w s code reason w' :
  jobs w = [] -> authenticated w = false -> wf_registry (eventHandlers w) ->
  step w (Transport_close s code reason) = Some w' ->
  jobs w' = [] /\ authenticated w' = false
  /\ eventHandlers w' = eventHandlers w
  /\ reconnectTimeout w' = reconnectTimeout w
  /\ reconnectAttempts w' = reconnectAttempts w
  /\ (forall t, timers w' !! t = Some ReconnectTimer ->
                timers w !! t = Some ReconnectTimer)
  /\ scheduled_delays (trace w') = scheduled_delays (trace w)
  /\ emitted "reconnecting" (trace w') = emitted "reconnecting" (trace w)
  /\ connections (trace w') = connections (trace w).
Proof.
  intros Hj Ha Hwf. unfold step, task. rewrite Hj.
  destruct (listening w s) as [c|]; [|discriminate]. cbn [mbind option_bind].
  intros [= <-].
  unfold run, set_readyState, onclose, stopHeartbeat, clearInterval. exec.
  rewrite Ha, andb_false_r.
  destruct (heartbeatInterval w) as [t|] eqn:Hh; exec;
    rewrite emit_consumers by (now apply wf_disconnected); exec;
    (repeat split; try assumption; try reflexivity; [|observe; reflexivity..]).
  - intros t'. rewrite lookup_delete.
    destruct (decide (t = t')); [discriminate|auto].
  - auto.
Qed.

Lemma closes_without_session closes : forall w w',
  jobs w = [] -> authenticated w = false -> wf_registry (eventHandlers w) ->
  steps w (map (fun '(s, code, reason) => Transport_close s code reason) closes)
  = Some w' ->
  reconnectTimeout w' = reconnectTimeout w
  /\ reconnectAttempts w' = reconnectAttempts w
  /\ (forall t, timers w' !! t = Some ReconnectTimer ->
                timers w !! t = Some ReconnectTimer)
  /\ scheduled_delays (trace w') = scheduled_delays (trace w)
  /\ emitted "reconnecting" (trace w') = emitted "reconnecting" (trace w)
  /\ connections (trace w') = connections (trace w).
Proof.
  induction closes as [|[[s code] reason] closes IH]; intros w w' Hj Ha Hwf.
  - intros [= <-]. repeat split; auto.
  - cbn [map steps].
    destruct (step w (Transport_close s code reason)) as [w1|] eqn:E1; [|discriminate].
    cbn [mbind option_bind]. intros E2.
    destruct (close_without_session _ _ _ _ _ Hj Ha Hwf E1)
      as (Hj1 & Ha1 & He1 & Hr1 & Hn1 & Ht1 & Hd1 & Hm1 & Hc1).
    rewrite <- He1 in Hwf.
    destruct (IH _ _ Hj1 Ha1 Hwf E2) as (Hr2 & Hn2 & Ht2 & Hd2 & Hm2 & Hc2).
    repeat split; try congruence. auto.
Qed.

(** What [disconnect] does, field by field. *)
Lemma disconnect_effect w :
  let w1 := run disconnect w in
  heartbeatInterval w1 = None /\ reconnectTimeout w1 = None /\ ws w1 = None
  /\ connectionState w1 = State.disconnected /\ authenticated w1 = false
  /\ jobs w1 = jobs w /\ eventHandlers w1 = eventHandlers w
  /\ reconnectAttempts w1 = reconnectAttempts w
  /\ timers w1
     = from_option delete id (reconnectTimeout w)
         (from_option delete id (heartbeatInterval w) (timers w))
  /\ trace w1
     = trace w
       ++ from_option (fun h => [ClearInterval h]) [] (heartbeatInterval w)
       ++ from_option (fun r => [ClearTimeout r]) [] (reconnectTimeout w)
       ++ from_option (fun s => [WsClose s 1000 "User initiated disconnect"]) [] (ws w).
Proof.
  unfold run, disconnect, stopHeartbeat, clearReconnectTimeout, clearInterval,
    clearTimeout, ws_close. exec.
  destruct (heartbeatInterval w) as [h|] eqn:Hh;
    destruct (reconnectTimeout w) as [r|] eqn:Hr;
    destruct (ws w) as [s|] eqn:Hs; exec_with_hyps;
    rewrite <- ?app_assoc, ?app_nil_r; repeat split; reflexivity.
Qed.

(** [disconnect] and the close events after it, for any world that
    satisfies the invariants. *)
Lemma closes_after_disconnect
    (w : World) (closes : list (nat * Z * string)) (w2 : World) :
  jobs w = [] ->
  wf_registry (eventHandlers w) ->
  reconnect_timer_tracked w ->
  steps (run disconnect w)
        (map (fun '(s, code, reason) => Transport_close s code reason) closes)
  = Some w2 ->
  let w1 := run disconnect w in
  (heartbeatInterval w1 = None
   /\ (forall t, heartbeatInterval w = Some t -> timers w1 !! t = None)
   /\ reconnectTimeout w1 = None
   /\ (forall t, timers w1 !! t <> Some ReconnectTimer)
   /\ (forall s, ws w = Some s ->
         ws w1 = None
         /\ last (trace w1) = Some (WsClose s 1000 "User initiated disconnect"))
   /\ connectionState w1 = State.disconnected
   /\ authenticated w1 = false)
  /\ (reconnectTimeout w2 = None
      /\ (forall t, timers w2 !! t <> Some ReconnectTimer)
      /\ scheduled_delays (trace w2) = scheduled_delays (trace w)
      /\ emitted "reconnecting" (trace w2) = emitted "reconnecting" (trace w)
      /\ connections (trace w2) = connections (trace w)
      /\ reconnectAttempts w2 = reconnectAttempts w).
Proof.
  intros Hj Hwf Htr Hsteps w1.
  destruct (disconnect_effect w)
    as (Hh1 & Hr1 & Hs1 & Hc1 & Ha1 & Hj1 & He1 & Hn1 & Ht1 & Htrace1).
  fold w1 in Hh1, Hr1, Hs1, Hc1, Ha1, Hj1, He1, Hn1, Ht1, Htrace1.
  assert (Hno : forall t, timers w1 !! t <> Some ReconnectTimer).
  { intros t Ht. rewrite Ht1 in Ht.
    assert (Hin : timers w !! t = Some ReconnectTimer).
    { destruct (reconnectTimeout w), (heartbeatInterval w); cbn in Ht;
        repeat (apply lookup_delete_Some in Ht; destruct Ht as [_ Ht]);
        exact Ht. }
    rewrite (Htr _ Hin) in Ht. cbn in Ht. now rewrite lookup_delete_eq in Ht. }
  split.
  - split; [exact Hh1|]. split.
    { intros t Ht. rewrite Ht1, Ht. cbn.
      destruct (reconnectTimeout w) as [r|]; cbn; [|apply lookup_delete_eq].
      rewrite lookup_delete. destruct (decide (r = t)); [reflexivity|].
      apply lookup_delete_eq. }
    split; [exact Hr1|]. split; [exact Hno|]. split; [|now split].
    intros s0 Hs. split; [exact Hs1|].
    rewrite Htrace1, Hs. cbn. now rewrite !app_assoc, last_snoc.
  - assert (Hwf1 : wf_registry (eventHandlers w1)) by now rewrite He1.
    rewrite Hj in Hj1.
    destruct (closes_without_session _ _ _ Hj1 Ha1 Hwf1 Hsteps)
      as (Hr2 & Hn2 & Ht2 & Hd2 & Hm2 & Hc2).
    repeat split; try congruence.
    + intros t Ht. apply Ht2 in Ht. now apply Hno in Ht.
    + rewrite Hd2, Htrace1.
      destruct (heartbeatInterval w), (reconnectTimeout w), (ws w);
        observe; reflexivity.
    + rewrite Hm2, Htrace1.
      destruct (heartbeatInterval w), (reconnectTimeout w), (ws w);
        observe; reflexivity.
    + rewrite Hc2, Htrace1.
      destruct (heartbeatInterval w), (reconnectTimeout w), (ws w);
        observe; reflexivity.
Qed.

(** ** The scheduler's decision point *)

Lemma attemptReconnect_spec w :
  wf_registry (eventHandlers w) ->
  attemptReconnect w
  = (Normal tt,
     if (maxReconnectAttempts <=? reconnectAttempts w)%Z then
       set_trace
         (trace w
          ++ notify (consumer w) (eventHandlers w) "max_reconnect_attempts_reached"
               (JObj [("attempts", JNum (reconnectAttempts w))])) w
     else
       set_reconnectTimeout (Some (fresh w))
         (set_trace
            (trace w
             ++ notify (consumer w) (eventHandlers w) "reconnecting"
                  (JObj [("attempt", JNum (reconnectAttempts w + 1));
                         ("maxAttempts", JNum maxReconnectAttempts);
                         ("delay", JNum (reconnectInterval w))])
             ++ from_option (fun t => [ClearTimeout t]) [] (reconnectTimeout w)
             ++ [SetTimeout (fresh w) ReconnectTimer (reconnectInterval w)])
            (set_timers
               (<[fresh w := ReconnectTimer]>
                  (from_option delete id (reconnectTimeout w) (timers w)))
               (set_fresh (S (fresh w))
                  (set_reconnectAttempts (reconnectAttempts w + 1) w))))).
Proof.
  intros Hwf. unfold attemptReconnect, clearReconnectTimeout, clearTimeout,
    setTimeout, new_id. exec.
  destruct (maxReconnectAttempts <=? reconnectAttempts w)%Z.
  - now rewrite emit_consumers by (now apply wf_exhausted).
  - exec. rewrite emit_consumers by (now apply wf_reconnecting). exec.
    destruct (reconnectTimeout w) as [t|]; exec;
      rewrite <- ?app_assoc; reflexivity.
Qed.

#[local] Arguments attemptReconnect : simpl never.

(** What [onclose] does on an authenticated session that closes with a
    code other than 1000, for any world with a well-formed registry. *)
Lemma close_hands_off
    (w : World) (s : nat) (code : Z) (reason : string) (w' : World) :
  jobs w = [] ->
  wf_registry (eventHandlers w) ->
  authenticated w = true ->
  code <> 1000%Z ->
  step w (Transport_close s code reason) = Some w' ->
  let payload := JObj [("code", JNum code); ("reason", JStr reason)] in
  getConnectionState w' = "disconnected"
  /\ authenticated w' = false /\ ws w' = None
  /\ heartbeatInterval w' = None
  /\ (forall t, heartbeatInterval w = Some t -> ClearInterval t ∈ trace w')
  /\ emitted "disconnected" (trace w') = emitted "disconnected" (trace w) ++ [payload]
  /\ (forall h, h ∈ subscribers (eventHandlers w) "disconnected" ->
                (h, payload) ∈ calls (trace w'))
  /\ ((reconnectAttempts w < maxReconnectAttempts)%Z ->
      reconnectAttempts w' = (reconnectAttempts w + 1)%Z
      /\ (exists t, reconnectTimeout w' = Some t
                    /\ timers w' !! t = Some ReconnectTimer)
      /\ scheduled_delays (trace w')
         = scheduled_delays (trace w) ++ [reconnectInterval w]
      /\ emitted "reconnecting" (trace w')
         = emitted "reconnecting" (trace w)
           ++ [JObj [("attempt", JNum (reconnectAttempts w + 1));
                     ("maxAttempts", JNum maxReconnectAttempts);
                     ("delay", JNum (reconnectInterval w))]])
  /\ ((maxReconnectAttempts <= reconnectAttempts w)%Z ->
      emitted "max_reconnect_attempts_reached" (trace w')
      = emitted "max_reconnect_attempts_reached" (trace w)
        ++ [JObj [("attempts", JNum (reconnectAttempts w))]]
      /\ scheduled_delays (trace w') = scheduled_delays (trace w)).
Proof.
  intros Hj Hwf Ha Hcode. unfold step, task. rewrite Hj.
  destruct (listening w s) as [c|]; [|discriminate]. cbn [mbind option_bind].
  intros [= <-].
  set (payload := JObj [("code", JNum code); ("reason", JStr reason)]).
  assert (Hc : negb (code =? 1000)%Z = true).
  { apply negb_true_iff, Z.eqb_neq, Hcode. }
  unfold run, set_readyState, onclose, stopHeartbeat, clearInterval. exec.
  rewrite Ha, Hc. cbn [andb].
  assert (Hin : forall (h : WSEventHandler) l1 l2,
             h ∈ subscribers (eventHandlers w) "disconnected" ->
             (h, payload)
             ∈ calls ((l1 ++ notify (consumer w) (eventHandlers w)
                               "disconnected" payload) ++ l2)).
  { intros h l1 l2 Hh. rewrite !calls_app. apply elem_of_app. left.
    apply elem_of_app. right. unfold notify.
    change (Emit "disconnected" payload :: ?l) with ([Emit "disconnected" payload] ++ l).
    rewrite calls_app, calls_deliveries. apply elem_of_app. right.
    apply list_elem_of_fmap. now exists h. }
  destruct (heartbeatInterval w) as [t|] eqn:Hh; exec;
    rewrite emit_consumers by (now apply wf_disconnected); exec;
    rewrite attemptReconnect_spec by assumption; exec;
    destruct (maxReconnectAttempts <=? reconnectAttempts w)%Z eqn:Hmax;
    [apply Z.leb_le in Hmax|apply Z.leb_gt in Hmax
    |apply Z.leb_le in Hmax|apply Z.leb_gt in Hmax]; cbn.
  all: split; [reflexivity|]. all: split; [reflexivity|].
  all: split; [reflexivity|]. all: split; [first [reflexivity|assumption]|].
  all: split; [intros t' [= <-] || (intros t' [=])|].
  all: try (rewrite !elem_of_app; left; left; right; apply list_elem_of_singleton; reflexivity).
  all: try (rewrite !elem_of_app; left; right; apply list_elem_of_singleton; reflexivity).
  all: split; [observe; reflexivity|].
  all: split; [intros h Hh'; cbn [trace set_trace]; apply Hin; assumption|].
  all: split; [intros Hlt|intros Hge]; try lia.
  all: try (split; observe; reflexivity).
  all: split; [reflexivity|];
       (split; [eexists; split; [reflexivity|apply lookup_insert_eq]|]);
       split; observe; reflexivity.
Qed.

(** ** The invariants hold in every reachable world *)

Create HintDb pres discriminated.

Lemma preserves_ret {A} (a : A) : preserves (mret a).
Proof. intros w H. exact H. Qed.

Lemma preserves_skip : preserves skip.
Proof. intros w H. exact H. Qed.

Lemma preserves_gets {A} (f : World -> A) : preserves (gets f).
Proof. intros w H. exact H. Qed.

Lemma preserves_throw {A} e : preserves (@throw A e).
Proof. intros w H. exact H. Qed.

Lemma preserves_bind {A B} (m : M A) (f : A -> M B) :
  preserves m -> (forall a, preserves (f a)) -> preserves (m ≫= f).
Proof.
  intros Hm Hf w H. unfold mbind, M_bind. specialize (Hm w H).
  destruct (m w) as [[a|e] w1]; cbn in *; [now apply Hf|exact Hm].
Qed.

Lemma preserves_try_catch {A} (m : M A) (h : Exn -> M A) :
  preserves m -> (forall e, preserves (h e)) -> preserves (try_catch m h).
Proof.
  intros Hm Hh w H. unfold try_catch. specialize (Hm w H).
  destruct (m w) as [[a|e] w1]; cbn in *; [exact Hm|now apply Hh].
Qed.

Lemma preserves_forEach {A} (f : A -> M unit) l :
  (forall x, preserves (f x)) -> preserves (forEach f l).
Proof.
  intros Hf. induction l as [|x l IH]; [apply preserves_skip|].
  cbn [forEach]. apply preserves_bind; [apply Hf|intros _; exact IH].
Qed.

(** Assignments to fields the invariants do not read. *)
Lemma preserves_frame (f : World -> World) :
  (forall w, eventHandlers (f w) = eventHandlers w
             /\ timers (f w) = timers w
             /\ reconnectTimeout (f w) = reconnectTimeout w
             /\ promises (f w) = promises w
             /\ fresh (f w) = fresh w) ->
  preserves (modify f).
Proof.
  intros Hf w (Hwf & Hfr & Htr). destruct (Hf w) as (E1 & E2 & E3 & E4 & E5).
  unfold modify. cbn. unfold invariant, fresh_ids, reconnect_timer_tracked.
  rewrite E1, E2, E3, E4, E5. auto.
Qed.

Ltac frame := apply preserves_frame; intros ?; repeat split.

Lemma preserves_log a : preserves (log a).
Proof. unfold log. frame. Qed.

Lemma preserves_new_id : preserves new_id.
Proof.
  intros w (Hwf & Hfr & Htr). unfold new_id. cbn.
  split; [exact Hwf|]. split; [|exact Htr].
  intros p Hp. specialize (Hfr p Hp). cbn. lia.
Qed.

Lemma preserves_delete_timer t :
  preserves (modify (fun w => set_timers (delete t (timers w)) w)).
Proof.
  intros w (Hwf & Hfr & Htr). unfold modify. cbn.
  split; [exact Hwf|]. split; [exact Hfr|].
  intros x Hx. cbn in Hx |- *. apply lookup_delete_Some in Hx as [_ Hx].
  now apply Htr.
Qed.

Lemma preserves_insert_timer t k :
  k <> ReconnectTimer ->
  preserves (modify (fun w => set_timers (<[t := k]> (timers w)) w)).
Proof.
  intros Hk w (Hwf & Hfr & Htr). unfold modify. cbn.
  split; [exact Hwf|]. split; [exact Hfr|].
  intros x Hx. cbn in Hx |- *. rewrite lookup_insert in Hx.
  destruct (decide (t = x)); [congruence|now apply Htr].
Qed.

Lemma preserves_setTimeout k ms : k <> ReconnectTimer -> preserves (setTimeout k ms).
Proof.
  intros Hk. unfold setTimeout.
  apply preserves_bind; [apply preserves_new_id|intros t].
  apply preserves_bind; [now apply preserves_insert_timer|intros _].
  apply preserves_bind; [apply preserves_log|intros _]. apply preserves_ret.
Qed.

Lemma preserves_setInterval k ms : k <> ReconnectTimer -> preserves (setInterval k ms).
Proof.
  intros Hk. unfold setInterval.
  apply preserves_bind; [apply preserves_new_id|intros t].
  apply preserves_bind; [now apply preserves_insert_timer|intros _].
  apply preserves_bind; [apply preserves_log|intros _]. apply preserves_ret.
Qed.

Lemma preserves_clearTimeout t : preserves (clearTimeout t).
Proof.
  unfold clearTimeout.
  apply preserves_bind; [apply preserves_delete_timer|intros _].
  apply preserves_log.
Qed.

Lemma preserves_clearInterval t : preserves (clearInterval t).
Proof.
  unfold clearInterval.
  apply preserves_bind; [apply preserves_delete_timer|intros _].
  apply preserves_log.
Qed.

Lemma preserves_expire t : preserves (expire t).
Proof. apply preserves_delete_timer. Qed.

Lemma preserves_on e h : registered_under e h = true -> preserves (on e h).
Proof.
  intros Hh w (Hwf & Hfr & Htr). rewrite on_spec. cbn.
  split; [now apply wf_reg_on|]. split; assumption.
Qed.

Lemma preserves_off e h : preserves (off e h).
Proof.
  intros w (Hwf & Hfr & Htr). rewrite off_spec. cbn.
  split; [|split; assumption].
  eapply wf_sub_registry; [apply sub_registry_off|exact Hwf].
Qed.

Lemma preserves_settle p r : preserves (settle p r).
Proof.
  intros w (Hwf & Hfr & Htr). rewrite settle_spec. cbn.
  destruct (promises w !! p) as [[k []]|] eqn:E; cbn;
    (split; [exact Hwf|]; split; [|exact Htr]); try exact Hfr.
  intros q Hq. cbn in Hq |- *. rewrite lookup_insert in Hq.
  destruct (decide (p = q)) as [<-|]; apply Hfr; [rewrite E; eauto|exact Hq].
Qed.

Lemma preserves_new_Promise k : preserves (new_Promise k).
Proof.
  intros w (Hwf & Hfr & Htr). unfold new_Promise, new_id. exec.
  split; [exact Hwf|]. split; [|exact Htr].
  intros q Hq. cbn in Hq |- *. rewrite lookup_insert in Hq.
  destruct (decide (fresh w = q)) as [<-|]; [lia|].
  specialize (Hfr q Hq). lia.
Qed.

Lemma preserves_clearReconnectTimeout : preserves clearReconnectTimeout.
Proof.
  intros w (Hwf & Hfr & Htr). unfold clearReconnectTimeout, clearTimeout. exec.
  destruct (reconnectTimeout w) as [t|] eqn:Hr; cbn;
    (split; [exact Hwf|]; split; [exact Hfr|]); [|exact Htr].
  intros x Hx. cbn in Hx |- *. apply lookup_delete_Some in Hx as [Hne Hx].
  apply Htr in Hx. congruence.
Qed.

Lemma preserves_emit_consumers e d w :
  invariant w ->
  forallb is_consumer (subscribers (eventHandlers w) e) = true ->
  invariant (emit e d w).2.
Proof.
  intros H Hc. rewrite emit_consumers by exact Hc. exact H.
Qed.

#[local] Hint Resolve preserves_ret preserves_skip preserves_gets
  preserves_throw preserves_log preserves_new_id preserves_clearTimeout
  preserves_clearInterval preserves_expire preserves_off preserves_settle
  preserves_new_Promise preserves_clearReconnectTimeout : pres.

(** Splits a method into its statements. *)
Ltac pres :=
  repeat first
    [ progress auto with pres
    | match goal with
      | |- preserves (setTimeout _ _) => apply preserves_setTimeout; discriminate
      | |- preserves (setInterval _ _) => apply preserves_setInterval; discriminate
      | |- preserves (on _ _) => apply preserves_on; reflexivity
      | |- preserves (modify _) => frame; reflexivity
      | |- preserves (try_catch _ _) => apply preserves_try_catch; [|intros ?]
      | |- preserves (forEach _ _) => apply preserves_forEach; intros ?
      | |- preserves (_ ≫= _) => apply preserves_bind; [|intros ?]
      end
    | match goal with
      | |- preserves (match ?x with _ => _ end) => destruct x
      | |- preserves (let '_ := ?x in _) => destruct x
      end ].

Lemma preserves_call h d : preserves (call h d).
Proof.
  unfold call. destruct h as [n|p t|p t].
  - apply preserves_bind; [apply preserves_log|intros _].
    intros w H. unfold mbind, M_bind, gets. cbn.
    destruct (consumer w n d); exact H.
  - unfold handleAuthResponse, resolve. pres.
  - unfold handleAuthError, reject. pres.
Qed.

#[local] Hint Resolve preserves_call : pres.

Lemma preserves_emit e d : preserves (emit e d).
Proof. unfold emit. pres. Qed.

#[local] Hint Resolve preserves_emit : pres.

Lemma preserves_attemptReconnect : preserves attemptReconnect.
Proof.
  intros w (Hwf & Hfr & Htr). rewrite attemptReconnect_spec by exact Hwf. cbn.
  destruct (maxReconnectAttempts <=? reconnectAttempts w)%Z; cbn;
    (split; [exact Hwf|]; split); try assumption.
  - intros p Hp. specialize (Hfr p Hp). cbn. lia.
  - intros x Hx. cbn in Hx |- *. rewrite lookup_insert in Hx.
    destruct (decide (fresh w = x)) as [<-|]; [reflexivity|].
    destruct (reconnectTimeout w) as [r|] eqn:Hr; cbn in Hx.
    + apply lookup_delete_Some in Hx as [Hne Hx]. apply Htr in Hx. congruence.
    + apply Htr in Hx. congruence.
Qed.

#[local] Hint Resolve preserves_attemptReconnect : pres.

Lemma preserves_send m : preserves (send m).
Proof. unfold send, ready. pres. Qed.

Lemma preserves_stopHeartbeat : preserves stopHeartbeat.
Proof. unfold stopHeartbeat. pres. Qed.

#[local] Hint Resolve preserves_send preserves_stopHeartbeat : pres.

Lemma preserves_startHeartbeat : preserves startHeartbeat.
Proof. unfold startHeartbeat. pres. Qed.

Lemma preserves_authenticate c : preserves (authenticate c).
Proof. unfold authenticate, reject. pres. Qed.

Lemma preserves_new_WebSocket : preserves new_WebSocket.
Proof. unfold new_WebSocket. pres. Qed.

Lemma preserves_setupEventListeners c : preserves (setupEventListeners c).
Proof. unfold setupEventListeners. pres. Qed.

#[local] Hint Resolve preserves_startHeartbeat preserves_authenticate
  preserves_new_WebSocket preserves_setupEventListeners : pres.

Lemma preserves_connect caller tok : preserves (connect caller tok).
Proof. unfold connect, resolve, reject. pres. Qed.

Lemma preserves_disconnect : preserves disconnect.
Proof. unfold disconnect, ws_close. pres. Qed.

Lemma preserves_reconnect_failed : preserves reconnect_failed.
Proof. unfold reconnect_failed. pres. Qed.

#[local] Hint Resolve preserves_connect preserves_disconnect
  preserves_reconnect_failed : pres.

Lemma preserves_run_job j : preserves (run_job j).
Proof.
  unfold run_job, reconnect_succeeded, resolve, reject.
  destruct j as [p [[]|c]|p [[]|c] e]; pres.
Qed.

Lemma preserves_task w e m : task w e = Some m -> preserves m.
Proof.
  unfold task. destruct e as [tok| |ev n|ev n|s|s data|s|s code reason|t|];
    try (destruct (listening w s) as [c|]; [|discriminate]);
    try (destruct (timers w !! t) as [[c|p| |]|]; [..|discriminate]);
    cbn; intros [= <-];
    unfold set_readyState, onopen, onopen_timeout, onmessage, handleMessage,
      onerror, onclose, authTimeout_fired, reconnectTimeout_fired,
      heartbeat_tick, reject, ready; pres.
Qed.

Lemma invariant_run m w : preserves m -> invariant w -> invariant (run m w).
Proof.
  intros Hm H. unfold run. specialize (Hm w H).
  destruct (m w) as [[a|e] w1]; cbn in *; exact Hm.
Qed.

Lemma invariant_step w e w' : invariant w -> step w e = Some w' -> invariant w'.
Proof.
  intros H. unfold step.
  destruct e; destruct (jobs w) as [|j js] eqn:Hj; try discriminate;
    try (destruct (task w _) as [m|] eqn:Hm; [|discriminate]; cbn;
         intros [= <-]; apply invariant_run; [exact (preserves_task _ _ _ Hm)|exact H]).
  intros [= <-]. apply invariant_run; [apply preserves_run_job|].
  destruct H as (Hwf & Hfr & Htr). repeat split; assumption.
Qed.

Lemma invariant_steps es : forall w w',
  invariant w -> steps w es = Some w' -> invariant w'.
Proof.
  induction es as [|e es IH]; intros w w' H; [now intros [= <-]|].
  rewrite steps_cons. destruct (step w e) as [w1|] eqn:E; [|discriminate].
  cbn. apply IH. exact (invariant_step _ _ _ H E).
Qed.

Lemma invariant_new_client ok f : invariant (new_client ok f).
Proof.
  split; [|split].
  - intros e h Hin. unfold subscribers in Hin. cbn in Hin.
    rewrite lookup_empty in Hin. now apply not_elem_of_nil in Hin.
  - intros p [x Hp]. cbn in Hp. now rewrite lookup_empty in Hp.
  - intros t Ht. cbn in Ht. now rewrite lookup_empty in Ht.
Qed.

(** In every world the client reaches, the handshake's listeners sit
    under their own event types, promise names are below the counter,
    and a pending reconnect timer is the one the client holds. *)
Lemma reachable_invariant w : reachable w -> invariant w.
Proof.
  intros (ok & f & es & H).
  exact (invariant_steps es _ _ (invariant_new_client ok f) H).
Qed.

Lemma reachable_step w e w' : reachable w -> step w e = Some w' -> reachable w'.
Proof.
  intros (ok & f & es & H) E. exists ok, f, (es ++ [e]).
  revert H. generalize (new_client ok f). induction es as [|x es IH]; intros w0.
  - rewrite steps_nil. intros [= ->]. cbn [app]. rewrite steps_cons, E.
    reflexivity.
  - cbn [app]. rewrite !steps_cons.
    destruct (step w0 x) as [w1|]; [|discriminate]. cbn. apply IH.
Qed.

Lemma step_needs_empty_queue w e w' :
  step w e = Some w' -> e <> Microtask -> jobs w = [].
Proof.
  unfold step. destruct e, (jobs w); try discriminate; try reflexivity.
  intros _ H. now elim H.
Qed.

(** In a reachable world the scheduler's precondition is about the
    session only. *)
Lemma reachable_dropped w :
  reachable w ->
  jobs w = [] ->
  token_present (token w) = true ->
  authenticated w = false ->
  heartbeatInterval w = None ->
  State.eqb (connectionState w) State.connected
  || State.eqb (connectionState w) State.authenticated = false ->
  handshake_idle w ->
  dropped w.
Proof.
  intros Hr Hj Ht Ha Hh Hs Hi.
  destruct (reachable_invariant _ Hr) as (Hwf & Hfr & Htr).
  now constructor.
Qed.

(** ** Disconnecting and losing the transport, in reachable worlds *)

(** What [disconnect] does stop.  In every world the client reaches,
    [disconnect] stops the heartbeat, clears the pending reconnect timer
    and closes the transport with code 1000 before it returns; as long
    as only close events follow it (any transport, any close code), no
    reconnect timer is set or left pending, no 'reconnecting'
    notification is emitted and no transport is created.  A timer of a
    handshake that was pending at the [disconnect] is another matter:
    see [disconnect_during_attempt_reconnects]. *)
Theorem disconnect_suppresses_reconnection
    (w w1 : World) (closes : list (nat * Z * string)) (w2 : World) :
  reachable w ->
  step w Call_disconnect = Some w1 ->
  steps w1 (map (fun '(s, code, reason) => Transport_close s code reason) closes)
  = Some w2 ->
  (heartbeatInterval w1 = None
   /\ (forall t, heartbeatInterval w = Some t -> timers w1 !! t = None)
   /\ reconnectTimeout w1 = None
   /\ (forall t, timers w1 !! t <> Some ReconnectTimer)
   /\ (forall s, ws w = Some s ->
         ws w1 = None
         /\ last (trace w1) = Some (WsClose s 1000 "User initiated disconnect"))
   /\ connectionState w1 = State.disconnected
   /\ authenticated w1 = false)
  /\ (reconnectTimeout w2 = None
      /\ (forall t, timers w2 !! t <> Some ReconnectTimer)
      /\ scheduled_delays (trace w2) = scheduled_delays (trace w)
      /\ emitted "reconnecting" (trace w2) = emitted "reconnecting" (trace w)
      /\ connections (trace w2) = connections (trace w)
      /\ reconnectAttempts w2 = reconnectAttempts w).
Proof.
  intros Hr H1 H2.
  assert (Hj : jobs w = []) by (now apply (step_needs_empty_queue _ _ _ H1)).
  destruct (reachable_invariant _ Hr) as (Hwf & _ & Htr).
  assert (E : w1 = run disconnect w).
  { unfold step in H1. rewrite Hj in H1. cbn in H1. congruence. }
  subst w1. exact (closes_after_disconnect w closes w2 Hj Hwf Htr H2).
Qed.

(** C5 (as the code has it). In every world the client reaches, a close
    event with a code other than 1000
    on an authenticated session leaves the connection in the state
    'disconnected' (the client has four states and none is called
    'reconnecting'), stops the heartbeat, emits 'disconnected' with the
    code and reason to the subscribers, and calls the scheduler: below
    ten attempts that counts one attempt, emits 'reconnecting' and sets
    the reconnect timer with the current interval; otherwise it emits
    'max_reconnect_attempts_reached'. *)
Theorem unexpected_close_hands_off
    (w : World) (s : nat) (code : Z) (reason : string) (w' : World) :
  reachable w ->
  authenticated w = true ->
  code <> 1000%Z ->
  step w (Transport_close s code reason) = Some w' ->
  let payload := JObj [("code", JNum code); ("reason", JStr reason)] in
  getConnectionState w' = "disconnected"
  /\ authenticated w' = false /\ ws w' = None
  /\ heartbeatInterval w' = None
  /\ (forall t, heartbeatInterval w = Some t -> ClearInterval t ∈ trace w')
  /\ emitted "disconnected" (trace w') = emitted "disconnected" (trace w) ++ [payload]
  /\ (forall h, h ∈ subscribers (eventHandlers w) "disconnected" ->
                (h, payload) ∈ calls (trace w'))
  /\ ((reconnectAttempts w < maxReconnectAttempts)%Z ->
      reconnectAttempts w' = (reconnectAttempts w + 1)%Z
      /\ (exists t, reconnectTimeout w' = Some t
                    /\ timers w' !! t = Some ReconnectTimer)
      /\ scheduled_delays (trace w')
         = scheduled_delays (trace w) ++ [reconnectInterval w]
      /\ emitted "reconnecting" (trace w')
         = emitted "reconnecting" (trace w)
           ++ [JObj [("attempt", JNum (reconnectAttempts w + 1));
                     ("maxAttempts", JNum maxReconnectAttempts);
                     ("delay", JNum (reconnectInterval w))]])
  /\ ((maxReconnectAttempts <= reconnectAttempts w)%Z ->
      emitted "max_reconnect_attempts_reached" (trace w')
      = emitted "max_reconnect_attempts_reached" (trace w)
        ++ [JObj [("attempts", JNum (reconnectAttempts w))]]
      /\ scheduled_delays (trace w') = scheduled_delays (trace w)).
Proof.
  intros Hr Ha Hc H.
  assert (Hj : jobs w = []) by (now apply (step_needs_empty_queue _ _ _ H)).
  destruct (reachable_invariant _ Hr) as (Hwf & _ & _).
  exact (close_hands_off w s code reason w' Hj Hwf Ha Hc H).
Qed.

(** ** One failed attempt *)

#[local] Opaque notify.

Ltac solve_wf :=
  solve [ assumption
        | cbn; assumption
        | apply wf_error; cbn; assumption
        | apply wf_disconnected; cbn; assumption
        | apply wf_reconnecting; cbn; assumption
        | apply wf_exhausted; cbn; assumption ].

Ltac unfold_client :=
  unfold expire, set_readyState, onopen, onopen_timeout, onmessage,
    handleMessage, onerror, onclose, reconnectTimeout_fired, authTimeout_fired,
    heartbeat_tick, connect, disconnect, new_Promise, new_WebSocket, new_id,
    setupEventListeners, stopHeartbeat, startHeartbeat, clearInterval,
    setInterval, clearTimeout, setTimeout, clearReconnectTimeout, authenticate,
    send, ready, resolve, reject, run_job, reconnect_failed,
    reconnect_succeeded, ws_close, handleAuthResponse, handleAuthError.

Ltac crunch :=
  repeat progress
    (unfold_client; exec_with_hyps;
     rewrite ?settle_spec, ?on_spec, ?off_spec;
     rewrite ?emit_consumers by solve_wf;
     rewrite ?attemptReconnect_spec by solve_wf;
     rewrite ?lookup_insert_eq, ?lookup_alter_eq, ?lookup_delete_eq,
             ?andb_false_r).

Lemma world_eta w :
  w = {| ws := ws w; token := token w; authenticated := authenticated w;
         reconnectAttempts := reconnectAttempts w;
         reconnectInterval := reconnectInterval w;
         heartbeatInterval := heartbeatInterval w;
         reconnectTimeout := reconnectTimeout w;
         eventHandlers := eventHandlers w;
         connectionState := connectionState w; url_ok := url_ok w;
         sockets := sockets w; timers := timers w; promises := promises w;
         fresh := fresh w; jobs := jobs w; trace := trace w;
         consumer := consumer w |}.
Proof. now destruct w. Qed.

#[local] Arguments step : simpl never.
#[local] Arguments steps : simpl never.

(** Computes the first [step] in hypothesis [H]. *)
Ltac step_in H :=
  rewrite ?steps_cons, ?steps_nil in H; cbn in H;
  match type of H with
  | context [step ?W ?E] =>
      let S := fresh "S" in
      eassert (S : step W E = Some _);
      [ unfold step, task, listening, run; crunch; reflexivity
      | match type of S with
        | _ = Some ?W' => rewrite (world_eta W') in S; cbn in S
        end;
        rewrite S in H; clear S; cbn in H ]
  end.

Ltac finish_in H :=
  rewrite ?steps_cons, ?steps_nil in H; cbn in H;
  injection H as <-.

Lemma idle_after_settling ps c k h :
  idle_handler ps h = true ->
  idle_handler (<[c := {| kind := k; settled := true |}]> ps) h = true.
Proof.
  destruct h as [n|p t|p t]; cbn; [reflexivity|..];
    unfold settled_in; rewrite lookup_insert;
    destruct (decide (c = p)); auto.
Qed.

Lemma fresh_after_insert (ps : gmap nat Promise) c pr n m :
  (forall p, is_Some (ps !! p) -> p < n) -> c < m -> n <= m ->
  forall p, is_Some (<[c := pr]> ps !! p) -> p < m.
Proof.
  intros Hps Hc Hle p. rewrite lookup_insert.
  destruct (decide (c = p)) as [<-|]; [intros _; exact Hc|].
  intros Hp. specialize (Hps _ Hp). lia.
Qed.

Ltac keep_idle Hidle :=
  let e := fresh "e" in let h := fresh "h" in let Hin := fresh "Hin" in
  intros e h Hin; cbn in Hin |- *; rewrite ?insert_insert_eq;
  repeat apply idle_after_settling; exact (Hidle _ _ Hin).

Ltac keep_fresh Hfr :=
  let p := fresh "p" in let Hp := fresh "Hp" in
  intros p Hp; cbn in Hp |- *;
  repeat (rewrite lookup_insert in Hp;
          destruct (decide _) as [<-|]; [lia|]);
  apply Hfr in Hp; lia.

Ltac keep_tracked Htr :=
  let t := fresh "t" in let Hx := fresh "Hx" in
  intros t Hx; cbn in Hx |- *;
  repeat (rewrite lookup_insert in Hx;
          destruct (decide _) as [<-|]; [first [reflexivity|discriminate]|]);
  repeat (apply lookup_delete_Some in Hx; destruct Hx as [? Hx]);
  apply Htr in Hx; congruence.

(** A failed attempt below the bound: one more attempt is counted, the
    interval doubles up to the cap, and the next timer is pending. *)
Lemma failed_attempt_below close w w' :
  armed w ->
  (reconnectAttempts w < maxReconnectAttempts)%Z ->
  failed_attempt close w = Some w' ->
  armed w'
  /\ reconnectAttempts w' = (reconnectAttempts w + 1)%Z
  /\ reconnectInterval w' = Z.min (reconnectInterval w * 2) maxReconnectInterval
  /\ scheduled_delays (trace w')
     = scheduled_delays (trace w) ++ [reconnectInterval w']
  /\ emitted "max_reconnect_attempts_reached" (trace w')
     = emitted "max_reconnect_attempts_reached" (trace w).
Proof.
  intros [[Hj Htok Ha Hhb Hst Hwf Hidle Hfr Htr] (t & Hr & Ht)] Hlt H.
  destruct (token w) as [tok|] eqn:Etok; [|discriminate]. cbn in Htok.
  apply Z.leb_gt in Hlt.
  unfold failed_attempt in H. rewrite Hr in H. cbn [mbind option_bind] in H.
  destruct (url_ok w) eqn:Hu.
  - step_in H. step_in H. step_in H.
    destruct close as [[code reason]|]; [step_in H|]; finish_in H; cbn.
    all: split; [|split; [reflexivity|]; split; [reflexivity|];
                  split; observe; reflexivity].
    all: split; [|eexists; split; [reflexivity|cbn; apply lookup_insert_eq]].
    all: constructor; cbn; try reflexivity; try assumption;
      [keep_idle Hidle|keep_fresh Hfr|keep_tracked Htr].
  - step_in H. step_in H. finish_in H. cbn.
    split; [|split; [reflexivity|]; split; [reflexivity|];
             split; observe; reflexivity].
    split; [|eexists; split; [reflexivity|cbn; apply lookup_insert_eq]].
    constructor; cbn; try reflexivity; try assumption;
      [keep_idle Hidle|keep_fresh Hfr|keep_tracked Htr].
Qed.

(** A failed attempt at the bound: the scheduler gives up. *)
Lemma failed_attempt_exhausts close w w' :
  armed w ->
  (maxReconnectAttempts <= reconnectAttempts w)%Z ->
  failed_attempt close w = Some w' ->
  (forall t, timers w' !! t <> Some ReconnectTimer)
  /\ (forall c, failed_attempt c w' = None)
  /\ scheduled_delays (trace w') = scheduled_delays (trace w)
  /\ emitted "max_reconnect_attempts_reached" (trace w')
     = emitted "max_reconnect_attempts_reached" (trace w)
       ++ [JObj [("attempts", JNum (reconnectAttempts w))]].
Proof.
  intros [[Hj Htok Ha Hhb Hst Hwf Hidle Hfr Htr] (t & Hr & Ht)] Hge H.
  destruct (token w) as [tok|] eqn:Etok; [|discriminate]. cbn in Htok.
  apply Z.leb_le in Hge.
  unfold failed_attempt in H. rewrite Hr in H. cbn [mbind option_bind] in H.
  assert (Hgone : forall x, delete t (timers w) !! x <> Some ReconnectTimer).
  { intros x Hx. apply lookup_delete_Some in Hx as [Hne Hx].
    apply Htr in Hx. congruence. }
  destruct (url_ok w) eqn:Hu.
  - step_in H. step_in H. step_in H.
    destruct close as [[code reason]|]; [step_in H|]; finish_in H; cbn.
    all: split; [exact Hgone|].
    all: split; [|split; observe; reflexivity].
    all: intros c; unfold failed_attempt; cbn;
      unfold step, task; cbn; now rewrite lookup_delete_eq.
  - step_in H. step_in H. finish_in H. cbn.
    split; [exact Hgone|].
    split; [|split; observe; reflexivity].
    intros c; unfold failed_attempt; cbn;
      unfold step, task; cbn; now rewrite lookup_delete_eq.
Qed.

(** ** The backoff sequence *)

Lemma first_attempt w :
  dropped w ->
  (reconnectAttempts w < maxReconnectAttempts)%Z ->
  let w1 := run attemptReconnect w in
  armed w1
  /\ reconnectAttempts w1 = (reconnectAttempts w + 1)%Z
  /\ reconnectInterval w1 = reconnectInterval w
  /\ scheduled_delays (trace w1)
     = scheduled_delays (trace w) ++ [reconnectInterval w]
  /\ emitted "max_reconnect_attempts_reached" (trace w1)
     = emitted "max_reconnect_attempts_reached" (trace w).
Proof.
  intros [Hj Htok Ha Hhb Hst Hwf Hidle Hfr Htr] Hlt. apply Z.leb_gt in Hlt.
  unfold run. rewrite attemptReconnect_spec by assumption. rewrite Hlt. cbn.
  split; [|split; [reflexivity|]; split; [reflexivity|];
           split; observe; reflexivity].
  split; [|eexists; split; [reflexivity|cbn; apply lookup_insert_eq]].
  constructor; cbn; try reflexivity; try assumption.
  - intros p Hp. apply Hfr in Hp. cbn. lia.
  - intros t Hx. cbn in Hx |- *. rewrite lookup_insert in Hx.
    destruct (decide (fresh w = t)) as [<-|]; [reflexivity|].
    destruct (reconnectTimeout w) as [r|] eqn:Hr; cbn in Hx.
    + apply lookup_delete_Some in Hx as [Hne Hx]. apply Htr in Hx. congruence.
    + apply Htr in Hx. congruence.
Qed.

Lemma failed_attempts_from closes : forall (a : nat) w w',
  armed w ->
  1 <= a <= 10 ->
  reconnectAttempts w = Z.of_nat a ->
  reconnectInterval w = nth (a - 1) backoff 0%Z ->
  failed_attempts closes w = Some w' ->
  a + length closes <= 11
  /\ scheduled_delays (trace w')
     = scheduled_delays (trace w) ++ take (length closes) (drop a backoff)
  /\ (a + length closes <= 10 ->
      armed w'
      /\ emitted "max_reconnect_attempts_reached" (trace w')
         = emitted "max_reconnect_attempts_reached" (trace w))
  /\ (a + length closes = 11 ->
      emitted "max_reconnect_attempts_reached" (trace w')
      = emitted "max_reconnect_attempts_reached" (trace w)
        ++ [JObj [("attempts", JNum 10)]]
      /\ forall t, timers w' !! t <> Some ReconnectTimer).
Proof.
  induction closes as [|c cs IH]; intros a w w' Harm Ha Hn Hi H.
  - cbn in H. injection H as <-. cbn [length].
    rewrite take_0, app_nil_r.
    split; [lia|]. split; [reflexivity|].
    split; [intros _; split; [assumption|reflexivity]|intros; lia].
  - cbn [failed_attempts] in H.
    destruct (failed_attempt c w) as [w1|] eqn:E1; [|discriminate].
    cbn [mbind option_bind] in H. cbn [length].
    destruct (decide (a = 10)) as [->|Hne].
    + assert (Hge : (maxReconnectAttempts <= reconnectAttempts w)%Z)
        by (rewrite Hn; unfold maxReconnectAttempts; lia).
      destruct (failed_attempt_exhausts _ _ _ Harm Hge E1) as (Hno & Hstop & Hd & Hm).
      destruct cs as [|c' cs].
      * cbn in H. injection H as <-. rewrite Hn in Hm. cbn.
        rewrite app_nil_r.
        split; [lia|]. split; [assumption|].
        split; [intros; lia|intros _; split; assumption].
      * cbn in H. rewrite Hstop in H. discriminate.
    + assert (Hlt : (reconnectAttempts w < maxReconnectAttempts)%Z)
        by (rewrite Hn; unfold maxReconnectAttempts; lia).
      destruct (failed_attempt_below _ _ _ Harm Hlt E1)
        as (Harm1 & Hn1 & Hi1 & Hd1 & Hm1).
      assert (Hnext : reconnectInterval w1 = nth a backoff 0%Z).
      { rewrite Hi1, Hi. unfold maxReconnectInterval.
        do 10 (destruct a as [|a]; [try lia; reflexivity|]). lia. }
      assert (Hdrop : drop a backoff = nth a backoff 0%Z :: drop (S a) backoff).
      { do 10 (destruct a as [|a]; [try lia; reflexivity|]). lia. }
      destruct (IH (S a) w1 w' Harm1) as (Hlen & Hd & Hbelow & Hend);
        [lia|rewrite Hn1, Hn; lia
        |now replace (S a - 1) with a by lia|exact H|].
      split; [lia|]. split.
      { rewrite Hd, Hd1, Hnext, Hdrop. cbn [take]. now rewrite <- app_assoc. }
      split.
      * intros Hle. destruct Hbelow as [Hx Hy]; [lia|]. split; [exact Hx|congruence].
      * intros He. destruct Hend as [Hx Hy]; [lia|]. split; [congruence|exact Hy].
Qed.

(** C1 (as the code has it). From a fresh policy (no attempt counted,
    interval 1000), when every reconnect attempt fails before its
    transport opens (the constructor throws, or the connection fails
    with an error event), the reconnect timers are set with the delays
    1000, 2000, 4000, 8000, 16000, 30000, 30000, ...; there are at most
    ten attempts, and after the tenth failure
    'max_reconnect_attempts_reached' is emitted with no timer left
    pending. *)
Theorem backoff_when_attempts_fail_before_open
    (w : World) (closes : list (option (Z * string))) (w' : World) :
  dropped w ->
  reconnectAttempts w = 0%Z ->
  reconnectInterval w = 1000%Z ->
  failed_attempts closes (run attemptReconnect w) = Some w' ->
  length closes <= 10
  /\ scheduled_delays (trace w')
     = scheduled_delays (trace w) ++ take (S (length closes)) backoff
  /\ (length closes < 10 ->
      armed w'
      /\ emitted "max_reconnect_attempts_reached" (trace w')
         = emitted "max_reconnect_attempts_reached" (trace w))
  /\ (length closes = 10 ->
      emitted "max_reconnect_attempts_reached" (trace w')
      = emitted "max_reconnect_attempts_reached" (trace w)
        ++ [JObj [("attempts", JNum 10)]]
      /\ forall t, timers w' !! t <> Some ReconnectTimer).
Proof.
  intros Hd Hn Hi H.
  assert (Hlt : (reconnectAttempts w < maxReconnectAttempts)%Z)
    by (rewrite Hn; reflexivity).
  destruct (first_attempt w Hd Hlt) as (Harm & Hn1 & Hi1 & Hd1 & Hm1).
  destruct (failed_attempts_from closes 1 _ w' Harm)
    as (Hlen & Hds & Hbelow & Hend);
    [lia|rewrite Hn1, Hn; reflexivity|rewrite Hi1, Hi; reflexivity|exact H|].
  split; [lia|]. split.
  { rewrite Hds, Hd1, Hi. cbn [take backoff drop]. now rewrite <- app_assoc. }
  split.
  - intros Hl. destruct Hbelow as [Hx Hy]; [lia|]. split; [exact Hx|congruence].
  - intros Hl. destruct Hend as [Hx Hy]; [lia|]. split; [congruence|exact Hy].
Qed.

(** ** An 'auth_error' frame when listeners of old handshakes remain *)

Lemma forEach_app {A} (f : A -> M unit) l1 l2 w :
  forEach f (l1 ++ l2) w = (forEach f l1;; forEach f l2) w.
Proof.
  revert w. induction l1 as [|x l1 IH]; intros w; [reflexivity|].
  cbn [app forEach]. unfold mbind, M_bind in *.
  destruct (f x w) as [[[]|e] w1]; [|reflexivity].
  apply IH.
Qed.

Lemma silent_nil : silent [].
Proof. repeat split. Qed.

Lemma silent_app a b : silent a -> silent b -> silent (a ++ b).
Proof.
  intros (A1 & A2 & A3) (B1 & B2 & B3). unfold silent.
  rewrite scheduled_delays_app, connections_app, A1, A2, B1, B2.
  repeat split. intros e. now rewrite emitted_app, A3, B3.
Qed.

Lemma silent_delivery f e d h : silent (delivery f e d h).
Proof.
  unfold silent, scheduled_delays, connections, emitted, delivery.
  destruct h as [n| |]; [destruct (f n d)|..]; repeat split.
Qed.

(** A listener left over from a finished handshake clears its timer
    (long gone), unregisters itself and its twin, and rejects a promise
    that is settled already. *)
Lemma deliver_stale eventType data p t w :
  settled_in (promises w) p = true ->
  try_catch (call (AuthError p t) data)
            (fun error => log (Caught eventType error)) w
  = (Normal tt,
     set_eventHandlers
       (reg_off "auth_error" (AuthError p t)
          (reg_off "auth_success" (AuthResponse p t) (eventHandlers w)))
       (set_timers (delete t (timers w))
          (set_trace (trace w ++ [Called (AuthError p t) data; ClearTimeout t]) w))).
Proof.
  intros Hs. unfold call, handleAuthError, reject, clearTimeout. exec.
  rewrite !off_spec. exec. rewrite settle_spec. exec.
  unfold settled_in in Hs.
  destruct (promises w !! p) as [[k []]|]; try discriminate.
  now rewrite <- app_assoc.
Qed.

Lemma forEach_idle eventType data hs : forall w,
  forallb (idle_listener (promises w)) hs = true ->
  exists m tm tr,
    forEach (fun handler =>
               try_catch (call handler data)
                         (fun error => log (Caught eventType error))) hs w
    = (Normal tt,
       set_eventHandlers m (set_timers tm (set_trace (trace w ++ tr) w)))
    /\ sub_registry m (eventHandlers w)
    /\ (forall t k, tm !! t = Some k -> timers w !! t = Some k)
    /\ silent tr.
Proof.
  induction hs as [|h hs IH]; intros w Hi.
  - exists (eventHandlers w), (timers w), []. split; [|split; [|split]].
    + cbn. rewrite app_nil_r. now destruct w.
    + apply sub_registry_refl.
    + auto.
    + apply silent_nil.
  - cbn in Hi. apply andb_prop in Hi as [Hh Hi].
    cbn [forEach]. destruct h as [n|p t|p t]; [|discriminate|].
    + erewrite bind_normal by apply deliver_consumer.
      destruct (IH (set_trace (trace w ++ delivery (consumer w) eventType data (Consumer n)) w) Hi)
        as (m & tm & tr & E & Hm & Htm & Htr).
      exists m, tm, (delivery (consumer w) eventType data (Consumer n) ++ tr).
      split; [|split; [|split]]; try assumption.
      * rewrite E. cbn. now rewrite <- app_assoc.
      * apply silent_app; [apply silent_delivery|assumption].
    + erewrite bind_normal by (apply deliver_stale; exact Hh).
      match goal with |- context [forEach _ hs ?W] =>
        destruct (IH W Hi) as (m & tm & tr & E & Hm & Htm & Htr) end.
      exists m, tm, ([Called (AuthError p t) data; ClearTimeout t] ++ tr).
      split; [|split; [|split]].
      * rewrite E. cbn. now rewrite <- app_assoc.
      * eapply sub_registry_trans; [exact Hm|]. cbn.
        eapply sub_registry_trans; apply sub_registry_off.
      * intros t' k Hk. apply Htm in Hk. cbn in Hk.
        now apply lookup_delete_Some in Hk as [_ Hk].
      * apply silent_app; [|assumption].
        unfold silent, scheduled_delays, connections, emitted. repeat split.
Qed.

#[local] Arguments reg_on : simpl never.
#[local] Arguments reg_off : simpl never.

(** The listener of the handshake in flight rejects its promise. *)
Lemma deliver_pending eventType data p t c w :
  promises w !! p = Some {| kind := AuthPromise c; settled := false |} ->
  try_catch (call (AuthError p t) data)
            (fun error => log (Caught eventType error)) w
  = (Normal tt,
     set_jobs
       (jobs w
        ++ [RejectedWith p (AuthPromise c)
              (Error (or_else (field "message" data)
                              (JStr "Authentication failed")))])
       (set_promises
          (<[p := {| kind := AuthPromise c; settled := true |}]> (promises w))
          (set_eventHandlers
             (reg_off "auth_error" (AuthError p t)
                (reg_off "auth_success" (AuthResponse p t) (eventHandlers w)))
             (set_timers (delete t (timers w))
                (set_trace
                   (trace w ++ [Called (AuthError p t) data; ClearTimeout t])
                   w))))).
Proof.
  intros Hp. unfold call, handleAuthError, reject, clearTimeout. exec.
  rewrite !off_spec. exec. rewrite settle_spec. exec. rewrite Hp.
  now rewrite <- app_assoc.
Qed.

(** The 'auth_error' emission during a handshake: listeners left over
    from earlier handshakes run without effect on the session, then the
    handshake's own listener rejects its promise. *)
Lemma emit_refused w data p ta c hs :
  subscribers (eventHandlers w) "auth_error" = hs ++ [AuthError p ta] ->
  forallb (idle_listener (promises w)) hs = true ->
  promises w !! p = Some {| kind := AuthPromise c; settled := false |} ->
  exists m tm tr,
    emit "auth_error" data w
    = (Normal tt,
       set_jobs
         (jobs w
          ++ [RejectedWith p (AuthPromise c)
                (Error (or_else (field "message" data)
                                (JStr "Authentication failed")))])
         (set_promises
            (<[p := {| kind := AuthPromise c; settled := true |}]> (promises w))
            (set_eventHandlers m
               (set_timers tm (set_trace (trace w ++ tr) w)))))
    /\ sub_registry m (eventHandlers w)
    /\ (forall t k, tm !! t = Some k -> timers w !! t = Some k)
    /\ scheduled_delays tr = []
    /\ emitted "max_reconnect_attempts_reached" tr = [].
Proof.
  intros Hsub Hidle Hp. unfold emit.
  erewrite bind_normal by reflexivity.
  erewrite bind_normal by reflexivity.
  unfold subscribers in Hsub. cbn [eventHandlers set_trace].
  destruct (eventHandlers w !! "auth_error") as [l|] eqn:E;
    [|now destruct hs]. cbn in Hsub. subst l.
  rewrite forEach_app.
  destruct (forEach_idle "auth_error" data hs
              (set_trace (trace w ++ [Emit "auth_error" data]) w) Hidle)
    as (m1 & tm1 & tr1 & E1 & Hm1 & Htm1 & Hs1 & Hc1 & He1).
  erewrite bind_normal by exact E1. cbn [forEach].
  erewrite bind_normal by (apply deliver_pending; exact Hp).
  exists (reg_off "auth_error" (AuthError p ta)
            (reg_off "auth_success" (AuthResponse p ta) m1)),
         (delete ta tm1),
         ([Emit "auth_error" data] ++ tr1
          ++ [Called (AuthError p ta) data; ClearTimeout ta]).
  split; [|split; [|split; [|split]]].
  - unfold skip, mret, M_ret. fields. now rewrite <- !app_assoc.
  - eapply sub_registry_trans; [apply sub_registry_off|].
    eapply sub_registry_trans; [apply sub_registry_off|]. exact Hm1.
  - intros t k Hk. apply lookup_delete_Some in Hk as [_ Hk]. now apply Htm1.
  - rewrite !scheduled_delays_app, Hs1. reflexivity.
  - rewrite !emitted_app, He1. reflexivity.
Qed.

Ltac crunch_more :=
  repeat progress
    (crunch;
     rewrite ?(lookup_insert_ne (M := gmap nat)) by lia).

Ltac step_with H tac :=
  rewrite ?steps_cons, ?steps_nil in H; cbn in H;
  match type of H with
  | context [step ?W ?E] =>
      let S := fresh "S" in
      eassert (S : step W E = Some _);
      [ unfold step, task, listening, run;
        repeat progress (crunch_more; tac); reflexivity
      | match type of S with
        | _ = Some ?W' => rewrite (world_eta W') in S; cbn in S
        end;
        rewrite S in H; clear S; cbn in H ]
  end.

Lemma listeners_before_handshake w p ta c k1 k2 :
  wf_registry (eventHandlers w) -> handshake_idle w -> fresh_ids w ->
  fresh w <= p -> fresh w <= c ->
  (AuthError p ta ∉ subscribers (eventHandlers w) "auth_error")
  /\ forallb (idle_listener (<[p := k1]> (<[c := k2]> (promises w))))
             (subscribers (eventHandlers w) "auth_error") = true.
Proof.
  intros Hwf Hidle Hfr Hp Hc.
  assert (Hold : forall q t, AuthError q t ∈ subscribers (eventHandlers w) "auth_error" ->
                   settled_in (promises w) q = true /\ q < fresh w).
  { intros q t Hin. pose proof (Hidle _ _ Hin) as Hs. cbn in Hs.
    split; [exact Hs|]. apply Hfr. unfold settled_in in Hs.
    destruct (promises w !! q); [eauto|discriminate]. }
  split.
  - intros Hin. apply Hold in Hin as [_ Hlt]. lia.
  - apply forallb_forall. intros h Hin. apply list_elem_of_In in Hin.
    pose proof (Hwf _ _ Hin) as Hr.
    destruct h as [n|q t|q t]; [reflexivity|discriminate|].
    apply Hold in Hin as [Hs Hlt]. cbn. unfold settled_in.
    rewrite !lookup_insert_ne by lia. exact Hs.
Qed.

(** However far the policy had backed off, an attempt whose transport
    opens and whose handshake then fails ends with one attempt counted
    and the interval at 2000. *)
Lemma opened_then_failed_restarts f w w' :
  armed w ->
  (forall m, f = Auth_refused m -> rsp_type m = "auth_error") ->
  opened_then_failed f w = Some w' ->
  reconnectAttempts w' = 1%Z
  /\ reconnectInterval w' = 2000%Z
  /\ scheduled_delays (trace w') = scheduled_delays (trace w) ++ [2000%Z]
  /\ emitted "max_reconnect_attempts_reached" (trace w')
     = emitted "max_reconnect_attempts_reached" (trace w)
  /\ exists t, reconnectTimeout w' = Some t
               /\ timers w' !! t = Some ReconnectTimer.
Proof.
  intros [[Hj Htok Ha Hhb Hst Hwf Hidle Hfr Htr] (t & Hr & Ht)] Hf H.
  destruct (token w) as [tok|] eqn:Etok; [|discriminate]. cbn in Htok.
  unfold opened_then_failed in H. rewrite Hr in H. cbn [mbind option_bind] in H.
  destruct (url_ok w) eqn:Hu.
  - step_in H. step_in H.
    destruct f as [m| |code reason].
    + step_in H.
      assert (Hm : rsp_type m = "auth_error") by (now apply Hf).
      destruct (listeners_before_handshake w (S (S (S (fresh w))))
                  (S (S (S (S (fresh w))))) (fresh w)
                  {| kind := AuthPromise (fresh w); settled := false |}
                  {| kind := ConnectPromise Scheduler; settled := false |}
                  Hwf Hidle Hfr) as [Hnew Hold]; [lia..|].
      match type of H with
      | context [steps ?W _] =>
          destruct (emit_refused W (or_else (rsp_data m) (frame_object m))
                      (S (S (S (fresh w)))) (S (S (S (S (fresh w)))))
                      (fresh w) (subscribers (eventHandlers w) "auth_error"))
            as (m' & tm & tr & Hemit & Hsub & Htm & Hs & He)
      end.
      { cbn [eventHandlers].
        rewrite subscribers_reg_on, decide_True by reflexivity.
        rewrite subscribers_reg_on, decide_False by discriminate.
        unfold Set_add. now rewrite decide_False by exact Hnew. }
      { exact Hold. }
      { cbn. apply lookup_insert_eq. }
      assert (Hwf' : wf_registry m').
      { eapply wf_sub_registry; [exact Hsub|]. cbn.
        apply wf_reg_on; [apply wf_reg_on|]; [assumption|reflexivity..]. }
      step_with H ltac:(rewrite ?Hemit). clear Hemit.
      step_with H idtac. step_with H idtac. finish_in H. cbn.
      split; [reflexivity|]. split; [reflexivity|].
      split; [|split].
      * rewrite !scheduled_delays_app, Hs. observe. reflexivity.
      * rewrite !emitted_app, He. observe. reflexivity.
      * eexists. split; [reflexivity|apply lookup_insert_eq].
    + step_in H. step_with H idtac. step_with H idtac.
      assert (Hwf' : wf_registry
                (reg_on "auth_error"
                   (AuthError (S (S (S (fresh w)))) (S (S (S (S (fresh w))))))
                   (reg_on "auth_success"
                      (AuthResponse (S (S (S (fresh w)))) (S (S (S (S (fresh w))))))
                      (eventHandlers w)))).
      { apply wf_reg_on; [apply wf_reg_on|]; [assumption|reflexivity..]. }
      step_with H idtac. finish_in H. cbn.
      split; [reflexivity|]. split; [reflexivity|].
      split; [observe; reflexivity|]. split; [observe; reflexivity|].
      eexists. split; [reflexivity|apply lookup_insert_eq].
    + step_in H. step_with H idtac. step_with H idtac. finish_in H. cbn.
      split; [reflexivity|]. split; [reflexivity|].
      split; [observe; reflexivity|]. split; [observe; reflexivity|].
      eexists. split; [reflexivity|apply lookup_insert_eq].
  - step_in H. destruct (ws w) as [s|] eqn:Hs; [|discriminate].
    cbn in H. unfold step in H. cbn in H. discriminate.
Qed.

(** C10. When the transport's open callback fires, the client sets
    [reconnectAttempts] to 0 and [reconnectInterval] to 1000 and only
    sets the 100 ms timer: the handshake has not started (no frame is
    sent, no listener is registered).  Consequently a reconnect attempt
    whose transport opens and whose handshake fails (refused, unanswered
    for 5000 ms, or cut short by a close during the 100 ms delay) ends
    with one attempt counted and a timer of 2000 ms pending, whatever the
    count and the interval were before, and emits no
    'max_reconnect_attempts_reached'. *)
Theorem open_restarts_backoff
    (w0 : World) (c : nat) (f : HandshakeFailure) (w w' : World) :
  armed w ->
  (forall m, f = Auth_refused m -> rsp_type m = "auth_error") ->
  opened_then_failed f w = Some w' ->
  (let w1 := run (onopen c) w0 in
   reconnectAttempts w1 = 0%Z
   /\ reconnectInterval w1 = 1000%Z
   /\ connectionState w1 = State.connected
   /\ eventHandlers w1 = eventHandlers w0
   /\ jobs w1 = jobs w0
   /\ trace w1 = trace w0 ++ [SetTimeout (fresh w0) (SettleTimer c) 100])
  /\ reconnectAttempts w' = 1%Z
  /\ reconnectInterval w' = 2000%Z
  /\ scheduled_delays (trace w') = scheduled_delays (trace w) ++ [2000%Z]
  /\ emitted "max_reconnect_attempts_reached" (trace w')
     = emitted "max_reconnect_attempts_reached" (trace w)
  /\ exists t, reconnectTimeout w' = Some t
               /\ timers w' !! t = Some ReconnectTimer.
Proof.
  intros Harm Hf H. split.
  - unfold run, onopen, setTimeout, new_id. exec. repeat split.
  - exact (opened_then_failed_restarts f w w' Harm Hf H).
Qed.

(** ** The claims on the scenarios *)

Lemma check_dropped_sound w : check_dropped w = true -> dropped w.
Proof.
  unfold check_dropped. rewrite !andb_true_iff.
  intros ((((((((H1 & H2) & H3) & H4) & H5) & H6) & H7) & H8) & H9).
  constructor.
  - now destruct (jobs w).
  - exact H2.
  - now apply negb_true_iff.
  - now destruct (heartbeatInterval w).
  - now apply negb_true_iff.
  - exact (check_registry_sound _ _ H6).
  - intros e h Hin. exact (check_registry_sound _ _ H7 e h Hin).
  - now apply check_fresh_ids_sound.
  - now apply check_tracked_sound.
Qed.

Lemma check_armed_sound w : check_armed w = true -> armed w.
Proof.
  unfold check_armed. rewrite andb_true_iff. intros [Hd Ht].
  split; [now apply check_dropped_sound|].
  destruct (reconnectTimeout w) as [t|]; [|discriminate].
  exists t. split; [reflexivity|]. now apply bool_decide_eq_true_1 in Ht.
Qed.

Ltac conjuncts := repeat match goal with |- _ /\ _ => split end.

Ltac by_computation := conjuncts; vm_compute; reflexivity.

(** C1, as stated, fails when the attempts fail after their transport
    opened: with a server that refuses the token every time, twelve
    attempts are made from a fresh policy, every delay after the first
    is 2000 (not 4000, 8000, ...), and the exhaustion notification never
    comes. *)
Lemma backoff_restarts_when_server_refuses :
  reconnectAttempts ended_session = 0%Z
  /\ reconnectInterval ended_session = 1000%Z
  /\ refused_attempts 12 (run attemptReconnect ended_session) = Some never_exhausted
  /\ scheduled_delays (trace never_exhausted) = 1000%Z :: repeat 2000%Z 12
  /\ scheduled_delays (trace never_exhausted) <> take 13 (backoff ++ repeat 30000%Z 3)
  /\ length (connections (trace never_exhausted))
     = 12 + length (connections (trace ended_session))
  /\ emitted "reconnected" (trace never_exhausted) = []
  /\ emitted "max_reconnect_attempts_reached" (trace never_exhausted) = [].
Proof.
  conjuncts; try (vm_compute; reflexivity).
  vm_compute. discriminate.
Qed.

Lemma backoff_when_attempts_fail_before_open_witness :
  dropped ended_session
  /\ failed_attempts ten_failures (run attemptReconnect ended_session)
     = Some exhausted_session
  /\ scheduled_delays (trace exhausted_session) = backoff
  /\ emitted "max_reconnect_attempts_reached" (trace exhausted_session)
     = [JObj [("attempts", JNum 10)]]
  /\ forall t, timers exhausted_session !! t <> Some ReconnectTimer.
Proof.
  assert (Hd : dropped ended_session)
    by (apply check_dropped_sound; vm_compute; reflexivity).
  assert (Hn : reconnectAttempts ended_session = 0%Z) by (vm_compute; reflexivity).
  assert (Hi : reconnectInterval ended_session = 1000%Z) by (vm_compute; reflexivity).
  assert (Hr : failed_attempts ten_failures (run attemptReconnect ended_session)
               = Some exhausted_session) by (vm_compute; reflexivity).
  destruct (backoff_when_attempts_fail_before_open
              ended_session ten_failures exhausted_session Hd Hn Hi Hr)
    as (_ & Hdelays & _ & Hend).
  destruct (Hend eq_refl) as [Hmax Hnone].
  split; [exact Hd|]. split; [exact Hr|].
  split; [etransitivity; [exact Hdelays|vm_compute; reflexivity]|].
  split; [etransitivity; [exact Hmax|vm_compute; reflexivity]|exact Hnone].
Defined.

Lemma session_reachable : reachable session.
Proof.
  exists true, well_behaved, session_events. vm_compute. reflexivity.
Qed.

Lemma disconnect_suppresses_reconnection_witness :
  reachable session
  /\ step session Call_disconnect = Some closed_session
  /\ steps closed_session
       (map (fun '(s, code, reason) => Transport_close s code reason) late_closes)
     = Some disconnected_session
  /\ last (trace closed_session)
     = Some (WsClose 1 1000 "User initiated disconnect")
  /\ (forall t, timers disconnected_session !! t <> Some ReconnectTimer)
  /\ scheduled_delays (trace disconnected_session) = scheduled_delays (trace session)
  /\ connections (trace disconnected_session) = connections (trace session).
Proof.
  assert (H1 : step session Call_disconnect = Some closed_session)
    by (vm_compute; reflexivity).
  assert (Hs : steps closed_session
                 (map (fun '(s, code, reason) => Transport_close s code reason)
                      late_closes)
               = Some disconnected_session) by (vm_compute; reflexivity).
  assert (Hws : ws session = Some 1) by (vm_compute; reflexivity).
  destruct (disconnect_suppresses_reconnection
              session closed_session late_closes disconnected_session
              session_reachable H1 Hs)
    as ((_ & _ & _ & _ & Hclose & _) & (_ & Hnone & Hdelays & _ & Hconn & _)).
  split; [exact session_reachable|]. split; [exact H1|]. split; [exact Hs|].
  split; [exact (proj2 (Hclose 1 Hws))|].
  split; [exact Hnone|]. split; [exact Hdelays|exact Hconn].
Defined.

(** C2 on the code: a [disconnect] during a reconnect attempt does not
    end the reconnection.  [disconnect] clears the heartbeat and the
    reconnect handle and closes the transport, but the 100 ms delay of
    the attempt stays pending; when it ends, the promise of the attempt
    rejects, the scheduler's catch doubles the interval and calls
    [attemptReconnect], which emits 'reconnecting' and sets a timer of
    2000 ms; that timer opens a third transport and the client
    authenticates with the stored token.  The close event plays no part
    in it, and the same happens when the [disconnect] comes while the
    5000 ms timeout of the handshake is pending. *)
Lemma disconnect_during_attempt_reconnects :
  steps (new_client true well_behaved) interrupted_events
  = Some interrupted_attempt
  /\ last (trace interrupted_attempt)
     = Some (WsClose 8 1000 "User initiated disconnect")
  /\ getConnectionState interrupted_attempt = "disconnected"
  /\ ws interrupted_attempt = None
  /\ reconnectTimeout interrupted_attempt = None
  /\ map_to_list (timers interrupted_attempt) = [(9, SettleTimer 7)]
  /\ scheduled_delays (trace interrupted_attempt) = [1000%Z]
  /\ connections (trace interrupted_attempt) = [1; 8]
  /\ steps interrupted_attempt
       [Transport_close 8 1000 "User initiated disconnect"; Timer_fires 9; Microtask]
     = Some resumed_reconnection
  /\ scheduled_delays (trace resumed_reconnection) = [1000%Z; 2000%Z]
  /\ reconnectTimeout resumed_reconnection = Some 10
  /\ timers resumed_reconnection !! 10 = Some ReconnectTimer
  /\ emitted "reconnecting" (trace resumed_reconnection)
     = emitted "reconnecting" (trace interrupted_attempt)
       ++ [JObj [("attempt", JNum 1); ("maxAttempts", JNum 10);
                 ("delay", JNum 2000)]]
  /\ (w ← steps interrupted_attempt [Timer_fires 9; Microtask];
      Some (scheduled_delays (trace w))) = Some [1000%Z; 2000%Z]
  /\ steps resumed_reconnection
       [Timer_fires 10; Transport_open 12; Timer_fires 13;
        Transport_message 12 (Some acceptance); Microtask; Microtask]
     = Some reconnected_after_disconnect
  /\ connections (trace reconnected_after_disconnect) = [1; 8; 12]
  /\ ws reconnected_after_disconnect = Some 12
  /\ isConnected reconnected_after_disconnect = true
  /\ length (sent (trace reconnected_after_disconnect)) = 2
  /\ map_to_list (timers interrupted_handshake) = [(11, AuthTimeout 10)]
  /\ reconnectTimeout interrupted_handshake = None
  /\ steps interrupted_handshake [Timer_fires 11; Microtask; Microtask]
     = Some resumed_after_timeout
  /\ scheduled_delays (trace resumed_after_timeout) = [1000%Z; 2000%Z]
  /\ map_to_list (timers resumed_after_timeout) = [(12, ReconnectTimer)].
Proof. by_computation. Qed.

(** C3 on the code: a first connect that the server refuses rejects
    with the server's message and schedules nothing, but the state stays
    'connected'; so does a connect that is never answered. A later
    connect then resolves at once, and no second auth frame is sent. *)
Lemma refused_connect_stays_connected :
  steps (new_client true well_behaved)
    [Call_connect "bad"; Transport_open 1; Timer_fires 2;
     Transport_message 1 (Some refusal); Microtask; Microtask]
  = Some refused_connect
  /\ rejections (trace refused_connect) = [(0, Error (JStr "invalid token"))]
  /\ scheduled_delays (trace refused_connect) = []
  /\ reconnectTimeout refused_connect = None
  /\ getConnectionState refused_connect = "connected"
  /\ getConnectionState unanswered_connect = "connected"
  /\ rejections (trace unanswered_connect)
     = [(0, Error (JStr "Authentication timeout"))]
  /\ steps refused_connect [Call_connect "good"; Microtask] = Some second_connect
  /\ resolutions (trace second_connect) = [5]
  /\ length (sent (trace second_connect)) = 1
  /\ isConnected second_connect = false.
Proof. by_computation. Qed.

(** C4 on the code: [connect] called while the reconnect timer is
    pending leaves the timer pending; when it fires, a second transport
    is opened next to the one the manual call opened. *)
Lemma manual_connect_keeps_reconnect_timer :
  reconnectTimeout lost_session = Some 6
  /\ timers lost_session !! 6 = Some ReconnectTimer
  /\ step lost_session (Call_connect "token") = Some manual_connect
  /\ timers manual_connect !! 6 = Some ReconnectTimer
  /\ reconnectTimeout manual_connect = Some 6
  /\ ws manual_connect = Some 8
  /\ step manual_connect (Timer_fires 6) = Some double_connect
  /\ connections (trace double_connect) = [1; 8; 10]
  /\ ws double_connect = Some 10
  /\ (readyState <$> sockets double_connect !! 8) = Some CONNECTING
  /\ listening double_connect 8 = Some 7.
Proof. by_computation. Qed.

(** C5, as stated, fails at every unexpected close: the state is
    'disconnected', and no state of the client is called
    'reconnecting'. *)
Lemma close_leaves_disconnected_not_reconnecting :
  authenticated session = true
  /\ step session (Transport_close 1 1006 "lost") = Some lost_session
  /\ getConnectionState lost_session = "disconnected"
  /\ getConnectionState lost_session <> "reconnecting"
  /\ forall w, getConnectionState w <> "reconnecting".
Proof.
  conjuncts; try (vm_compute; reflexivity).
  - vm_compute. discriminate.
  - intros w. unfold getConnectionState.
    destruct (connectionState w); discriminate.
Qed.

Lemma unexpected_close_hands_off_witness :
  reachable session
  /\ authenticated session = true
  /\ step session (Transport_close 1 1006 "lost") = Some lost_session
  /\ getConnectionState lost_session = "disconnected"
  /\ heartbeatInterval lost_session = None
  /\ reconnectAttempts lost_session = (reconnectAttempts session + 1)%Z
  /\ scheduled_delays (trace lost_session)
     = scheduled_delays (trace session) ++ [reconnectInterval session].
Proof.
  assert (Hr : reachable session) by exact session_reachable.
  assert (Ha : authenticated session = true) by (vm_compute; reflexivity).
  assert (Hc : 1006%Z <> 1000%Z) by lia.
  assert (Hs : step session (Transport_close 1 1006 "lost") = Some lost_session)
    by (vm_compute; reflexivity).
  destruct (unexpected_close_hands_off session 1 1006 "lost" lost_session
              Hr Ha Hc Hs)
    as (Hstate & _ & _ & Hhb & _ & _ & _ & Hbelow & _).
  destruct Hbelow as (Hn & _ & Hd & _); [vm_compute; reflexivity|].
  conjuncts; assumption.
Defined.

(** C6 on the code: when the handshake times out, both listeners stay
    in the registry that was empty before the handshake. *)
Lemma timeout_leaves_listeners_registered :
  steps (new_client true well_behaved)
    [Call_connect "token"; Transport_open 1; Timer_fires 2;
     Timer_fires 4; Microtask; Microtask]
  = Some unanswered_connect
  /\ eventHandlers (new_client true well_behaved) = ∅
  /\ rejections (trace unanswered_connect)
     = [(0, Error (JStr "Authentication timeout"))]
  /\ eventHandlers unanswered_connect !! "auth_success" = Some [AuthResponse 3 4]
  /\ eventHandlers unanswered_connect !! "auth_error" = Some [AuthError 3 4]
  /\ eventHandlers refused_connect = ∅
  /\ eventHandlers session !! "auth_success" = None
  /\ eventHandlers session !! "auth_error" = None.
Proof. by_computation. Qed.

Lemma emit_isolates_handler_failures_witness :
  eventHandlers two_listeners !! "progress" = Some [Consumer 1; Consumer 2]
  /\ consumer two_listeners 1 (JNum 1) = Some (Error (JStr "boom"))
  /\ exists w',
       emit "progress" (JNum 1) two_listeners = (Normal tt, w')
       /\ calls (trace w')
          = calls (trace two_listeners)
            ++ [(Consumer 1, JNum 1); (Consumer 2, JNum 1)]
       /\ exists w'',
            emit "scan_status" (JStr "completed") w' = (Normal tt, w'')
            /\ calls (trace w'')
               = calls (trace w') ++ [(Consumer 3, JStr "completed")].
Proof.
  assert (Hh : eventHandlers two_listeners !! "progress"
               = Some [Consumer 1; Consumer 2]) by (vm_compute; reflexivity).
  split; [exact Hh|]. split; [vm_compute; reflexivity|].
  destruct (emit_isolates_handler_failures two_listeners "progress" (JNum 1)
              [Consumer 1; Consumer 2] Hh) as (w' & He & Hc & Hrest).
  exists w'. split; [exact He|]. split; [exact Hc|].
  destruct (Hrest eq_refl) as [_ Hother].
  destruct (Hother "scan_status" (JStr "completed")) as (w'' & He' & Hc').
  exists w''. split; [exact He'|].
  etransitivity; [exact Hc'|]. f_equal; vm_compute; reflexivity.
Defined.

Lemma pong_never_dispatched_witness :
  rsp_type (frame "pong" None) = "pong"
  /\ subscribers (eventHandlers session) "pong" = [Consumer 3]
  /\ step session (Transport_message 1 (Some (frame "pong" None))) = Some session.
Proof.
  assert (Hp : rsp_type (frame "pong" None) = "pong") by reflexivity.
  destruct (pong_never_dispatched session 1 (frame "pong" None) Hp)
    as (_ & _ & Hstep).
  split; [exact Hp|]. split; [vm_compute; reflexivity|].
  apply Hstep; [vm_compute; reflexivity|].
  exists 0. vm_compute. reflexivity.
Defined.

Lemma open_restarts_backoff_witness :
  armed backed_off_session
  /\ reconnectAttempts backed_off_session = 7%Z
  /\ reconnectInterval backed_off_session = 30000%Z
  /\ opened_then_failed (Auth_refused refusal) backed_off_session
     = Some restarted_session
  /\ reconnectAttempts restarted_session = 1%Z
  /\ reconnectInterval restarted_session = 2000%Z
  /\ scheduled_delays (trace restarted_session)
     = scheduled_delays (trace backed_off_session) ++ [2000%Z].
Proof.
  assert (Ha : armed backed_off_session)
    by (apply check_armed_sound; vm_compute; reflexivity).
  assert (Hf : forall m, Auth_refused refusal = Auth_refused m ->
                         rsp_type m = "auth_error")
    by (intros m [= <-]; reflexivity).
  assert (Hr : opened_then_failed (Auth_refused refusal) backed_off_session
               = Some restarted_session) by (vm_compute; reflexivity).
  destruct (open_restarts_backoff session 0 (Auth_refused refusal)
              backed_off_session restarted_session Ha Hf Hr)
    as (_ & Hn & Hi & Hd & _).
  split; [exact Ha|]. split; [vm_compute; reflexivity|].
  split; [vm_compute; reflexivity|]. split; [exact Hr|].
  split; [exact Hn|]. split; [exact Hi|exact Hd].
Defined.

(** * The invariants of the client, method by method *)

Lemma wp_bind {A B} (m : M A) (f : A -> M B) Q E w :
  wp m (fun a w' => wp (f a) Q E w') E w -> wp (m ≫= f) Q E w.
Proof.
  unfold wp, mbind, M_bind. destruct (m w) as [[a|e] w']; auto.
Qed.

Lemma wp_try_catch {A} (m : M A) h Q E w :
  wp m Q (fun e w' => wp (h e) Q E w') w -> wp (try_catch m h) Q E w.
Proof.
  unfold wp, try_catch. destruct (m w) as [[a|e] w']; auto.
Qed.

Lemma wp_mono {A} (m : M A) (Q Q' : A -> World -> Prop) (E E' : Exn -> World -> Prop) w :
  wp m Q E w ->
  (forall a w', Q a w' -> Q' a w') -> (forall e w', E e w' -> E' e w') ->
  wp m Q' E' w.
Proof.
  unfold wp. destruct (m w) as [[a|e] w']; auto.
Qed.

Lemma wp_triple {A} P (m : M A) Q E Q' E' w :
  triple P m Q E -> P w ->
  (forall a w', Q a w' -> Q' a w') -> (forall e w', E e w' -> E' e w') ->
  wp m Q' E' w.
Proof. intros H Hp HQ HE. exact (wp_mono _ _ _ _ _ _ (H w Hp) HQ HE). Qed.

Lemma triple_forEach {A} (I : World -> Prop) (f : A -> M unit) E l :
  (forall x, x ∈ l -> triple I (f x) (fun _ => I) E) ->
  triple I (forEach f l) (fun _ => I) E.
Proof.
  induction l as [|x l IH]; intros Hf w Hw; [exact Hw|].
  cbn [forEach]. apply wp_bind.
  eapply wp_triple; [apply Hf; left|exact Hw| |auto].
  intros [] w' Hw'. apply IH; [|exact Hw'].
  intros y Hy. apply Hf. now right.
Qed.

Lemma accepted_app_l a b : accepted a -> accepted (a ++ b).
Proof.
  unfold accepted. rewrite emitted_app. intros H E.
  apply app_eq_nil in E as [E _]. contradiction.
Qed.

Lemma accepted_emit tr d b : accepted ((tr ++ [Emit "auth_success" d]) ++ b).
Proof.
  unfold accepted. rewrite !emitted_app. unfold emitted at 2. cbn.
  intros E. apply app_eq_nil in E as [E _]. apply app_eq_nil in E as [_ E].
  discriminate.
Qed.

Lemma sound_weaken (req req' : Prop) w : (req' -> req) -> sound req w -> sound req' w.
Proof.
  intros Hr [H1 H2 H3 H4 H5 H6 H7 H8]. constructor; try assumption.
  intros [Hs|Hq]; apply H6; auto.
Qed.

Lemma sound_accepted_any (req : Prop) w : sound True w -> sound req w.
Proof.
  intros [H1 H2 H3 H4 H5 H6 H7 H8]. constructor; try assumption.
  intros _. apply H6. now right.
Qed.

(** ** Re-establishing the invariants after symbolic execution *)

Lemma allowed_delivery f e d h : forallb allowed (delivery f e d h) = true.
Proof. destruct h as [n| |]; cbn; [destruct (f n d)|..]; reflexivity. Qed.

Lemma allowed_notify f m e d : forallb allowed (notify f m e d) = true.
Proof.
  Transparent notify. unfold notify. Opaque notify. cbn.
  induction (subscribers m e) as [|h hs IH]; [reflexivity|].
  cbn [flat_map]. now rewrite forallb_app, allowed_delivery.
Qed.

Lemma wf_reg_off e h m : wf_registry m -> wf_registry (reg_off e h m).
Proof. apply wf_sub_registry, sub_registry_off. Qed.

Ltac solve_registry :=
  fields;
  repeat first [ assumption
               | apply wf_reg_off
               | apply wf_reg_on; [|reflexivity] ].

Ltac solve_heartbeat Hhb :=
  let t := fresh "t" in let Hx := fresh "Hx" in
  intros t Hx; fields;
  repeat first
    [ rewrite lookup_insert in Hx;
      destruct (decide _) as [<-|]; [first [reflexivity|discriminate]|]
    | apply lookup_delete_Some in Hx; destruct Hx as [? Hx] ];
  first [ exact (Hhb _ Hx) | apply Hhb in Hx; congruence ].

Ltac solve_accepted Hac :=
  let H := fresh in
  fields; intros H; rewrite <- ?app_assoc; try apply accepted_app_l;
  first [ assumption
        | apply Hac;
          first [ exact H
                | destruct H as [H|H]; [discriminate H|right; exact H] ] ].

Ltac solve_trace Htr :=
  fields; rewrite ?forallb_app, ?Htr, ?allowed_delivery, ?allowed_notify; cbn;
  use_hyps; cbn; rewrite ?andb_true_r;
  first [ reflexivity
        | assumption
        | apply andb_true_intro; split; apply Z.leb_le; unfold maxReconnectInterval in *; lia ].

Ltac solve_sockets Hso :=
  let s := fresh "s" in let Hx := fresh "Hx" in
  intros s Hx; fields;
  repeat first
    [ apply lookup_alter_is_Some in Hx
    | apply lookup_insert_is_Some in Hx; destruct Hx as [<-|[_ Hx]]; [lia|] ];
  apply Hso in Hx; lia.

Ltac solve_sound H :=
  let Hwf := fresh "Hwf" in let Hat := fresh "Hat" in let Hiv := fresh "Hiv" in
  let Hhb := fresh "Hhb" in let Hfl := fresh "Hfl" in let Hac := fresh "Hac" in
  let Htr := fresh "Htr" in let Hso := fresh "Hso" in
  pose proof H as [Hwf Hat Hiv Hhb Hfl Hac Htr Hso];
  constructor;
  [ solve_registry
  | fields; unfold maxReconnectAttempts in *; lia
  | fields; unfold maxReconnectInterval in *; lia
  | solve_heartbeat Hhb
  | fields; first [exact Hfl | reflexivity | discriminate | intros _; reflexivity]
  | solve_accepted Hac
  | solve_trace Htr
  | solve_sockets Hso ].

(** ** Handlers and emissions *)

Lemma deliver_sound (req : Prop) e d h :
  (forall p t, h = AuthResponse p t -> req) ->
  triple (sound req)
         (try_catch (call h d) (fun error => log (Caught e error)))
         (fun _ => sound req) no_throw.
Proof.
  intros Hreq w Hw. unfold wp. destruct h as [n|p t|p t].
  - rewrite deliver_consumer. solve_sound Hw.
  - assert (Hacc : accepted (trace w)).
    { apply (sound_accepted _ _ Hw). right. now apply (Hreq p t). }
    unfold call, handleAuthResponse, clearTimeout, resolve. exec.
    rewrite !off_spec. exec. rewrite settle_spec. exec.
    destruct (promises w !! p) as [[k []]|]; cbn; solve_sound Hw.
  - unfold call, handleAuthError, clearTimeout, reject. exec.
    rewrite !off_spec. exec. rewrite settle_spec. exec.
    destruct (promises w !! p) as [[k []]|]; cbn; solve_sound Hw.
Qed.

Lemma accepted_now tr d : accepted (tr ++ [Emit "auth_success" d]).
Proof.
  unfold accepted. rewrite emitted_app. unfold emitted at 2. cbn.
  intros E. apply app_eq_nil in E as [_ E]. discriminate.
Qed.

Lemma emit_sound (req : Prop) e d :
  triple (sound req) (emit e d) (fun _ => sound req) no_throw.
Proof.
  intros w Hw. unfold emit. apply wp_bind. unfold wp at 1, log, modify. cbn.
  apply wp_bind. unfold wp at 1, gets. cbn.
  destruct (eventHandlers w !! e) as [hs|] eqn:Ehs.
  - destruct (String.eqb e "auth_success") eqn:Heq.
    + apply String.eqb_eq in Heq. subst e.
      eapply wp_triple;
        [ apply triple_forEach with (I := sound True); intros h _;
          apply deliver_sound; auto
        | | intros a w'; apply sound_accepted_any | auto ].
      destruct Hw as [Hwf Hat Hiv Hhb Hfl Hac Htr Hso].
      constructor; fields; try assumption.
      * intros _. apply accepted_now.
      * rewrite forallb_app, Htr. reflexivity.
    + eapply wp_triple;
        [ apply triple_forEach with (I := sound req); intros h Hin;
          apply deliver_sound
        | solve_sound Hw | auto | auto ].
      intros p t ->.
      assert (Hr : registered_under e (AuthResponse p t) = true).
      { apply (sound_registry _ _ Hw). unfold subscribers. now rewrite Ehs. }
      cbn in Hr. congruence.
  - unfold wp, skip, mret, M_ret. solve_sound Hw.
Qed.

(** ** The methods and callbacks *)

Ltac open_sound Hw :=
  let Hwf := fresh "Hwf" in
  pose proof (sound_registry _ _ Hw) as Hwf; unfold wp.

Ltac split_on x := destruct x eqn:?; crunch.

Lemma attemptReconnect_sound (req : Prop) :
  triple (sound req) attemptReconnect (fun _ => sound req) no_throw.
Proof.
  intros w Hw. open_sound Hw. rewrite attemptReconnect_spec by exact Hwf.
  destruct (maxReconnectAttempts <=? reconnectAttempts w)%Z eqn:Hle.
  - solve_sound Hw.
  - apply Z.leb_gt in Hle. destruct (reconnectTimeout w); cbn; solve_sound Hw.
Qed.

Lemma connect_sound (req : Prop) caller tok :
  triple (sound req) (connect caller tok) (fun _ => sound req) no_throw.
Proof.
  intros w Hw. open_sound Hw. crunch.
  destruct (connectionState w) eqn:Hst; crunch;
    try solve [solve_sound Hw];
    destruct (url_ok w) eqn:Hu; crunch; solve_sound Hw.
Qed.

Lemma disconnect_sound (req : Prop) :
  triple (sound req) disconnect (fun _ => sound req) no_throw.
Proof.
  intros w Hw. open_sound Hw. crunch.
  destruct (heartbeatInterval w) eqn:Hh; crunch;
    destruct (reconnectTimeout w) eqn:Hr; crunch;
    destruct (ws w) eqn:Hs; crunch; solve_sound Hw.
Qed.

Lemma registry_call_sound (req : Prop) c :
  (match c with
   | Reg_on e h => registered_under e h = true
   | Reg_off _ _ => True
   end) ->
  triple (sound req) (registry_call c) (fun _ => sound req) no_throw.
Proof.
  intros Hc w Hw. open_sound Hw. destruct c as [e h|e h]; cbn.
  - rewrite on_spec.
    destruct Hw as [H1 H2 H3 H4 H5 H6 H7 H8].
    constructor; fields; try assumption. now apply wf_reg_on.
  - rewrite off_spec. solve_sound Hw.
Qed.

Lemma onopen_sound (req : Prop) s c :
  triple (sound req) (set_readyState s OPEN;; onopen c) (fun _ => sound req) no_throw.
Proof. intros w Hw. open_sound Hw. crunch. solve_sound Hw. Qed.

Lemma authTimeout_fired_sound (req : Prop) t p :
  triple (sound req) (expire t;; authTimeout_fired p) (fun _ => sound req) no_throw.
Proof.
  intros w Hw. open_sound Hw. crunch.
  destruct (promises w !! p) as [[k []]|]; crunch; solve_sound Hw.
Qed.

Lemma heartbeat_tick_sound (req : Prop) :
  triple (sound req) heartbeat_tick (fun _ => sound req) no_throw.
Proof.
  intros w Hw. open_sound Hw. crunch.
  destruct (authenticated w); crunch; [|solve_sound Hw].
  destruct (ws w) as [s|]; crunch; [|solve_sound Hw].
  destruct (sockets w !! s) as [[[] l]|]; crunch; solve_sound Hw.
Qed.

Lemma onopen_timeout_sound (req : Prop) t c :
  triple (sound req) (expire t;; onopen_timeout c) (fun _ => sound req) no_throw.
Proof.
  intros w Hw. open_sound Hw. crunch.
  destruct (ws w) as [s|] eqn:Hs; crunch.
  - destruct (sockets w !! s) as [[[] l]|] eqn:Hk; crunch;
      try (destruct (promises w !! c) as [[k []]|]; crunch; solve_sound Hw).
    destruct (token w) as [tok|] eqn:Htok; crunch;
      [destruct (String.eqb tok "") eqn:Hempty; crunch|]; solve_sound Hw.
  - destruct (promises w !! c) as [[k []]|]; crunch; solve_sound Hw.
Qed.

Lemma onmessage_sound (req : Prop) data :
  triple (sound req) (onmessage data) (fun _ => sound req) no_throw.
Proof.
  intros w Hw. unfold onmessage. apply wp_try_catch.
  destruct data as [message|].
  - unfold handleMessage. destruct (String.eqb (rsp_type message) "pong").
    + exact Hw.
    + eapply wp_triple; [apply emit_sound|exact Hw|auto|intros e w' []].
  - unfold wp. cbn. solve_sound Hw.
Qed.

Lemma onerror_sound (req : Prop) s c :
  triple (sound req) (set_readyState s CLOSED;; onerror c)
         (fun _ => sound req) no_throw.
Proof.
  intros w Hw. open_sound Hw. crunch.
  destruct (connectionState w) eqn:Hst; crunch; try solve [solve_sound Hw];
    destruct (promises w !! c) as [[k []]|]; crunch; solve_sound Hw.
Qed.

Lemma onclose_sound (req : Prop) s code reason :
  triple (sound req) (set_readyState s CLOSED;; onclose code reason)
         (fun _ => sound req) no_throw.
Proof.
  intros w Hw. open_sound Hw. crunch.
  destruct (heartbeatInterval w) eqn:Hh; crunch;
    destruct (negb (code =? 1000)%Z && authenticated w); crunch;
    try solve [solve_sound Hw];
    destruct (maxReconnectAttempts <=? reconnectAttempts w)%Z eqn:Hle; crunch;
    try solve [solve_sound Hw];
    apply Z.leb_gt in Hle;
    destruct (reconnectTimeout w) eqn:Hr; crunch; solve_sound Hw.
Qed.

Lemma reconnectTimeout_fired_sound (req : Prop) t :
  triple (sound req) (expire t;; reconnectTimeout_fired)
         (fun _ => sound req) no_throw.
Proof.
  intros w Hw. open_sound Hw. crunch.
  destruct (token w) as [tok|] eqn:Htok; crunch; [|solve_sound Hw].
  destruct (String.eqb tok "") eqn:Hempty; crunch; [solve_sound Hw|].
  destruct (connectionState w) eqn:Hst; crunch;
    try solve [solve_sound Hw];
    destruct (url_ok w) eqn:Hu; crunch; solve_sound Hw.
Qed.

Lemma reconnect_failed_sound (req : Prop) :
  triple (sound req) reconnect_failed (fun _ => sound req) no_throw.
Proof.
  intros w Hw. open_sound Hw. crunch.
  destruct (maxReconnectAttempts <=? reconnectAttempts w)%Z eqn:Hle; crunch;
    [solve_sound Hw|].
  apply Z.leb_gt in Hle.
  destruct (reconnectTimeout w) eqn:Hr; crunch; solve_sound Hw.
Qed.

Lemma run_job_sound (req : Prop) j :
  triple (sound req) (run_job j) (fun _ => sound req) no_throw.
Proof.
  destruct j as [p [[]|c]|p [[]|c] e].
  - intros w Hw. open_sound Hw. crunch. solve_sound Hw.
  - intros w Hw. unfold run_job, reconnect_succeeded.
    apply wp_try_catch. apply wp_bind. unfold wp at 1, gets. cbn.
    eapply wp_triple; [apply emit_sound|exact Hw|auto|intros x w' []].
  - intros w Hw. open_sound Hw. crunch.
    destruct (heartbeatInterval w) eqn:Hh; crunch;
      destruct (promises w !! c) as [[k []]|]; crunch; solve_sound Hw.
  - intros w Hw. open_sound Hw. crunch. solve_sound Hw.
  - apply reconnect_failed_sound.
  - intros w Hw. open_sound Hw. crunch.
    destruct (promises w !! c) as [[k []]|]; crunch; solve_sound Hw.
Qed.

Lemma task_sound (req : Prop) w e m :
  task w e = Some m -> triple (sound req) m (fun _ => sound req) no_throw.
Proof.
  unfold task.
  destruct e as [tok| |ev n|ev n|s|s data|s|s code reason|t|];
    try (destruct (listening w s) as [c|]; [|discriminate]);
    try (destruct (timers w !! t) as [[c|p| |]|]; [..|discriminate]);
    cbn; intros [= <-].
  - intros w' Hw'. apply wp_bind.
    eapply wp_triple; [apply connect_sound|exact Hw'|auto|auto].
  - apply disconnect_sound.
  - now apply (registry_call_sound req (Reg_on ev (Consumer n))).
  - now apply (registry_call_sound req (Reg_off ev (Consumer n))).
  - apply onopen_sound.
  - apply onmessage_sound.
  - apply onerror_sound.
  - apply onclose_sound.
  - apply onopen_timeout_sound.
  - apply authTimeout_fired_sound.
  - apply reconnectTimeout_fired_sound.
  - apply heartbeat_tick_sound.
Qed.

Lemma run_sound (req : Prop) m w :
  triple (sound req) m (fun _ => sound req) no_throw ->
  sound req w -> sound req (run m w) /\ exists a, m w = (Normal a, run m w).
Proof.
  intros Hm Hw. specialize (Hm w Hw). unfold wp, run in *.
  destruct (m w) as [[a|e] w']; [|destruct Hm]. split; [exact Hm|eauto].
Qed.

Lemma step_sound w e w' : sound False w -> step w e = Some w' -> sound False w'.
Proof.
  intros Hw. unfold step.
  destruct e; destruct (jobs w) as [|j js] eqn:Hj; try discriminate;
    try (destruct (task w _) as [m|] eqn:Hm; [|discriminate]; cbn;
         intros [= <-]; apply run_sound; [exact (task_sound _ _ _ _ Hm)|exact Hw]).
  intros [= <-]. apply run_sound; [apply run_job_sound|].
  destruct Hw as [H1 H2 H3 H4 H5 H6 H7 H8]. constructor; assumption.
Qed.

Lemma steps_sound es : forall w w',
  sound False w -> steps w es = Some w' -> sound False w'.
Proof.
  induction es as [|e es IH]; intros w w' Hw.
  - rewrite steps_nil. now intros [= <-].
  - rewrite steps_cons. destruct (step w e) as [w1|] eqn:E; [|discriminate].
    cbn. apply IH. exact (step_sound _ _ _ Hw E).
Qed.

Lemma new_client_sound ok f : sound False (new_client ok f).
Proof.
  constructor; cbn; try reflexivity; try (unfold maxReconnectAttempts, maxReconnectInterval; lia).
  - intros e h Hin. unfold subscribers in Hin. cbn in Hin.
    rewrite lookup_empty in Hin. now apply not_elem_of_nil in Hin.
  - intros t Ht. now rewrite lookup_empty in Ht.
  - discriminate.
  - intros [H|[]]. discriminate.
  - intros s [x Hs]. now rewrite lookup_empty in Hs.
Qed.

Lemma reachable_sound w : reachable w -> sound False w.
Proof.
  intros (ok & f & es & H).
  exact (steps_sound es _ _ (new_client_sound ok f) H).
Qed.

(** ** An 'auth_success' frame during a handshake *)

Lemma same_consumers_refl m : same_consumers m m.
Proof. intros e n. tauto. Qed.

Lemma same_consumers_trans m1 m2 m3 :
  same_consumers m1 m2 -> same_consumers m2 m3 -> same_consumers m1 m3.
Proof. intros H1 H2 e n. rewrite (H1 e n). apply H2. Qed.

Lemma same_consumers_off e h m :
  is_consumer h = false -> same_consumers (reg_off e h m) m.
Proof.
  intros Hh e' n. rewrite subscribers_reg_off.
  destruct (decide (e = e')) as [<-|]; [|tauto].
  rewrite elem_of_Set_delete. split; [tauto|].
  intros Hin. split; [|exact Hin]. intros <-. discriminate.
Qed.

Lemma same_consumers_on e h m :
  is_consumer h = false -> same_consumers (reg_on e h m) m.
Proof.
  intros Hh e' n. rewrite subscribers_reg_on.
  destruct (decide (e = e')) as [<-|]; [|tauto].
  rewrite elem_of_Set_add. split; [|tauto].
  intros [<-|Hin]; [discriminate|exact Hin].
Qed.

Lemma is_call_delivery f e d h : forallb is_call (delivery f e d h) = true.
Proof. destruct h as [n| |]; cbn; [destruct (f n d)|..]; reflexivity. Qed.

Lemma calls_only_silent tr :
  forallb is_call tr = true ->
  scheduled_delays tr = [] /\ connections tr = [] /\ sent tr = []
  /\ resolutions tr = [] /\ rejections tr = []
  /\ (forall e, emitted e tr = []).
Proof.
  unfold scheduled_delays, connections, sent, resolutions, rejections, emitted.
  induction tr as [|a tr IH]; [repeat split|].
  cbn [forallb]. intros H. apply andb_prop in H as [Ha H].
  destruct (IH H) as (H1 & H2 & H3 & H4 & H5 & H6).
  destruct a; try discriminate; cbn; repeat split; auto.
Qed.

Lemma sub_registry_off_mono e h m' m :
  sub_registry m' m -> sub_registry (reg_off e h m') (reg_off e h m).
Proof.
  intros H e' x. rewrite !subscribers_reg_off.
  destruct (decide (e = e')) as [<-|]; [|apply H].
  rewrite !elem_of_Set_delete. intros [Hne Hin]. split; [exact Hne|now apply H].
Qed.

(** Registering the two listeners of a handshake and removing them
    again leaves nothing behind. *)
Lemma sub_registry_off_on e1 h1 e2 h2 m :
  sub_registry (reg_off e2 h2 (reg_off e1 h1 (reg_on e2 h2 (reg_on e1 h1 m)))) m.
Proof.
  intros e x.
  rewrite subscribers_reg_off. destruct (decide (e2 = e)) as [<-|N2].
  - rewrite elem_of_Set_delete, subscribers_reg_off.
    destruct (decide (e1 = e2)) as [<-|N1].
    + rewrite elem_of_Set_delete, subscribers_reg_on, decide_True by reflexivity.
      rewrite elem_of_Set_add, subscribers_reg_on, decide_True by reflexivity.
      rewrite elem_of_Set_add. tauto.
    + rewrite subscribers_reg_on, decide_True by reflexivity.
      rewrite elem_of_Set_add, subscribers_reg_on, decide_False by exact N1.
      tauto.
  - rewrite subscribers_reg_off. destruct (decide (e1 = e)) as [<-|N1].
    + rewrite elem_of_Set_delete, subscribers_reg_on, decide_False by exact N2.
      rewrite subscribers_reg_on, decide_True by reflexivity.
      rewrite elem_of_Set_add. tauto.
    + rewrite subscribers_reg_on, decide_False by exact N2.
      rewrite subscribers_reg_on, decide_False by exact N1. tauto.
Qed.

(** A listener left over from a finished handshake marks the client
    authenticated again and resolves a promise that is settled already. *)
Lemma deliver_stale_success eventType data p t w :
  settled_in (promises w) p = true ->
  try_catch (call (AuthResponse p t) data)
            (fun error => log (Caught eventType error)) w
  = (Normal tt,
     set_connectionState State.authenticated
       (set_authenticated true
          (set_eventHandlers
             (reg_off "auth_error" (AuthError p t)
                (reg_off "auth_success" (AuthResponse p t) (eventHandlers w)))
             (set_timers (delete t (timers w))
                (set_trace (trace w ++ [Called (AuthResponse p t) data; ClearTimeout t]) w))))).
Proof.
  intros Hs. unfold call, handleAuthResponse, resolve, clearTimeout. exec.
  rewrite !off_spec. exec. rewrite settle_spec. exec.
  unfold settled_in in Hs.
  destruct (promises w !! p) as [[k []]|]; try discriminate.
  now rewrite <- app_assoc.
Qed.

Lemma forEach_idle_success eventType data hs : forall w,
  forallb (idle_success_listener (promises w)) hs = true ->
  exists m tm tr st au,
    forEach (fun handler =>
               try_catch (call handler data)
                         (fun error => log (Caught eventType error))) hs w
    = (Normal tt,
       set_connectionState st
         (set_authenticated au
            (set_eventHandlers m (set_timers tm (set_trace (trace w ++ tr) w)))))
    /\ sub_registry m (eventHandlers w)
    /\ same_consumers m (eventHandlers w)
    /\ (forall t k, tm !! t = Some k -> timers w !! t = Some k)
    /\ forallb is_call tr = true.
Proof.
  induction hs as [|h hs IH]; intros w Hi.
  - exists (eventHandlers w), (timers w), [], (connectionState w), (authenticated w).
    split; [|split; [|split; [|split]]].
    + cbn. rewrite app_nil_r. now destruct w.
    + apply sub_registry_refl.
    + apply same_consumers_refl.
    + auto.
    + reflexivity.
  - cbn in Hi. apply andb_prop in Hi as [Hh Hi].
    cbn [forEach]. destruct h as [n|p t|p t]; [| |discriminate].
    + erewrite bind_normal by apply deliver_consumer.
      destruct (IH (set_trace (trace w ++ delivery (consumer w) eventType data (Consumer n)) w) Hi)
        as (m & tm & tr & st & au & E & Hm & Hc & Htm & Htr).
      exists m, tm, (delivery (consumer w) eventType data (Consumer n) ++ tr), st, au.
      split; [|split; [|split; [|split]]]; try assumption.
      * rewrite E. cbn. now rewrite <- app_assoc.
      * now rewrite forallb_app, is_call_delivery.
    + erewrite bind_normal by (apply deliver_stale_success; exact Hh).
      match goal with |- context [forEach _ hs ?W] =>
        destruct (IH W Hi) as (m & tm & tr & st & au & E & Hm & Hc & Htm & Htr) end.
      exists m, tm, ([Called (AuthResponse p t) data; ClearTimeout t] ++ tr), st, au.
      split; [|split; [|split; [|split]]].
      * rewrite E. cbn. now rewrite <- app_assoc.
      * eapply sub_registry_trans; [exact Hm|]. cbn.
        eapply sub_registry_trans; apply sub_registry_off.
      * eapply same_consumers_trans; [exact Hc|]. cbn.
        eapply same_consumers_trans; now apply same_consumers_off.
      * intros t' k Hk. apply Htm in Hk. cbn in Hk.
        now apply lookup_delete_Some in Hk as [_ Hk].
      * now rewrite forallb_app, Htr.
Qed.

(** The listener of the handshake in flight resolves its promise. *)
Lemma deliver_pending_success eventType data p t c w :
  promises w !! p = Some {| kind := AuthPromise c; settled := false |} ->
  try_catch (call (AuthResponse p t) data)
            (fun error => log (Caught eventType error)) w
  = (Normal tt,
     set_jobs
       (jobs w ++ [Fulfilled p (AuthPromise c)])
       (set_promises
          (<[p := {| kind := AuthPromise c; settled := true |}]> (promises w))
          (set_connectionState State.authenticated
             (set_authenticated true
                (set_eventHandlers
                   (reg_off "auth_error" (AuthError p t)
                      (reg_off "auth_success" (AuthResponse p t) (eventHandlers w)))
                   (set_timers (delete t (timers w))
                      (set_trace
                         (trace w ++ [Called (AuthResponse p t) data; ClearTimeout t])
                         w))))))).
Proof.
  intros Hp. unfold call, handleAuthResponse, resolve, clearTimeout. exec.
  rewrite !off_spec. exec. rewrite settle_spec. exec. rewrite Hp.
  now rewrite <- app_assoc.
Qed.

(** The 'auth_success' emission during a handshake: listeners left over
    from earlier handshakes run first, then the handshake's own listener
    marks the client authenticated and resolves its promise. *)
Lemma emit_accepted w data p ta c hs :
  subscribers (eventHandlers w) "auth_success" = hs ++ [AuthResponse p ta] ->
  forallb (idle_success_listener (promises w)) hs = true ->
  promises w !! p = Some {| kind := AuthPromise c; settled := false |} ->
  exists m tm tr,
    emit "auth_success" data w
    = (Normal tt,
       set_jobs
         (jobs w ++ [Fulfilled p (AuthPromise c)])
         (set_promises
            (<[p := {| kind := AuthPromise c; settled := true |}]> (promises w))
            (set_connectionState State.authenticated
               (set_authenticated true
                  (set_eventHandlers m
                     (set_timers tm
                        (set_trace (trace w ++ Emit "auth_success" data :: tr) w)))))))
    /\ sub_registry m
         (reg_off "auth_error" (AuthError p ta)
            (reg_off "auth_success" (AuthResponse p ta) (eventHandlers w)))
    /\ same_consumers m (eventHandlers w)
    /\ (forall t k, tm !! t = Some k -> timers w !! t = Some k /\ t <> ta)
    /\ forallb is_call tr = true.
Proof.
  intros Hsub Hidle Hp. unfold emit.
  erewrite bind_normal by reflexivity.
  erewrite bind_normal by reflexivity.
  unfold subscribers in Hsub. cbn [eventHandlers set_trace].
  destruct (eventHandlers w !! "auth_success") as [l|] eqn:E;
    [|now destruct hs]. cbn in Hsub. subst l.
  rewrite forEach_app.
  destruct (forEach_idle_success "auth_success" data hs
              (set_trace (trace w ++ [Emit "auth_success" data]) w) Hidle)
    as (m1 & tm1 & tr1 & st & au & E1 & Hm1 & Hc1 & Htm1 & Htr1).
  erewrite bind_normal by exact E1. cbn [forEach].
  erewrite bind_normal by (apply deliver_pending_success; exact Hp).
  exists (reg_off "auth_error" (AuthError p ta)
            (reg_off "auth_success" (AuthResponse p ta) m1)),
         (delete ta tm1),
         (tr1 ++ [Called (AuthResponse p ta) data; ClearTimeout ta]).
  split; [|split; [|split; [|split]]].
  - unfold skip, mret, M_ret. fields. now rewrite <- !app_assoc.
  - now apply sub_registry_off_mono, sub_registry_off_mono.
  - eapply same_consumers_trans; [now apply same_consumers_off|].
    eapply same_consumers_trans; [now apply same_consumers_off|]. exact Hc1.
  - intros t k Hk. apply lookup_delete_Some in Hk as [Hne Hk].
    split; [now apply Htm1|auto].
  - now rewrite forallb_app, Htr1.
Qed.

Lemma success_listeners_before_handshake w p ta k1 :
  wf_registry (eventHandlers w) -> handshake_idle w -> fresh_ids w ->
  fresh w <= p ->
  (AuthResponse p ta ∉ subscribers (eventHandlers w) "auth_success")
  /\ forallb (idle_success_listener (<[p := k1]> (promises w)))
             (subscribers (eventHandlers w) "auth_success") = true.
Proof.
  intros Hwf Hidle Hfr Hp.
  assert (Hold : forall q t, AuthResponse q t ∈ subscribers (eventHandlers w) "auth_success" ->
                   settled_in (promises w) q = true /\ q < fresh w).
  { intros q t Hin. pose proof (Hidle _ _ Hin) as Hs. cbn in Hs.
    split; [exact Hs|]. apply Hfr. unfold settled_in in Hs.
    destruct (promises w !! q); [eauto|discriminate]. }
  split.
  - intros Hin. apply Hold in Hin as [_ Hlt]. lia.
  - apply forallb_forall. intros h Hin. apply list_elem_of_In in Hin.
    pose proof (Hwf _ _ Hin) as Hr.
    destruct h as [n|q t|q t]; [reflexivity| |discriminate].
    apply Hold in Hin as [Hs Hlt]. cbn. unfold settled_in.
    rewrite !lookup_insert_ne by lia. exact Hs.
Qed.

Lemma sent_app a b : sent (a ++ b) = sent a ++ sent b.
Proof. apply omap_app. Qed.

Lemma resolutions_app a b : resolutions (a ++ b) = resolutions a ++ resolutions b.
Proof. apply omap_app. Qed.

Lemma rejections_app a b : rejections (a ++ b) = rejections a ++ rejections b.
Proof. apply omap_app. Qed.

Lemma sent_cons a l : sent (a :: l) = sent [a] ++ sent l.
Proof. exact (sent_app [a] l). Qed.

Lemma resolutions_cons a l : resolutions (a :: l) = resolutions [a] ++ resolutions l.
Proof. exact (resolutions_app [a] l). Qed.

Lemma rejections_cons a l : rejections (a :: l) = rejections [a] ++ rejections l.
Proof. exact (rejections_app [a] l). Qed.

Lemma scheduled_delays_cons a l :
  scheduled_delays (a :: l) = scheduled_delays [a] ++ scheduled_delays l.
Proof. exact (scheduled_delays_app [a] l). Qed.

Lemma connections_cons a l : connections (a :: l) = connections [a] ++ connections l.
Proof. exact (connections_app [a] l). Qed.

Lemma emitted_cons e a l : emitted e (a :: l) = emitted e [a] ++ emitted e l.
Proof. exact (emitted_app e [a] l). Qed.

Lemma calls_only_notify f m e d tr :
  tr = notify f m e d ->
  scheduled_delays tr = [] /\ connections tr = [] /\ sent tr = []
  /\ resolutions tr = [] /\ rejections tr = [].
Proof.
  intros ->. Transparent notify. unfold notify. Opaque notify.
  change (Emit e d :: ?l) with ([Emit e d] ++ l).
  assert (H : forallb is_call (flat_map (delivery f e d) (subscribers m e)) = true).
  { induction (subscribers m e) as [|h hs IH]; [reflexivity|].
    cbn [flat_map]. now rewrite forallb_app, is_call_delivery. }
  destruct (calls_only_silent _ H) as (H1 & H2 & H3 & H4 & H5 & _).
  rewrite scheduled_delays_app, connections_app, sent_app, resolutions_app,
    rejections_app, H1, H2, H3, H4, H5.
  repeat split.
Qed.

#[local] Arguments sent : simpl never.
#[local] Arguments resolutions : simpl never.
#[local] Arguments rejections : simpl never.

Lemma handshake_accepted_spec caller message w1 w' s r c tok :
  jobs w1 = [] -> ws w1 = Some s ->
  sockets w1 !! s = Some {| readyState := r; listeners := Some c |} ->
  token w1 = Some tok -> String.eqb tok "" = false ->
  promises w1 !! c = Some {| kind := ConnectPromise caller; settled := false |} ->
  wf_registry (eventHandlers w1) -> handshake_idle w1 -> fresh_ids w1 ->
  rsp_type message = "auth_success" ->
  handshake_accepted message w1 = Some w' ->
  session_established caller c s tok w1 w'.
Proof.
  intros Hj Hs Hk Htok Hne Hc Hwf Hidle Hfr Hm H.
  assert (Hlt : c < fresh w1) by (apply Hfr; rewrite Hc; eauto).
  unfold handshake_accepted in H. rewrite Hs in H. cbn [mbind option_bind] in H.
  step_in H. unfold latest in H. cbn in H. step_in H.
  destruct (success_listeners_before_handshake w1 (S (fresh w1)) (S (S (fresh w1)))
              {| kind := AuthPromise c; settled := false |} Hwf Hidle Hfr)
    as [Hnew Hold]; [lia|].
  match type of H with
  | context [steps ?W _] =>
      destruct (emit_accepted W (or_else (rsp_data message) (frame_object message))
                  (S (fresh w1)) (S (S (fresh w1))) c
                  (subscribers (eventHandlers w1) "auth_success"))
        as (m' & tm & tr & Hemit & Hsub & Hcons & Htm & Htr)
  end.
  { cbn [eventHandlers].
    rewrite subscribers_reg_on, decide_False by discriminate.
    rewrite subscribers_reg_on, decide_True by reflexivity.
    unfold Set_add. now rewrite decide_False by exact Hnew. }
  { exact Hold. }
  { cbn. apply lookup_insert_eq. }
  assert (Hsub' : sub_registry m' (eventHandlers w1)).
  { eapply sub_registry_trans; [exact Hsub|]. cbn [eventHandlers].
    apply sub_registry_off_on. }
  assert (Hwf' : wf_registry m') by (eapply wf_sub_registry; eassumption).
  assert (Hcons' : same_consumers m' (eventHandlers w1)).
  { eapply same_consumers_trans; [exact Hcons|]. cbn [eventHandlers].
    eapply same_consumers_trans; now apply same_consumers_on. }
  clear Hsub Hcons.
  step_with H ltac:(rewrite ?Hemit). clear Hemit. cbn in Htm.
  destruct (calls_only_silent _ Htr) as (T1 & T2 & T3 & T4 & T5 & T6).
  assert (Htimers : forall t k, tm !! t = Some k -> timers w1 !! t = Some k).
  { intros t k Ht. apply Htm in Ht as [Ht Hne'].
    rewrite lookup_insert_ne in Ht by auto.
    apply lookup_delete_Some in Ht as [? Ht].
    rewrite lookup_insert_ne in Ht by assumption. exact Ht. }
  set (data := or_else (rsp_data message) (frame_object message)) in *.
  assert (S1 : scheduled_delays (Emit "auth_success" data :: tr) = [])
    by (rewrite scheduled_delays_cons, T1; reflexivity).
  assert (S2 : connections (Emit "auth_success" data :: tr) = [])
    by (rewrite connections_cons, T2; reflexivity).
  assert (S3 : sent (Emit "auth_success" data :: tr) = [])
    by (rewrite sent_cons, T3; reflexivity).
  assert (S4 : resolutions (Emit "auth_success" data :: tr) = [])
    by (rewrite resolutions_cons, T4; reflexivity).
  assert (S5 : rejections (Emit "auth_success" data :: tr) = [])
    by (rewrite rejections_cons, T5; reflexivity).
  assert (S6 : emitted "reconnected" (Emit "auth_success" data :: tr) = [])
    by (rewrite emitted_cons, T6; reflexivity).
  destruct (heartbeatInterval w1) as [hb|] eqn:Hh; step_with H idtac;
    (destruct caller;
     [ step_with H idtac
     | step_with H ltac:(rewrite ?emit_consumers
                           by (apply wf_consumers; [exact Hwf'|reflexivity])) ]);
    finish_in H; unfold session_established; fields.
  all: split; [reflexivity|]. all: split; [reflexivity|].
  all: split; [reflexivity|]. all: split; [reflexivity|].
  all: split; [reflexivity|]. all: split; [reflexivity|].
  all: split; [eexists; split; [reflexivity|apply lookup_insert_eq]|].
  all: split; [exact Hsub'|]. all: split; [exact Hcons'|].
  all: try destruct (calls_only_notify (consumer w1) m' "reconnected"
                  (JObj [("attempts", JNum 0)]) _ eq_refl)
         as (N1 & N2 & N3 & N4 & N5).
  all: rewrite ?sent_app, ?scheduled_delays_app, ?connections_app,
         ?rejections_app, ?resolutions_app, ?emitted_app, ?emitted_notify,
         ?S1, ?S2, ?S3, ?S4, ?S5, ?S6, ?N1, ?N2, ?N3, ?N4, ?N5.
  all: unfold sent, scheduled_delays, connections, rejections, resolutions,
         emitted; cbn; rewrite ?app_nil_r.
  all: repeat (split; [reflexivity|]).
  all: try (split; [|reflexivity]).
  all: intros t k Ht; rewrite lookup_insert in Ht;
       destruct (decide _) as [<-|]; [left; reflexivity|right];
       try (apply lookup_delete_Some in Ht as [? Ht]); now apply Htimers.
Qed.

(** With no handshake in flight, a registry within the present one holds
    no listener of a handshake that starts from here: the promise of
    such a listener is not created yet. *)
Lemma no_new_listeners w m :
  handshake_idle w -> fresh_ids w -> sub_registry m (eventHandlers w) ->
  forall eventType q t, fresh w <= q ->
    (AuthResponse q t ∉ subscribers m eventType)
    /\ (AuthError q t ∉ subscribers m eventType).
Proof.
  intros Hidle Hfr Hsub eventType q t Hq.
  assert (Hold : forall h, h ∈ subscribers m eventType ->
                   h = AuthResponse q t \/ h = AuthError q t -> False).
  { intros h Hin Hh. apply Hsub, Hidle in Hin.
    assert (Hs : settled_in (promises w) q = true)
      by (destruct Hh as [->| ->]; exact Hin).
    unfold settled_in in Hs.
    destruct (promises w !! q) eqn:E; [|discriminate].
    assert (q < fresh w) by (apply Hfr; eauto). lia. }
  split; intros Hin; eapply Hold; eauto.
Qed.

(** * Properties of every run *)

Lemma allowed_in tr a : forallb allowed tr = true -> a ∈ tr -> allowed a = true.
Proof.
  intros H Hin. rewrite forallb_forall in H. now apply H, list_elem_of_In.
Qed.

(** X1. No exception escapes the client: in every world it reaches, every
    public method and every transport or timer callback that can run,
    and every promise reaction, returns normally, and the host has
    recorded no uncaught exception. *)
Theorem no_exception_escapes (w : World) :
  reachable w ->
  (forall x, Uncaught x ∉ trace w)
  /\ (forall e m, task w e = Some m -> exists w', m w = (Normal tt, w'))
  /\ (forall j, exists w', run_job j w = (Normal tt, w')).
Proof.
  intros Hr. pose proof (reachable_sound _ Hr) as Hw. split; [|split].
  - intros x Hin. apply (allowed_in _ _ (sound_trace _ _ Hw)) in Hin. discriminate.
  - intros e m Hm.
    destruct (run_sound _ _ _ (task_sound False _ _ _ Hm) Hw) as [_ [[] E]]. eauto.
  - intros j.
    destruct (run_sound _ _ _ (run_job_sound False j) Hw) as [_ [[] E]]. eauto.
Qed.

(** X2. The backoff is bounded in every run: the attempt counter stays
    within 0..10, the interval within 1000..30000 ms, and every reconnect
    timer that was ever set has a delay within 1000..30000 ms. *)
Theorem backoff_stays_bounded (w : World) :
  reachable w ->
  (0 <= reconnectAttempts w <= 10)%Z
  /\ (1000 <= reconnectInterval w <= 30000)%Z
  /\ (forall d, d ∈ scheduled_delays (trace w) -> (1000 <= d <= 30000)%Z).
Proof.
  intros Hr. destruct (reachable_sound _ Hr) as [_ Hat Hiv _ _ _ Htr _].
  split; [exact Hat|]. split; [exact Hiv|].
  intros d Hd. unfold scheduled_delays in Hd.
  apply list_elem_of_omap in Hd as (a & Hin & Ha).
  apply (allowed_in _ _ Htr) in Hin.
  destruct a as [| | | |t k ms| | | | | | | | | |]; try discriminate.
  destruct k; try discriminate. injection Ha as ->. cbn in Hin.
  apply andb_prop in Hin as [H1 H2].
  apply Z.leb_le in H1, H2. unfold maxReconnectInterval in H2. lia.
Qed.

(** X3. At most one heartbeat interval is pending, the one the client
    holds in [heartbeatInterval]; and every interval the client ever
    started is the heartbeat, with a period of 25000 ms. *)
Theorem heartbeat_is_unique (w : World) :
  reachable w ->
  (forall t, timers w !! t = Some HeartbeatTimer -> heartbeatInterval w = Some t)
  /\ (forall t1 t2, timers w !! t1 = Some HeartbeatTimer ->
                    timers w !! t2 = Some HeartbeatTimer -> t1 = t2)
  /\ (forall t k ms, SetInterval t k ms ∈ trace w ->
                     k = HeartbeatTimer /\ ms = 25000%Z).
Proof.
  intros Hr. destruct (reachable_sound _ Hr) as [_ _ _ Hhb _ _ Htr _].
  split; [exact Hhb|]. split.
  - intros t1 t2 H1 H2. apply Hhb in H1, H2. congruence.
  - intros t k ms Hin. apply (allowed_in _ _ Htr) in Hin.
    destruct k; try discriminate. split; [reflexivity|]. now apply Z.eqb_eq.
Qed.

(** X4. At most one reconnect timer is pending, the one the client holds in
    [reconnectTimeout]. *)
Theorem reconnect_timer_is_unique (w : World) (t1 t2 : nat) :
  reachable w ->
  timers w !! t1 = Some ReconnectTimer ->
  timers w !! t2 = Some ReconnectTimer ->
  t1 = t2 /\ reconnectTimeout w = Some t1.
Proof.
  intros Hr H1 H2. destruct (reachable_invariant _ Hr) as (_ & _ & Htr).
  pose proof (Htr _ H1) as E1. pose proof (Htr _ H2) as E2.
  split; [congruence|exact E1].
Qed.

(** X5. What the client puts on the wire: a frame it sends is a ping or
    the auth frame with a non-empty token (never subscribe or
    unsubscribe), and it closes a transport only with code 1000 and the
    reason 'User initiated disconnect'. *)
Theorem outbound_traffic (w : World) :
  reachable w ->
  (forall s m, WsSend s m ∈ trace w ->
     msg_type m = ping
     \/ (msg_type m = auth /\ exists tok, msg_token m = Some tok /\ tok <> ""))
  /\ (forall s code reason, WsClose s code reason ∈ trace w ->
        code = 1000%Z /\ reason = "User initiated disconnect").
Proof.
  intros Hr. destruct (reachable_sound _ Hr) as [_ _ _ _ _ _ Htr _]. split.
  - intros s m Hin. apply (allowed_in _ _ Htr) in Hin. cbn in Hin.
    unfold frame_allowed in Hin. destruct (msg_type m); try discriminate; auto.
    right. split; [reflexivity|].
    destruct (msg_token m) as [tok|]; [|discriminate]. exists tok.
    split; [reflexivity|]. intros ->. discriminate.
  - intros s code reason Hin. apply (allowed_in _ _ Htr) in Hin. cbn in Hin.
    apply andb_prop in Hin as [H1 H2]. split.
    + now apply Z.eqb_eq.
    + now apply String.eqb_eq.
Qed.

(** X6. [isConnected] answers true only when the [authenticated] flag is
    set and an 'auth_success' event has been dispatched. *)
Theorem connected_means_accepted (w : World) :
  reachable w ->
  isConnected w = true ->
  authenticated w = true /\ emitted "auth_success" (trace w) <> [].
Proof.
  intros Hr Hc. destruct (reachable_sound _ Hr) as [_ _ _ _ Hfl Hac _ _].
  assert (Hs : connectionState w = State.authenticated).
  { unfold isConnected in Hc. destruct (connectionState w); try discriminate. reflexivity. }
  split; [now apply Hfl|]. apply Hac. now left.
Qed.

(** * Connecting *)

Ltac read_trace :=
  rewrite ?sent_app, ?scheduled_delays_app, ?connections_app,
    ?rejections_app, ?resolutions_app, ?emitted_app, ?emitted_notify,
    ?scheduled_delays_notify, ?connections_notify;
  unfold sent, scheduled_delays, connections, rejections, resolutions,
    emitted; cbn; rewrite ?app_nil_r.

(** X7. A connect that the server accepts.  From a reachable world in
    which no handshake is in flight and the client is neither connected
    nor authenticated, [connect(tok)] with a non-empty token, followed by
    the open event, the 100 ms delay, an 'auth_success' frame and the two
    promise reactions, resolves the promise of [connect]; the client is
    then authenticated, one auth frame carrying [tok] has been sent on
    the new transport, the heartbeat interval is pending, the backoff is
    at its initial values, the registry holds no listener of this
    handshake and nothing that it did not hold before, and the
    consumers' subscriptions are as before. *)
Theorem connect_succeeds (tok : string) (message : WSResponse) (w w' : World) :
  reachable w ->
  handshake_idle w ->
  url_ok w = true ->
  tok <> "" ->
  State.eqb (connectionState w) State.connected
  || State.eqb (connectionState w) State.authenticated = false ->
  rsp_type message = "auth_success" ->
  accepted_connect tok message w = Some w' ->
  isConnected w' = true
  /\ authenticated w' = true
  /\ ws w' = Some (S (fresh w))
  /\ reconnectAttempts w' = 0%Z
  /\ reconnectInterval w' = 1000%Z
  /\ (exists t, heartbeatInterval w' = Some t
                /\ timers w' !! t = Some HeartbeatTimer)
  /\ sub_registry (eventHandlers w') (eventHandlers w)
  /\ same_consumers (eventHandlers w') (eventHandlers w)
  /\ connections (trace w') = connections (trace w) ++ [S (fresh w)]
  /\ sent (trace w') = sent (trace w) ++ [auth_frame tok]
  /\ resolutions (trace w') = resolutions (trace w) ++ [fresh w]
  /\ rejections (trace w') = rejections (trace w)
  /\ scheduled_delays (trace w') = scheduled_delays (trace w)
  /\ (forall t k, timers w' !! t = Some k ->
                  heartbeatInterval w' = Some t \/ timers w !! t = Some k)
  /\ (forall eventType q t, fresh w <= q ->
        (AuthResponse q t ∉ subscribers (eventHandlers w') eventType)
        /\ (AuthError q t ∉ subscribers (eventHandlers w') eventType)).
Proof.
  intros Hr Hidle Hu Htok Hst Hm H.
  destruct (reachable_invariant _ Hr) as (Hwf & Hfr & _).
  unfold accepted_connect in H.
  destruct (step w (Call_connect tok)) as [w1|] eqn:E1; [|discriminate].
  cbn [mbind option_bind] in H.
  assert (Hj : jobs w = []) by (now apply (step_needs_empty_queue _ _ _ E1)).
  assert (Hne : String.eqb tok "" = false) by (now apply String.eqb_neq).
  assert (Hnone : promises w !! fresh w = None).
  { destruct (promises w !! fresh w) eqn:E; [|reflexivity].
    assert (fresh w < fresh w) by (apply Hfr; eauto). lia. }
  step_in E1. injection E1 as <-.
  match type of H with
  | handshake_accepted _ ?W = _ =>
      assert (Hest : session_established Outside (fresh w) (S (fresh w)) tok W w')
  end.
  { eapply handshake_accepted_spec with (r := CONNECTING); [..|exact H].
    - exact Hj.
    - reflexivity.
    - cbn. rewrite lookup_alter_eq, lookup_insert_eq. reflexivity.
    - reflexivity.
    - exact Hne.
    - cbn. apply lookup_insert_eq.
    - exact Hwf.
    - intros e h Hin. cbn in Hin |- *. pose proof (Hidle _ _ Hin) as Hi.
      destruct h as [n|p t|p t]; [reflexivity|..]; cbn in Hi |- *;
        unfold settled_in in *; rewrite lookup_insert;
        destruct (decide (fresh w = p)) as [<-|]; try exact Hi;
        now rewrite Hnone in Hi.
    - intros p Hp. cbn in Hp |- *. rewrite lookup_insert in Hp.
      destruct (decide (fresh w = p)) as [<-|]; [lia|].
      apply Hfr in Hp. lia.
    - exact Hm. }
  clear H. destruct Hest as (H1 & H2 & H3 & H4 & H5 & H6 & H7 & H8 & H9 & H10 & H11
                   & H12 & H13 & H14 & H15).
  cbn in H8, H9, H10, H11, H12, H13, H14, H15.
  unfold isConnected. rewrite H1.
  repeat (split; [first [reflexivity|assumption]|]).
  split; [rewrite H12; read_trace; reflexivity|].
  split; [rewrite H10; read_trace; reflexivity|].
  split; [rewrite H15; read_trace; reflexivity|].
  split; [rewrite H13; read_trace; reflexivity|].
  split; [rewrite H11; read_trace; reflexivity|].
  split; [exact H14|]. now apply (no_new_listeners w).
Qed.

(** X8. A reconnect attempt that the server accepts.  When the pending
    reconnect timer fires, the transport opens and the server accepts
    the token, the client is authenticated again with the heartbeat
    running and no reconnect timer left, and 'reconnected' is emitted
    with [attempts: 0], whatever the number of attempts that were made:
    the open callback has reset the counter before the notification
    reads it. *)
Theorem reconnect_reports_zero_attempts (message : WSResponse) (w w' : World) :
  armed w ->
  url_ok w = true ->
  rsp_type message = "auth_success" ->
  accepted_attempt message w = Some w' ->
  isConnected w' = true
  /\ authenticated w' = true
  /\ reconnectAttempts w' = 0%Z
  /\ reconnectInterval w' = 1000%Z
  /\ (exists t, heartbeatInterval w' = Some t
                /\ timers w' !! t = Some HeartbeatTimer)
  /\ (forall t, timers w' !! t <> Some ReconnectTimer)
  /\ emitted "reconnected" (trace w')
     = emitted "reconnected" (trace w) ++ [JObj [("attempts", JNum 0)]]
  /\ sent (trace w') = sent (trace w) ++ [auth_frame (default "" (token w))]
  /\ scheduled_delays (trace w') = scheduled_delays (trace w).
Proof.
  intros [[Hj Htok Ha Hhb Hst Hwf Hidle Hfr Htr] (t & Hr & Ht)] Hu Hm H.
  destruct (token w) as [tok|] eqn:Etok; [|discriminate]. cbn in Htok.
  apply negb_true_iff in Htok.
  assert (Hnone : promises w !! fresh w = None).
  { destruct (promises w !! fresh w) eqn:E; [|reflexivity].
    assert (fresh w < fresh w) by (apply Hfr; eauto). lia. }
  unfold accepted_attempt in H. rewrite Hr in H. cbn [mbind option_bind] in H.
  destruct (step w (Timer_fires t)) as [w1|] eqn:E1; [|discriminate].
  cbn [mbind option_bind] in H.
  step_in E1. injection E1 as <-.
  match type of H with
  | handshake_accepted _ ?W = _ =>
      assert (Hest : session_established Scheduler (fresh w) (S (fresh w)) tok W w')
  end.
  { eapply handshake_accepted_spec with (r := CONNECTING); [..|exact H].
    - exact Hj.
    - reflexivity.
    - cbn. rewrite lookup_alter_eq, lookup_insert_eq. reflexivity.
    - reflexivity.
    - exact Htok.
    - cbn. apply lookup_insert_eq.
    - exact Hwf.
    - intros e h Hin. cbn in Hin |- *. pose proof (Hidle _ _ Hin) as Hi.
      destruct h as [n|p x|p x]; [reflexivity|..]; cbn in Hi |- *;
        unfold settled_in in *; rewrite lookup_insert;
        destruct (decide (fresh w = p)) as [<-|]; try exact Hi;
        now rewrite Hnone in Hi.
    - intros p Hp. cbn in Hp |- *. rewrite lookup_insert in Hp.
      destruct (decide (fresh w = p)) as [<-|]; [lia|].
      apply Hfr in Hp. lia.
    - exact Hm. }
  clear H. destruct Hest as (H1 & H2 & H3 & H4 & H5 & H6 & H7 & H8 & H9 & H10 & H11
                   & H12 & H13 & H14 & H15).
  cbn in H10, H11, H14, H15.
  unfold isConnected. rewrite H1.
  repeat (split; [first [reflexivity|assumption]|]).
  split.
  { intros x Hx. destruct H7 as (hb & Hhb1 & Hhb2).
    destruct (H14 _ _ Hx) as [E|Hx']; [congruence|].
    apply lookup_delete_Some in Hx' as [Hne Hx'].
    apply Htr in Hx'. congruence. }
  split; [rewrite H15; read_trace; reflexivity|].
  split; [rewrite H10; read_trace; reflexivity|].
  rewrite H11; read_trace; reflexivity.
Qed.

(** * Edge cases of [connect], and events that change nothing *)

(** X9. [connect] with an empty token is not refused at once: a transport is
    created and opened, and after the 100 ms delay the promise rejects
    with 'No token or connection available for authentication'.  No
    frame is sent and no listener is registered; the client keeps the
    open transport and stays in the state 'connected'. *)
Theorem empty_token_rejected_after_open (w w' : World) :
  reachable w ->
  url_ok w = true ->
  State.eqb (connectionState w) State.connected
  || State.eqb (connectionState w) State.authenticated = false ->
  opened_connect "" w = Some w' ->
  rejections (trace w')
  = rejections (trace w)
    ++ [(fresh w, Error (JStr "No token or connection available for authentication"))]
  /\ resolutions (trace w') = resolutions (trace w)
  /\ sent (trace w') = sent (trace w)
  /\ connections (trace w') = connections (trace w) ++ [S (fresh w)]
  /\ eventHandlers w' = eventHandlers w
  /\ getConnectionState w' = "connected"
  /\ ws w' = Some (S (fresh w))
  /\ heartbeatInterval w' = heartbeatInterval w
  /\ jobs w' = [].
Proof.
  intros Hr Hu Hst H.
  destruct (reachable_invariant _ Hr) as (Hwf & Hfr & _).
  unfold opened_connect in H.
  destruct (step w (Call_connect "")) as [w1|] eqn:E1; [|discriminate].
  cbn [mbind option_bind] in H.
  assert (Hj : jobs w = []) by (now apply (step_needs_empty_queue _ _ _ E1)).
  step_in E1. injection E1 as <-. cbn in H. rewrite ?Hj in H.
  step_in H. unfold latest in H. cbn in H.
  step_with H idtac. step_with H idtac. step_with H idtac. finish_in H. cbn.
  unfold getConnectionState. cbn.
  repeat (split; [first [reflexivity|read_trace; reflexivity]|]). reflexivity.
Qed.

(** X10. [connect] on a client that is connected or authenticated resolves
    and does nothing else: no transport is created, nothing is sent, and
    the token passed is dropped (the stored token stays). *)
Theorem connect_when_connected_resolves (tok : string) (w w' : World) :
  State.eqb (connectionState w) State.connected
  || State.eqb (connectionState w) State.authenticated = true ->
  steps w [Call_connect tok; Microtask] = Some w' ->
  trace w' = trace w ++ [Resolved (fresh w)]
  /\ token w' = token w
  /\ ws w' = ws w
  /\ connectionState w' = connectionState w
  /\ authenticated w' = authenticated w
  /\ sockets w' = sockets w
  /\ timers w' = timers w
  /\ eventHandlers w' = eventHandlers w
  /\ jobs w' = [].
Proof.
  intros Hst H.
  rewrite steps_cons in H.
  destruct (step w (Call_connect tok)) as [w1|] eqn:E1; [|discriminate].
  cbn [mbind option_bind] in H.
  assert (Hj : jobs w = []) by (now apply (step_needs_empty_queue _ _ _ E1)).
  step_in E1. injection E1 as <-. rewrite ?Hj in H.
  step_with H idtac. finish_in H. cbn. repeat split.
Qed.

(** X11. When the [WebSocket] constructor throws, [connect] rejects with the
    exception, the state is back at 'disconnected', and the token passed
    is stored all the same; [ws] still names the transport of before. *)
Theorem connect_rejects_when_constructor_throws (tok : string) (w w' : World) :
  url_ok w = false ->
  State.eqb (connectionState w) State.connected
  || State.eqb (connectionState w) State.authenticated = false ->
  steps w [Call_connect tok; Microtask] = Some w' ->
  trace w' = trace w ++ [Rejected (fresh w) DOMException]
  /\ getConnectionState w' = "disconnected"
  /\ token w' = Some tok
  /\ ws w' = ws w
  /\ sockets w' = sockets w
  /\ timers w' = timers w
  /\ eventHandlers w' = eventHandlers w
  /\ jobs w' = [].
Proof.
  intros Hu Hst H.
  rewrite steps_cons in H.
  destruct (step w (Call_connect tok)) as [w1|] eqn:E1; [|discriminate].
  cbn [mbind option_bind] in H.
  assert (Hj : jobs w = []) by (now apply (step_needs_empty_queue _ _ _ E1)).
  step_in E1. injection E1 as <-. rewrite ?Hj in H.
  step_with H idtac. finish_in H. cbn. repeat split.
Qed.

(** X12. A close event starts no reconnection unless the session was
    authenticated and the code is not 1000: on a session that never
    authenticated (any code), and on an authenticated session closed with
    code 1000, the client ends 'disconnected', emits 'disconnected' with
    the code and reason, and sets no timer, counts no attempt, emits no
    'reconnecting' and creates no transport. *)
Theorem close_without_reconnection
    (w : World) (s : nat) (code : Z) (reason : string) (w' : World) :
  reachable w ->
  authenticated w = false \/ code = 1000%Z ->
  step w (Transport_close s code reason) = Some w' ->
  getConnectionState w' = "disconnected"
  /\ authenticated w' = false
  /\ ws w' = None
  /\ heartbeatInterval w' = None
  /\ reconnectTimeout w' = reconnectTimeout w
  /\ reconnectAttempts w' = reconnectAttempts w
  /\ reconnectInterval w' = reconnectInterval w
  /\ eventHandlers w' = eventHandlers w
  /\ emitted "disconnected" (trace w')
     = emitted "disconnected" (trace w)
       ++ [JObj [("code", JNum code); ("reason", JStr reason)]]
  /\ scheduled_delays (trace w') = scheduled_delays (trace w)
  /\ emitted "reconnecting" (trace w') = emitted "reconnecting" (trace w)
  /\ connections (trace w') = connections (trace w).
Proof.
  intros Hr Hor H.
  destruct (reachable_invariant _ Hr) as (Hwf & _ & _).
  assert (Hj : jobs w = []) by (now apply (step_needs_empty_queue _ _ _ H)).
  assert (Hno : negb (code =? 1000)%Z && authenticated w = false).
  { destruct Hor as [->| ->]; [apply andb_false_r|reflexivity]. }
  revert H. unfold step, task. rewrite Hj.
  destruct (listening w s) as [c|]; [|discriminate]. cbn [mbind option_bind].
  intros [= <-].
  unfold run, set_readyState, onclose, stopHeartbeat, clearInterval. exec.
  rewrite Hno.
  destruct (heartbeatInterval w) as [t|] eqn:Hh; exec;
    rewrite emit_consumers by (now apply wf_disconnected); exec;
    unfold getConnectionState; cbn;
    repeat (split; [first [reflexivity|assumption|observe; reflexivity]|]);
    observe; reflexivity.
Qed.

(** X13. What a message event does.  Text that is not JSON is dropped.  A
    frame of a type other than 'pong', 'auth_success' and 'auth_error'
    reaches the subscribers of its type, with its [data] when that is
    truthy and the whole frame otherwise, and changes nothing else in
    the client: no state, timer, registry entry or promise. *)
Theorem message_only_notifies
    (w : World) (s : nat) (data : option WSResponse) (w' : World) :
  reachable w ->
  step w (Transport_message s data) = Some w' ->
  match data with
  | None => w' = set_trace (trace w ++ [ParseFailed]) w
  | Some m =>
      rsp_type m <> "pong" -> rsp_type m <> "auth_success" ->
      rsp_type m <> "auth_error" ->
      w' = set_trace
             (trace w
              ++ notify (consumer w) (eventHandlers w) (rsp_type m)
                   (match rsp_data m with
                    | Some d => if truthy d then d else frame_object m
                    | None => frame_object m
                    end)) w
  end.
Proof.
  intros Hr H.
  destruct (reachable_invariant _ Hr) as (Hwf & _ & _).
  assert (Hj : jobs w = []) by (now apply (step_needs_empty_queue _ _ _ H)).
  revert H. unfold step, task. rewrite Hj.
  destruct (listening w s) as [c|]; [|discriminate]. cbn [mbind option_bind].
  intros [= <-]. destruct data as [m|].
  - intros Hp Hs He. unfold run, onmessage, handleMessage, try_catch.
    apply String.eqb_neq in Hp, Hs, He. rewrite Hp.
    rewrite emit_consumers; [reflexivity|].
    apply wf_consumers; [exact Hwf|]. now rewrite Hs, He.
  - reflexivity.
Qed.

(** X14. A second [disconnect] changes nothing, not even what the host
    sees: the first has cleared both timers and dropped the transport. *)
Theorem disconnect_is_idempotent (w : World) :
  run disconnect (run disconnect w) = run disconnect w.
Proof.
  destruct (disconnect_effect w) as (Hh & Hr & Hs & Hc & Ha & _).
  cbv zeta in Hh, Hr, Hs, Hc, Ha.
  generalize dependent (run disconnect w). intros w1 Hh Hr Hs Hc Ha.
  unfold run, disconnect, stopHeartbeat, clearReconnectTimeout.
  exec_with_hyps. destruct w1. cbn in *. now subst.
Qed.

(** X15. The heartbeat ends with the session: after [disconnect], and after
    any close event, no heartbeat interval is pending. *)
Theorem heartbeat_ends_with_session (w : World) (e : Event) (w' : World) :
  reachable w ->
  step w e = Some w' ->
  (e = Call_disconnect \/ exists s code reason, e = Transport_close s code reason) ->
  heartbeatInterval w' = None
  /\ forall t, timers w' !! t <> Some HeartbeatTimer.
Proof.
  intros Hr H He.
  pose proof (sound_registry _ _ (reachable_sound _ Hr)) as Hwf.
  assert (Hnone : heartbeatInterval w' = None).
  { assert (Hj : jobs w = []).
    { apply (step_needs_empty_queue _ _ _ H).
      destruct He as [->|(s & code & reason & ->)]; discriminate. }
    revert H. unfold step, task. rewrite Hj.
    destruct He as [->|(s & code & reason & ->)].
    - intros [= <-]. now destruct (disconnect_effect w) as (Hh & _).
    - destruct (listening w s) as [c|]; [|discriminate]. cbn [mbind option_bind].
      intros [= <-].
      unfold run, set_readyState, onclose, stopHeartbeat, clearInterval. exec.
      destruct (heartbeatInterval w) as [t|] eqn:Hh; exec;
        rewrite emit_consumers by (now apply wf_disconnected); exec;
        (destruct (negb (code =? 1000)%Z && authenticated w); exec;
         [|first [reflexivity|exact Hh]]);
        rewrite attemptReconnect_spec by exact Hwf;
        cbn; destruct (maxReconnectAttempts <=? reconnectAttempts w)%Z; cbn;
        try first [reflexivity|exact Hh];
        destruct (reconnectTimeout w); first [reflexivity|exact Hh]. }
  split; [exact Hnone|].
  intros t Ht.
  pose proof (sound_heartbeat _ _ (reachable_sound _ (reachable_step _ _ _ Hr H)) _ Ht).
  congruence.
Qed.

(** X16. [disconnect] followed at once by [connect]: when the close event of
    the old transport arrives after the new [connect], its handler
    (which does not look at which transport closed) drops the new
    transport from [ws]; the new transport still opens, but after the
    100 ms delay the promise rejects with 'WebSocket closed before
    authentication', no auth frame is sent, and the new transport is
    left behind open, with [ws] no longer naming it. *)
Theorem late_close_defeats_new_connect
    (tok : string) (w : World) (s c0 : nat) (r : ReadyState)
    (code : Z) (reason : string) (w' : World) :
  reachable w ->
  ws w = Some s ->
  sockets w !! s = Some {| readyState := r; listeners := Some c0 |} ->
  url_ok w = true ->
  steps w [Call_disconnect; Call_connect tok; Transport_close s code reason;
           Transport_open (S (fresh w)); Timer_fires (S (S (fresh w)));
           Microtask] = Some w' ->
  rejections (trace w')
  = rejections (trace w)
    ++ [(fresh w, Error (JStr "WebSocket closed before authentication"))]
  /\ resolutions (trace w') = resolutions (trace w)
  /\ sent (trace w') = sent (trace w)
  /\ ws w' = None
  /\ getConnectionState w' = "connected"
  /\ sockets w' !! S (fresh w)
     = Some {| readyState := OPEN; listeners := Some (fresh w) |}
  /\ scheduled_delays (trace w') = scheduled_delays (trace w).
Proof.
  intros Hr Hs Hk Hu H.
  pose proof (reachable_sound _ Hr) as Hw.
  pose proof (sound_registry _ _ Hw) as Hwf.
  assert (Hlt : s < fresh w) by (apply (sound_sockets _ _ Hw); rewrite Hk; eauto).
  rewrite steps_cons in H.
  destruct (step w Call_disconnect) as [w1|] eqn:E1; [|discriminate].
  cbn [mbind option_bind] in H.
  assert (Hj : jobs w = []) by (now apply (step_needs_empty_queue _ _ _ E1)).
  destruct (heartbeatInterval w) as [hb|] eqn:Hh;
    destruct (reconnectTimeout w) as [rt|] eqn:Hrt;
    step_in E1; injection E1 as <-; rewrite ?Hj in H;
    step_with H idtac;
    step_with H ltac:(rewrite ?lookup_alter_ne by lia);
    step_with H ltac:(rewrite ?lookup_alter_ne by lia);
    step_with H ltac:(rewrite ?lookup_alter_ne by lia);
    step_with H idtac; finish_in H; cbn; unfold getConnectionState; cbn.
  all: destruct (calls_only_notify (consumer w) (eventHandlers w) "disconnected"
                  (JObj [("code", JNum code); ("reason", JStr reason)]) _ eq_refl)
         as (N1 & N2 & N3 & N4 & N5).
  all: rewrite ?sent_app, ?scheduled_delays_app, ?rejections_app,
         ?resolutions_app, ?N1, ?N3, ?N4, ?N5.
  all: unfold sent, scheduled_delays, rejections, resolutions; cbn;
       rewrite ?app_nil_r.
  all: repeat (split; [reflexivity|]).
  all: split; [|reflexivity].
  all: rewrite lookup_alter_eq, lookup_alter_ne, lookup_alter_eq,
         lookup_insert_eq by lia; reflexivity.
Qed.

(** * Handshakes that fail *)

(** X24. A handshake that times out.  When the server does not answer
    the auth frame for 5000 ms, the promise of [connect] rejects with
    'Authentication timeout'; the client stays in the state 'connected'
    with its transport, starts no heartbeat and schedules no
    reconnection; and the two listeners of the handshake stay
    registered under 'auth_success' and 'auth_error'. *)
Theorem handshake_timeout_rejects (tok : string) (w w' : World) :
  reachable w ->
  url_ok w = true ->
  tok <> "" ->
  State.eqb (connectionState w) State.connected
  || State.eqb (connectionState w) State.authenticated = false ->
  failed_connect tok Auth_silence w = Some w' ->
  let p := S (S (S (fresh w))) in
  rejections (trace w')
  = rejections (trace w) ++ [(fresh w, Error (JStr "Authentication timeout"))]
  /\ resolutions (trace w') = resolutions (trace w)
  /\ sent (trace w') = sent (trace w) ++ [auth_frame tok]
  /\ getConnectionState w' = "connected"
  /\ authenticated w' = authenticated w
  /\ ws w' = Some (S (fresh w))
  /\ heartbeatInterval w' = heartbeatInterval w
  /\ scheduled_delays (trace w') = scheduled_delays (trace w)
  /\ AuthResponse p (S p) ∈ subscribers (eventHandlers w') "auth_success"
  /\ AuthError p (S p) ∈ subscribers (eventHandlers w') "auth_error".
Proof.
  intros Hr Hu Htok Hst H p.
  destruct (reachable_invariant _ Hr) as (Hwf & Hfr & _).
  unfold failed_connect in H.
  destruct (step w (Call_connect tok)) as [w1|] eqn:E1; [|discriminate].
  cbn [mbind option_bind] in H.
  assert (Hj : jobs w = []) by (now apply (step_needs_empty_queue _ _ _ E1)).
  assert (Hne : String.eqb tok "" = false) by (now apply String.eqb_neq).
  step_in E1. injection E1 as <-. cbn in H. rewrite ?Hj in H.
  step_in H. unfold latest in H. cbn in H. step_in H.
  unfold latest in H. cbn in H.
  step_with H idtac. step_with H idtac. step_with H idtac. finish_in H. cbn.
  unfold getConnectionState. cbn.
  repeat (split; [first [reflexivity|read_trace; reflexivity]|]).
  subst p. split.
  - rewrite subscribers_reg_on, decide_False by discriminate.
    rewrite subscribers_reg_on, decide_True by reflexivity.
    apply elem_of_Set_add. now left.
  - rewrite subscribers_reg_on, decide_True by reflexivity.
    apply elem_of_Set_add. now left.
Qed.

Lemma forEach_idle_calls eventType data hs : forall w,
  forallb (idle_listener (promises w)) hs = true ->
  exists m tm tr,
    forEach (fun handler =>
               try_catch (call handler data)
                         (fun error => log (Caught eventType error))) hs w
    = (Normal tt,
       set_eventHandlers m (set_timers tm (set_trace (trace w ++ tr) w)))
    /\ sub_registry m (eventHandlers w)
    /\ forallb is_call tr = true.
Proof.
  induction hs as [|h hs IH]; intros w Hi.
  - exists (eventHandlers w), (timers w), []. split; [|split].
    + cbn. rewrite app_nil_r. now destruct w.
    + apply sub_registry_refl.
    + reflexivity.
  - cbn in Hi. apply andb_prop in Hi as [Hh Hi].
    cbn [forEach]. destruct h as [n|p t|p t]; [|discriminate|].
    + erewrite bind_normal by apply deliver_consumer.
      destruct (IH (set_trace (trace w ++ delivery (consumer w) eventType data (Consumer n)) w) Hi)
        as (m & tm & tr & E & Hm & Htr).
      exists m, tm, (delivery (consumer w) eventType data (Consumer n) ++ tr).
      split; [|split]; try assumption.
      * rewrite E. cbn. now rewrite <- app_assoc.
      * now rewrite forallb_app, is_call_delivery.
    + erewrite bind_normal by (apply deliver_stale; exact Hh).
      match goal with |- context [forEach _ hs ?W] =>
        destruct (IH W Hi) as (m & tm & tr & E & Hm & Htr) end.
      exists m, tm, ([Called (AuthError p t) data; ClearTimeout t] ++ tr).
      split; [|split].
      * rewrite E. cbn. now rewrite <- app_assoc.
      * eapply sub_registry_trans; [exact Hm|]. cbn.
        eapply sub_registry_trans; apply sub_registry_off.
      * now rewrite forallb_app, Htr.
Qed.

(** The 'auth_error' emission of [emit_refused], with what it leaves
    in the registry. *)
Lemma emit_refused_removes w data p ta c hs :
  subscribers (eventHandlers w) "auth_error" = hs ++ [AuthError p ta] ->
  forallb (idle_listener (promises w)) hs = true ->
  promises w !! p = Some {| kind := AuthPromise c; settled := false |} ->
  exists m tm tr,
    emit "auth_error" data w
    = (Normal tt,
       set_jobs
         (jobs w
          ++ [RejectedWith p (AuthPromise c)
                (Error (or_else (field "message" data)
                                (JStr "Authentication failed")))])
         (set_promises
            (<[p := {| kind := AuthPromise c; settled := true |}]> (promises w))
            (set_eventHandlers m
               (set_timers tm (set_trace (trace w ++ tr) w)))))
    /\ sub_registry m
         (reg_off "auth_error" (AuthError p ta)
            (reg_off "auth_success" (AuthResponse p ta) (eventHandlers w)))
    /\ scheduled_delays tr = [] /\ sent tr = [] /\ rejections tr = []
    /\ resolutions tr = [].
Proof.
  intros Hsub Hidle Hp. unfold emit.
  erewrite bind_normal by reflexivity.
  erewrite bind_normal by reflexivity.
  unfold subscribers in Hsub. cbn [eventHandlers set_trace].
  destruct (eventHandlers w !! "auth_error") as [l|] eqn:E;
    [|now destruct hs]. cbn in Hsub. subst l.
  rewrite forEach_app.
  destruct (forEach_idle_calls "auth_error" data hs
              (set_trace (trace w ++ [Emit "auth_error" data]) w) Hidle)
    as (m1 & tm1 & tr1 & E1 & Hm1 & Htr1).
  erewrite bind_normal by exact E1. cbn [forEach].
  erewrite bind_normal by (apply deliver_pending; exact Hp).
  exists (reg_off "auth_error" (AuthError p ta)
            (reg_off "auth_success" (AuthResponse p ta) m1)),
         (delete ta tm1),
         ([Emit "auth_error" data] ++ tr1
          ++ [Called (AuthError p ta) data; ClearTimeout ta]).
  destruct (calls_only_silent _ Htr1) as (T1 & T2 & T3 & T4 & T5 & T6).
  split; [|split; [|split; [|split; [|split]]]].
  - unfold skip, mret, M_ret. fields. now rewrite <- !app_assoc.
  - now apply sub_registry_off_mono, sub_registry_off_mono.
  - rewrite !scheduled_delays_app, T1. reflexivity.
  - rewrite !sent_app, T3. reflexivity.
  - rewrite !rejections_app, T5. reflexivity.
  - rewrite !resolutions_app, T4. reflexivity.
Qed.

(** X25. A handshake that the server refuses.  On an 'auth_error' frame
    the promise of [connect] rejects with the [message] of the payload
    the listeners get (the frame's [data] when that is truthy, the frame
    otherwise), or with 'Authentication failed' when that has no truthy
    [message]; the registry holds no listener of this handshake and
    nothing that it did not hold before; the client stays in the state
    'connected' and schedules no reconnection. *)
Theorem handshake_refusal_rejects
    (tok : string) (message : WSResponse) (w w' : World) :
  reachable w ->
  handshake_idle w ->
  url_ok w = true ->
  tok <> "" ->
  State.eqb (connectionState w) State.connected
  || State.eqb (connectionState w) State.authenticated = false ->
  rsp_type message = "auth_error" ->
  failed_connect tok (Auth_refused message) w = Some w' ->
  let data := or_else (rsp_data message) (frame_object message) in
  rejections (trace w')
  = rejections (trace w)
    ++ [(fresh w, Error (or_else (field "message" data) (JStr "Authentication failed")))]
  /\ getConnectionState w' = "connected"
  /\ authenticated w' = authenticated w
  /\ ws w' = Some (S (fresh w))
  /\ heartbeatInterval w' = heartbeatInterval w
  /\ sub_registry (eventHandlers w') (eventHandlers w)
  /\ (forall eventType q t, fresh w <= q ->
        (AuthResponse q t ∉ subscribers (eventHandlers w') eventType)
        /\ (AuthError q t ∉ subscribers (eventHandlers w') eventType))
  /\ scheduled_delays (trace w') = scheduled_delays (trace w).
Proof.
  intros Hr Hidle Hu Htok Hst Hm H data.
  destruct (reachable_invariant _ Hr) as (Hwf & Hfr & _).
  unfold failed_connect in H.
  destruct (step w (Call_connect tok)) as [w1|] eqn:E1; [|discriminate].
  cbn [mbind option_bind] in H.
  assert (Hj : jobs w = []) by (now apply (step_needs_empty_queue _ _ _ E1)).
  assert (Hne : String.eqb tok "" = false) by (now apply String.eqb_neq).
  step_in E1. injection E1 as <-. cbn in H. rewrite ?Hj in H.
  step_in H. unfold latest in H. cbn in H. step_in H.
  destruct (listeners_before_handshake w (S (S (S (fresh w))))
              (S (S (S (S (fresh w))))) (fresh w)
              {| kind := AuthPromise (fresh w); settled := false |}
              {| kind := ConnectPromise Outside; settled := false |}
              Hwf Hidle Hfr) as [Hnew Hold]; [lia..|].
  match type of H with
  | context [steps ?W _] =>
      destruct (emit_refused_removes W data
                  (S (S (S (fresh w)))) (S (S (S (S (fresh w)))))
                  (fresh w) (subscribers (eventHandlers w) "auth_error"))
        as (m' & tm & tr & Hemit & Hsub & Hs & Hsent & Hrej & Hres)
  end.
  { cbn [eventHandlers].
    rewrite subscribers_reg_on, decide_True by reflexivity.
    rewrite subscribers_reg_on, decide_False by discriminate.
    unfold Set_add. now rewrite decide_False by exact Hnew. }
  { exact Hold. }
  { cbn. apply lookup_insert_eq. }
  assert (Hsub' : sub_registry m' (eventHandlers w)).
  { eapply sub_registry_trans; [exact Hsub|]. cbn [eventHandlers].
    apply sub_registry_off_on. }
  clear Hsub. subst data.
  step_with H ltac:(rewrite ?Hemit). clear Hemit.
  step_with H idtac. step_with H idtac. finish_in H. cbn.
  unfold getConnectionState. cbn.
  split.
  { rewrite !rejections_app, Hrej. unfold rejections. cbn.
    now rewrite !app_nil_r. }
  repeat (split; [first [reflexivity|assumption]|]).
  split; [now apply (no_new_listeners w)|].
  rewrite !scheduled_delays_app, Hs. unfold scheduled_delays. cbn.
  now rewrite !app_nil_r.
Qed.

(** * The React side *)

(** ** The hook's state *)

Lemma agree_initial : useWebSocket.agree useWebSocket.initial.
Proof. repeat split; cbn; try discriminate. Qed.

Ltac agree_cases :=
  repeat split; cbn; intros; try discriminate; auto 10.

Ltac agree_access k d :=
  destruct (useWebSocket.prop k d); cbn; [agree_cases|repeat split; assumption].

Lemma agree_apply u h : useWebSocket.agree h -> useWebSocket.agree (useWebSocket.apply u h).
Proof.
  intros (H1 & H2 & H3). destruct u as [e d| | |m| |st]; cbn.
  - unfold useWebSocket.handler.
    destruct (String.eqb e "auth_success"); [agree_cases|].
    destruct (String.eqb e "auth_error"); [agree_access "message" d|].
    destruct (String.eqb e "disconnected"); [agree_access "reason" d|].
    destruct (String.eqb e "reconnecting"); [agree_access "attempt" d|].
    destruct (String.eqb e "reconnected"); [agree_cases|].
    destruct (String.eqb e "max_reconnect_attempts_reached"); [agree_cases|].
    destruct (String.eqb e "error"); [agree_access "message" d|].
    cbn. repeat split; assumption.
  - agree_cases.
  - agree_cases.
  - agree_cases.
  - agree_cases.
  - destruct (String.eqb (useWebSocket.connectionState h) (State.name st)) eqn:E; cbn;
      [repeat split; assumption|].
    destruct st; agree_cases.
Qed.

Lemma agree_after us : useWebSocket.agree (useWebSocket.after us).
Proof.
  unfold useWebSocket.after. generalize agree_initial. generalize useWebSocket.initial.
  induction us as [|u us IH]; intros h Hh; [exact Hh|].
  cbn. apply IH. now apply agree_apply.
Qed.

(** X17. Whatever the client emitted, the component did and the interval
    read: a hook in the state 'authenticated' reports [isConnected]; a
    hook that reports [isConnected] is in the state 'authenticated',
    'connecting' or 'reconnecting'; the state 'reconnecting' comes with
    [isReconnecting]; and the panel shows the green 'Ansluten' only in
    the states 'authenticated' and 'connecting'. *)
Theorem hook_flags_agree (us : list useWebSocket.Update) :
  let h := useWebSocket.after us in
  useWebSocket.agree h
  /\ (fst (ScanControlWS.getWebSocketStatusInfo h) = "text-green-500" ->
      useWebSocket.connectionState h = "authenticated"
      \/ useWebSocket.connectionState h = "connecting").
Proof.
  intros h. pose proof (agree_after us) as Ha. fold h in Ha.
  split; [exact Ha|]. destruct Ha as (H1 & H2 & H3).
  unfold ScanControlWS.getWebSocketStatusInfo.
  destruct (useWebSocket.isConnected h) eqn:Ec;
    destruct (useWebSocket.isReconnecting h) eqn:Er; cbn; try discriminate.
  intros _. destruct H2 as [E|[E|E]]; auto.
  apply H3 in E. discriminate.
Qed.

(** X18. When the interval reads a client that is not in the state
    'connecting', the hook's state name and [isConnected] are the
    client's afterwards, whatever the hook showed before; the state name
    is then never 'reconnecting', which only the 'reconnecting' handler
    sets. *)
Theorem poll_adopts_client_state (us : list useWebSocket.Update) (w : World) :
  connectionState w <> State.connecting ->
  let h := useWebSocket.apply (useWebSocket.Polled (connectionState w))
             (useWebSocket.after us) in
  useWebSocket.connectionState h = getConnectionState w
  /\ useWebSocket.isConnected h = isConnected w
  /\ useWebSocket.connectionState h <> "reconnecting".
Proof.
  intros Hc h. subst h. destruct (agree_after us) as (H1 & H2 & H3).
  unfold getConnectionState, isConnected. cbn.
  destruct (String.eqb (useWebSocket.connectionState (useWebSocket.after us))
              (State.name (connectionState w))) eqn:E; cbn.
  - apply String.eqb_eq in E. split; [exact E|]. split.
    + destruct (connectionState w); cbn in *; try congruence.
      * destruct (useWebSocket.isConnected (useWebSocket.after us)); [|reflexivity].
        destruct H2 as [E'|[E'|E']]; congruence.
      * destruct (useWebSocket.isConnected (useWebSocket.after us)); [|reflexivity].
        destruct H2 as [E'|[E'|E']]; congruence.
      * now apply H1.
    + rewrite E. destruct (connectionState w); discriminate.
  - split; [reflexivity|]. split; [reflexivity|].
    destruct (connectionState w); discriminate.
Qed.

(** ** The year buttons *)

Lemma filter_all_other (year : Z) (l : list Z) :
  year ∉ l -> filter (fun y => y <> year) l = l.
Proof.
  induction l as [|x l IH]; intros Hn; [reflexivity|].
  rewrite not_elem_of_cons in Hn. destruct Hn as [Hx Hl].
  rewrite filter_cons_True by congruence. now rewrite IH.
Qed.

Lemma filter_out_one (year : Z) (l : list Z) :
  NoDup l -> year ∈ l -> l ≡ₚ year :: filter (fun y => y <> year) l.
Proof.
  induction l as [|x l IH]; intros Hd Hin; [now apply elem_of_nil in Hin|].
  apply NoDup_cons in Hd as [Hx Hd].
  destruct (decide (x = year)) as [->|Hne].
  - rewrite filter_cons_False by (intros H; now apply H).
    now rewrite filter_all_other.
  - rewrite filter_cons_True by exact Hne.
    apply elem_of_cons in Hin as [->|Hin]; [congruence|].
    rewrite (IH Hd Hin) at 1. apply Permutation_swap.
Qed.

Lemma elem_of_toggleYear (year : Z) (prev : list Z) (y : Z) :
  y ∈ ScanControlWS.toggleYear year prev
  <-> (y = year /\ year ∉ prev) \/ (y <> year /\ y ∈ prev).
Proof.
  unfold ScanControlWS.toggleYear. case_bool_decide as Hin.
  - rewrite list_elem_of_filter. split; [tauto|].
    intros [[-> Hn]|H]; tauto.
  - rewrite elem_of_app, list_elem_of_singleton. split.
    + intros [Hy| ->]; [|tauto]. right. split; [|exact Hy]. intros ->. tauto.
    + tauto.
Qed.

Lemma NoDup_toggleYear (year : Z) (prev : list Z) :
  NoDup prev -> NoDup (ScanControlWS.toggleYear year prev).
Proof.
  unfold ScanControlWS.toggleYear. case_bool_decide as Hin.
  - apply NoDup_filter.
  - intros Hd. apply NoDup_app. split; [exact Hd|]. split.
    + intros x Hx Hx'. apply list_elem_of_singleton in Hx'. congruence.
    + apply NoDup_singleton.
Qed.

(** X19. Pressing a year button flips that year in the selection and
    leaves the other years as they are; a selection without duplicates
    stays without duplicates. *)
Theorem toggleYear_flips (year : Z) (prev : list Z) :
  (year ∈ ScanControlWS.toggleYear year prev <-> year ∉ prev)
  /\ (forall y, y <> year -> (y ∈ ScanControlWS.toggleYear year prev <-> y ∈ prev))
  /\ (NoDup prev -> NoDup (ScanControlWS.toggleYear year prev)).
Proof.
  split; [|split].
  - rewrite elem_of_toggleYear. tauto.
  - intros y Hy. rewrite elem_of_toggleYear. tauto.
  - apply NoDup_toggleYear.
Qed.

(** X20. Pressing the same button twice gives the selection back: as it
    was when the year was not selected, and with the year moved to the
    end when it was. *)
Theorem toggleYear_twice (year : Z) (prev : list Z) :
  NoDup prev ->
  ScanControlWS.toggleYear year (ScanControlWS.toggleYear year prev) ≡ₚ prev
  /\ (year ∉ prev ->
      ScanControlWS.toggleYear year (ScanControlWS.toggleYear year prev) = prev)
  /\ (year ∈ prev ->
      ScanControlWS.toggleYear year (ScanControlWS.toggleYear year prev)
      = filter (fun y => y <> year) prev ++ [year]).
Proof.
  intros Hd.
  assert (Hout : year ∉ prev ->
            ScanControlWS.toggleYear year (ScanControlWS.toggleYear year prev) = prev).
  { intros Hn. unfold ScanControlWS.toggleYear.
    rewrite (bool_decide_eq_false_2 _ Hn).
    rewrite bool_decide_eq_true_2
      by (rewrite elem_of_app, list_elem_of_singleton; auto).
    rewrite filter_app, filter_all_other by exact Hn.
    rewrite filter_cons_False by (intros H; now apply H).
    now rewrite filter_nil, app_nil_r. }
  assert (Hin : year ∈ prev ->
            ScanControlWS.toggleYear year (ScanControlWS.toggleYear year prev)
            = filter (fun y => y <> year) prev ++ [year]).
  { intros Hy. unfold ScanControlWS.toggleYear.
    rewrite (bool_decide_eq_true_2 _ Hy).
    rewrite bool_decide_eq_false_2; [reflexivity|].
    rewrite list_elem_of_filter. tauto. }
  split; [|split; assumption].
  destruct (decide (year ∈ prev)) as [Hy|Hn].
  - rewrite (Hin Hy), Permutation_app_comm. cbn. symmetry.
    now apply filter_out_one.
  - now rewrite (Hout Hn).
Qed.

Lemma elem_of_years currentYear y :
  y ∈ ScanControlWS.years currentYear <-> (currentYear - 9 <= y <= currentYear)%Z.
Proof.
  unfold ScanControlWS.years. rewrite list_elem_of_fmap. split.
  - intros (i & -> & Hi). apply elem_of_seq in Hi. lia.
  - intros Hy. exists (Z.to_nat (currentYear - y)). split; [lia|].
    apply elem_of_seq. lia.
Qed.

Lemma selection_kept currentYear clicks : forall prev,
  (forall y, y ∈ clicks -> y ∈ ScanControlWS.years currentYear) ->
  NoDup prev -> (forall y, y ∈ prev -> y ∈ ScanControlWS.years currentYear) ->
  NoDup (foldl (fun prev year => ScanControlWS.toggleYear year prev) prev clicks)
  /\ (forall y,
        y ∈ foldl (fun prev year => ScanControlWS.toggleYear year prev) prev clicks ->
        y ∈ ScanControlWS.years currentYear).
Proof.
  induction clicks as [|c clicks IH]; intros prev Hc Hd Hin; [now split|].
  cbn [foldl]. apply IH.
  - intros y Hy. apply Hc. now right.
  - now apply NoDup_toggleYear.
  - intros y Hy. destruct (decide (y = c)) as [->|Hne]; [apply Hc; now left|].
    apply Hin. apply elem_of_toggleYear in Hy. tauto.
Qed.

(** X21. The years a scan request carries.  Whatever buttons among the ten
    offered were pressed, the selection holds distinct years among the
    last ten, so at most ten; a scan of the selected years, which the
    panel allows for a selection that is not empty, posts exactly the
    selection, and a quick scan posts the current year alone and ignores
    the selection. *)
Theorem scan_request_years (currentYear thisYear : Z) (clicks : list Z) :
  (forall y, y ∈ clicks -> y ∈ ScanControlWS.years currentYear) ->
  let selected := ScanControlWS.selectedYears currentYear clicks in
  NoDup selected
  /\ (forall y, y ∈ selected -> (currentYear - 9 <= y <= currentYear)%Z)
  /\ length selected <= 10
  /\ (ScanControlWS.custom_scan_enabled selected = true ->
      bookingApi.startScan thisYear (ScanControlWS.handleStartScan false selected)
      = {| bookingApi.years := selected; bookingApi.quickScan := false |}
      /\ selected <> [])
  /\ bookingApi.startScan thisYear (ScanControlWS.handleStartScan true selected)
     = {| bookingApi.years := [thisYear]; bookingApi.quickScan := true |}.
Proof.
  intros Hc selected.
  destruct (selection_kept currentYear clicks [currentYear] Hc) as [Hd Hin].
  { apply NoDup_singleton. }
  { intros y Hy. apply list_elem_of_singleton in Hy as ->.
    apply elem_of_years. lia. }
  fold (ScanControlWS.selectedYears currentYear clicks) in Hd, Hin.
  fold selected in Hd, Hin.
  split; [exact Hd|]. split; [intros y Hy; now apply elem_of_years, Hin|].
  split.
  - change 10 with (length (ScanControlWS.years currentYear)).
    apply submseteq_length, NoDup_submseteq; assumption.
  - split; [|reflexivity].
    intros He. split; [reflexivity|].
    intros E. rewrite E in He. discriminate.
Qed.

(** ** The status of a booking *)

(** X22. A booking whose two dates are given never goes back: as the clock
    advances, a booking that is not cancelled passes from 'Framtida' to
    'Pågående' to 'Avslutad' and a cancelled one stays 'Avbokad'; this
    holds also for dates that do not parse and for a check-out before
    the check-in. *)
Theorem booking_status_never_goes_back
    (booking : Dashboard.Booking) (now now' c1 c2 c1' c2' : Z) :
  Dashboard.checkInDate booking <> Dashboard.Absent ->
  Dashboard.checkOutDate booking <> Dashboard.Absent ->
  (now <= now')%Z ->
  Dashboard.stage (Dashboard.getBookingStatus now c1 c2 booking)
  <= Dashboard.stage (Dashboard.getBookingStatus now' c1' c2' booking).
Proof.
  intros Hi Ho Hle. unfold Dashboard.getBookingStatus.
  case_bool_decide; [reflexivity|].
  destruct (Dashboard.checkInDate booking) as [| |i]; [congruence|..];
    destruct (Dashboard.checkOutDate booking) as [| |o]; try congruence; cbn;
    repeat match goal with
           | |- context [(?a <? ?b)%Z] => destruct (Z.ltb_spec a b)
           | |- context [(?a <=? ?b)%Z] => destruct (Z.leb_spec a b)
           end; cbn; lia.
Qed.

(** X23. The status by the dates.  With both dates valid and the check-in
    not after the check-out, a booking that is not cancelled is
    'Framtida' before the check-in, 'Pågående' from the check-in to the
    check-out inclusive, and 'Avslutad' after it.  A check-in date that
    does not parse makes the booking 'Avslutad' at any time.  A booking
    with neither date is never 'Avslutad': it shows as 'Pågående', or as
    'Framtida' when the clock ticked between the readings. *)
Theorem booking_status_by_dates
    (booking : Dashboard.Booking) (now c1 c2 : Z) :
  Dashboard.status booking <> Some "cancelled" ->
  (now <= c1 <= c2)%Z ->
  let s := Dashboard.getBookingStatus now c1 c2 booking in
  (forall i o,
     Dashboard.checkInDate booking = Dashboard.At i ->
     Dashboard.checkOutDate booking = Dashboard.At o -> (i <= o)%Z ->
     (s = Dashboard.Framtida <-> (now < i)%Z)
     /\ (s = Dashboard.Pagaende <-> (i <= now <= o)%Z)
     /\ (s = Dashboard.Avslutad <-> (o < now)%Z))
  /\ (Dashboard.checkInDate booking = Dashboard.Invalid -> s = Dashboard.Avslutad)
  /\ (Dashboard.checkInDate booking = Dashboard.Absent ->
      Dashboard.checkOutDate booking = Dashboard.Absent ->
      s = (if (now <? c1)%Z then Dashboard.Framtida else Dashboard.Pagaende)).
Proof.
  intros Hs Hc s. subst s. unfold Dashboard.getBookingStatus.
  rewrite bool_decide_eq_false_2 by exact Hs.
  split; [|split].
  - intros i o -> -> Hio. cbn.
    destruct (Z.ltb_spec now i); cbn.
    + repeat split; intros; try discriminate; try lia; reflexivity.
    + destruct (Z.leb_spec i now); [|lia]. destruct (Z.leb_spec now o); cbn.
      * repeat split; intros; try discriminate; try lia; reflexivity.
      * repeat split; intros; try discriminate; try lia; reflexivity.
  - intros ->. reflexivity.
  - intros -> ->. cbn. destruct (Z.ltb_spec now c1); [reflexivity|].
    destruct (Z.leb_spec c1 now); [|lia]. destruct (Z.leb_spec now c2); [|lia].
    reflexivity.
Qed.

(** * The properties on the scenarios *)

Lemma lost_session_reachable : reachable lost_session.
Proof.
  apply (reachable_step session (Transport_close 1 1006 "lost"));
    [exact session_reachable|vm_compute; reflexivity].
Qed.

Lemma closed_session_reachable : reachable closed_session.
Proof.
  apply (reachable_step session Call_disconnect);
    [exact session_reachable|vm_compute; reflexivity].
Qed.

Lemma noisy_session_reachable : reachable noisy_session.
Proof.
  exists true, first_throws,
    [Call_on "progress" 1; Call_connect "token"; Transport_open 1;
     Timer_fires 2; Transport_message 1 (Some acceptance);
     Microtask; Microtask; Transport_message 1 (Some progress_frame)].
  vm_compute. reflexivity.
Qed.

Lemma subscribed_reachable : reachable subscribed.
Proof.
  exists true, well_behaved,
    [Call_on "disconnected" 1; Call_on "reconnecting" 2; Call_on "pong" 3].
  vm_compute. reflexivity.
Qed.

Lemma new_client_reachable ok f : reachable (new_client ok f).
Proof. exists ok, f, []. reflexivity. Qed.

Lemma no_exception_escapes_witness :
  reachable noisy_session
  /\ calls (trace noisy_session)
     = [(AuthResponse 3 4, frame_object acceptance);
        (Consumer 1, frame_object progress_frame)]
  /\ forall x, Uncaught x ∉ trace noisy_session.
Proof.
  split; [exact noisy_session_reachable|].
  split; [vm_compute; reflexivity|].
  exact (proj1 (no_exception_escapes noisy_session noisy_session_reachable)).
Defined.

Lemma backoff_stays_bounded_witness :
  reachable lost_session
  /\ scheduled_delays (trace lost_session) = [1000%Z]
  /\ (0 <= reconnectAttempts lost_session <= 10)%Z
  /\ (1000 <= reconnectInterval lost_session <= 30000)%Z.
Proof.
  destruct (backoff_stays_bounded lost_session lost_session_reachable)
    as (Ha & Hi & _).
  split; [exact lost_session_reachable|].
  split; [vm_compute; reflexivity|]. split; assumption.
Defined.

Lemma heartbeat_is_unique_witness :
  reachable session
  /\ timers session !! 5 = Some HeartbeatTimer
  /\ heartbeatInterval session = Some 5.
Proof.
  assert (Ht : timers session !! 5 = Some HeartbeatTimer) by (vm_compute; reflexivity).
  split; [exact session_reachable|]. split; [exact Ht|].
  exact (proj1 (heartbeat_is_unique session session_reachable) 5 Ht).
Defined.

Lemma reconnect_timer_is_unique_witness :
  reachable lost_session
  /\ timers lost_session !! 6 = Some ReconnectTimer
  /\ reconnectTimeout lost_session = Some 6.
Proof.
  assert (Ht : timers lost_session !! 6 = Some ReconnectTimer)
    by (vm_compute; reflexivity).
  split; [exact lost_session_reachable|]. split; [exact Ht|].
  exact (proj2 (reconnect_timer_is_unique lost_session 6 6
                  lost_session_reachable Ht Ht)).
Defined.

Lemma outbound_traffic_witness :
  reachable closed_session
  /\ sent (trace closed_session) = [auth_frame "token"]
  /\ forall s code reason,
       WsClose s code reason ∈ trace closed_session ->
       code = 1000%Z /\ reason = "User initiated disconnect".
Proof.
  split; [exact closed_session_reachable|].
  split; [vm_compute; reflexivity|].
  exact (proj2 (outbound_traffic closed_session closed_session_reachable)).
Defined.

Lemma connected_means_accepted_witness :
  reachable session
  /\ isConnected session = true
  /\ authenticated session = true
  /\ emitted "auth_success" (trace session) <> [].
Proof.
  assert (Hc : isConnected session = true) by (vm_compute; reflexivity).
  destruct (connected_means_accepted session session_reachable Hc) as [Ha He].
  split; [exact session_reachable|]. split; [exact Hc|]. split; assumption.
Defined.

Lemma connect_succeeds_witness :
  reachable subscribed
  /\ accepted_connect "token" acceptance subscribed = Some session
  /\ isConnected session = true
  /\ sent (trace session) = sent (trace subscribed) ++ [auth_frame "token"]
  /\ resolutions (trace session) = resolutions (trace subscribed) ++ [fresh subscribed]
  /\ same_consumers (eventHandlers session) (eventHandlers subscribed).
Proof.
  assert (Hi : handshake_idle subscribed).
  { unfold handshake_idle.
    apply (check_registry_sound (fun _ h => idle_handler (promises subscribed) h)).
    vm_compute. reflexivity. }
  assert (Hu : url_ok subscribed = true) by (vm_compute; reflexivity).
  assert (Ht : "token" <> "") by discriminate.
  assert (Hs : State.eqb (connectionState subscribed) State.connected
               || State.eqb (connectionState subscribed) State.authenticated = false)
    by (vm_compute; reflexivity).
  assert (Hm : rsp_type acceptance = "auth_success") by reflexivity.
  assert (H : accepted_connect "token" acceptance subscribed = Some session)
    by (vm_compute; reflexivity).
  destruct (connect_succeeds "token" acceptance subscribed session
              subscribed_reachable Hi Hu Ht Hs Hm H)
    as (H1 & _ & _ & _ & _ & _ & _ & H8 & _ & H10 & H11 & _).
  split; [exact subscribed_reachable|]. split; [exact H|].
  split; [exact H1|]. split; [exact H10|]. split; [exact H11|exact H8].
Defined.

Lemma reconnect_reports_zero_attempts_witness :
  armed backed_off_session
  /\ reconnectAttempts backed_off_session = 7%Z
  /\ accepted_attempt acceptance backed_off_session = Some recovered_session
  /\ isConnected recovered_session = true
  /\ emitted "reconnected" (trace recovered_session)
     = emitted "reconnected" (trace backed_off_session)
       ++ [JObj [("attempts", JNum 0)]]
  /\ forall t, timers recovered_session !! t <> Some ReconnectTimer.
Proof.
  assert (Ha : armed backed_off_session)
    by (apply check_armed_sound; vm_compute; reflexivity).
  assert (Hu : url_ok backed_off_session = true) by (vm_compute; reflexivity).
  assert (Hm : rsp_type acceptance = "auth_success") by reflexivity.
  assert (H : accepted_attempt acceptance backed_off_session = Some recovered_session)
    by (vm_compute; reflexivity).
  destruct (reconnect_reports_zero_attempts acceptance backed_off_session
              recovered_session Ha Hu Hm H)
    as (H1 & _ & _ & _ & _ & H6 & H7 & _).
  split; [exact Ha|]. split; [vm_compute; reflexivity|]. split; [exact H|].
  split; [exact H1|]. split; [exact H7|exact H6].
Defined.

Lemma empty_token_rejected_after_open_witness :
  reachable (new_client true well_behaved)
  /\ opened_connect "" (new_client true well_behaved) = Some tokenless_connect
  /\ rejections (trace tokenless_connect)
     = rejections (trace (new_client true well_behaved))
       ++ [(fresh (new_client true well_behaved),
            Error (JStr "No token or connection available for authentication"))]
  /\ sent (trace tokenless_connect) = sent (trace (new_client true well_behaved))
  /\ getConnectionState tokenless_connect = "connected".
Proof.
  assert (Hu : url_ok (new_client true well_behaved) = true) by reflexivity.
  assert (Hs : State.eqb (connectionState (new_client true well_behaved)) State.connected
               || State.eqb (connectionState (new_client true well_behaved))
                    State.authenticated = false) by reflexivity.
  assert (H : opened_connect "" (new_client true well_behaved) = Some tokenless_connect)
    by (vm_compute; reflexivity).
  destruct (empty_token_rejected_after_open (new_client true well_behaved)
              tokenless_connect (new_client_reachable true well_behaved) Hu Hs H)
    as (H1 & _ & H3 & _ & _ & H6 & _).
  split; [apply new_client_reachable|]. split; [exact H|].
  split; [exact H1|]. split; [exact H3|exact H6].
Defined.

Lemma connect_when_connected_resolves_witness :
  State.eqb (connectionState session) State.connected
  || State.eqb (connectionState session) State.authenticated = true
  /\ steps session [Call_connect "other"; Microtask] = Some repeated_connect
  /\ trace repeated_connect = trace session ++ [Resolved (fresh session)]
  /\ token repeated_connect = token session
  /\ ws repeated_connect = ws session.
Proof.
  assert (Hs : State.eqb (connectionState session) State.connected
               || State.eqb (connectionState session) State.authenticated = true)
    by (vm_compute; reflexivity).
  assert (H : steps session [Call_connect "other"; Microtask] = Some repeated_connect)
    by (vm_compute; reflexivity).
  destruct (connect_when_connected_resolves "other" session repeated_connect Hs H)
    as (H1 & H2 & H3 & _).
  split; [exact Hs|]. split; [exact H|]. split; [exact H1|].
  split; [exact H2|exact H3].
Defined.

Lemma connect_rejects_when_constructor_throws_witness :
  url_ok (new_client false well_behaved) = false
  /\ steps (new_client false well_behaved) [Call_connect "token"; Microtask]
     = Some blocked_connect
  /\ trace blocked_connect
     = trace (new_client false well_behaved)
       ++ [Rejected (fresh (new_client false well_behaved)) DOMException]
  /\ getConnectionState blocked_connect = "disconnected"
  /\ token blocked_connect = Some "token".
Proof.
  assert (Hu : url_ok (new_client false well_behaved) = false) by reflexivity.
  assert (Hs : State.eqb (connectionState (new_client false well_behaved)) State.connected
               || State.eqb (connectionState (new_client false well_behaved))
                    State.authenticated = false) by reflexivity.
  assert (H : steps (new_client false well_behaved) [Call_connect "token"; Microtask]
              = Some blocked_connect) by (vm_compute; reflexivity).
  destruct (connect_rejects_when_constructor_throws "token"
              (new_client false well_behaved) blocked_connect Hu Hs H)
    as (H1 & H2 & H3 & _).
  split; [exact Hu|]. split; [exact H|]. split; [exact H1|].
  split; [exact H2|exact H3].
Defined.

Lemma close_without_reconnection_witness :
  reachable session
  /\ authenticated session = true
  /\ step session (Transport_close 1 1000 "bye") = Some ended_session
  /\ getConnectionState ended_session = "disconnected"
  /\ scheduled_delays (trace ended_session) = scheduled_delays (trace session)
  /\ reconnectTimeout ended_session = reconnectTimeout session.
Proof.
  assert (H : step session (Transport_close 1 1000 "bye") = Some ended_session)
    by (vm_compute; reflexivity).
  destruct (close_without_reconnection session 1 1000 "bye" ended_session
              session_reachable (or_intror eq_refl) H)
    as (H1 & _ & _ & _ & H5 & _ & _ & _ & _ & H10 & _).
  split; [exact session_reachable|]. split; [vm_compute; reflexivity|].
  split; [exact H|]. split; [exact H1|]. split; [exact H10|exact H5].
Defined.

Lemma late_close_defeats_new_connect_witness :
  reachable session
  /\ ws session = Some 1
  /\ steps session
       [Call_disconnect; Call_connect "token";
        Transport_close 1 1000 "User initiated disconnect";
        Transport_open (S (fresh session)); Timer_fires (S (S (fresh session)));
        Microtask] = Some hasty_reconnect
  /\ rejections (trace hasty_reconnect)
     = rejections (trace session)
       ++ [(fresh session, Error (JStr "WebSocket closed before authentication"))]
  /\ sent (trace hasty_reconnect) = sent (trace session)
  /\ ws hasty_reconnect = None.
Proof.
  assert (Hs : ws session = Some 1) by (vm_compute; reflexivity).
  assert (Hk : sockets session !! 1
               = Some {| readyState := OPEN; listeners := Some 0 |})
    by (vm_compute; reflexivity).
  assert (Hu : url_ok session = true) by (vm_compute; reflexivity).
  assert (H : steps session
                [Call_disconnect; Call_connect "token";
                 Transport_close 1 1000 "User initiated disconnect";
                 Transport_open (S (fresh session));
                 Timer_fires (S (S (fresh session))); Microtask]
              = Some hasty_reconnect) by (vm_compute; reflexivity).
  destruct (late_close_defeats_new_connect "token" session 1 0 OPEN 1000
              "User initiated disconnect" hasty_reconnect
              session_reachable Hs Hk Hu H)
    as (H1 & _ & H3 & H4 & _).
  split; [exact session_reachable|]. split; [exact Hs|]. split; [exact H|].
  split; [exact H1|]. split; [exact H3|exact H4].
Defined.

Lemma message_only_notifies_witness :
  reachable session
  /\ step session (Transport_message 1 (Some progress_frame)) = Some progress_delivered
  /\ progress_delivered
     = set_trace
         (trace session
          ++ notify (consumer session) (eventHandlers session) "progress"
               (frame_object progress_frame)) session.
Proof.
  assert (H : step session (Transport_message 1 (Some progress_frame))
              = Some progress_delivered) by (vm_compute; reflexivity).
  split; [exact session_reachable|]. split; [exact H|].
  apply (message_only_notifies session 1 (Some progress_frame) progress_delivered
           session_reachable H); discriminate.
Defined.

Lemma heartbeat_ends_with_session_witness :
  reachable session
  /\ heartbeatInterval session = Some 5
  /\ step session Call_disconnect = Some closed_session
  /\ heartbeatInterval closed_session = None
  /\ forall t, timers closed_session !! t <> Some HeartbeatTimer.
Proof.
  assert (H : step session Call_disconnect = Some closed_session)
    by (vm_compute; reflexivity).
  destruct (heartbeat_ends_with_session session Call_disconnect closed_session
              session_reachable H (or_introl eq_refl)) as [H1 H2].
  split; [exact session_reachable|]. split; [vm_compute; reflexivity|].
  split; [exact H|]. split; [exact H1|exact H2].
Defined.

Lemma poll_adopts_client_state_witness :
  connectionState lost_session <> State.connecting
  /\ useWebSocket.connectionState (useWebSocket.after announced) = "reconnecting"
  /\ useWebSocket.connectionState
       (useWebSocket.apply (useWebSocket.Polled (connectionState lost_session))
          (useWebSocket.after announced))
     = getConnectionState lost_session
  /\ getConnectionState lost_session = "disconnected".
Proof.
  assert (Hc : connectionState lost_session <> State.connecting)
    by (vm_compute; discriminate).
  destruct (poll_adopts_client_state announced lost_session Hc) as (H1 & _ & _).
  split; [exact Hc|]. split; [vm_compute; reflexivity|].
  split; [exact H1|vm_compute; reflexivity].
Defined.

Lemma toggleYear_twice_witness :
  NoDup [2025; 2023; 2021]%Z
  /\ ScanControlWS.toggleYear 2023
       (ScanControlWS.toggleYear 2023 [2025; 2023; 2021]%Z)
     ≡ₚ [2025; 2023; 2021]%Z.
Proof.
  assert (Hd : NoDup [2025; 2023; 2021]%Z).
  { repeat (apply NoDup_cons; split; [rewrite ?elem_of_cons, elem_of_nil; lia|]).
    apply NoDup_nil_2. }
  split; [exact Hd|].
  exact (proj1 (toggleYear_twice 2023 [2025; 2023; 2021]%Z Hd)).
Defined.

Lemma scan_request_years_witness :
  (forall y, y ∈ [2024; 2020; 2025]%Z -> y ∈ ScanControlWS.years 2025)
  /\ ScanControlWS.selectedYears 2025 [2024; 2020; 2025]%Z = [2024; 2020]%Z
  /\ NoDup (ScanControlWS.selectedYears 2025 [2024; 2020; 2025]%Z)
  /\ length (ScanControlWS.selectedYears 2025 [2024; 2020; 2025]%Z) <= 10.
Proof.
  assert (Hc : forall y, y ∈ [2024; 2020; 2025]%Z -> y ∈ ScanControlWS.years 2025).
  { intros y Hy. apply elem_of_years.
    rewrite !elem_of_cons, elem_of_nil in Hy. lia. }
  destruct (scan_request_years 2025 2026 [2024; 2020; 2025]%Z Hc)
    as (H1 & _ & H3 & _).
  split; [exact Hc|]. split; [vm_compute; reflexivity|]. split; [exact H1|exact H3].
Defined.

Lemma booking_status_never_goes_back_witness :
  Dashboard.checkInDate week_stay <> Dashboard.Absent
  /\ Dashboard.checkOutDate week_stay <> Dashboard.Absent
  /\ (500 <= 9000)%Z
  /\ Dashboard.getBookingStatus 500 500 500 week_stay = Dashboard.Framtida
  /\ Dashboard.getBookingStatus 9000 9000 9000 week_stay = Dashboard.Avslutad
  /\ Dashboard.stage (Dashboard.getBookingStatus 500 500 500 week_stay)
     <= Dashboard.stage (Dashboard.getBookingStatus 9000 9000 9000 week_stay).
Proof.
  assert (Hi : Dashboard.checkInDate week_stay <> Dashboard.Absent) by discriminate.
  assert (Ho : Dashboard.checkOutDate week_stay <> Dashboard.Absent) by discriminate.
  assert (Hle : (500 <= 9000)%Z) by lia.
  split; [exact Hi|]. split; [exact Ho|]. split; [exact Hle|].
  split; [reflexivity|]. split; [reflexivity|].
  exact (booking_status_never_goes_back week_stay 500 9000 500 500 9000 9000 Hi Ho Hle).
Defined.

Lemma booking_status_by_dates_witness :
  Dashboard.status week_stay <> Some "cancelled"
  /\ (3000 <= 3000 <= 3001)%Z
  /\ (Dashboard.getBookingStatus 3000 3000 3001 week_stay = Dashboard.Pagaende
      <-> (1000 <= 3000 <= 8000)%Z).
Proof.
  assert (Hs : Dashboard.status week_stay <> Some "cancelled") by discriminate.
  assert (Hc : (3000 <= 3000 <= 3001)%Z) by lia.
  destruct (booking_status_by_dates week_stay 3000 3000 3001 Hs Hc) as (H & _).
  destruct (H 1000%Z 8000%Z eq_refl eq_refl ltac:(lia)) as (_ & H2 & _).
  split; [exact Hs|]. split; [exact Hc|exact H2].
Defined.

Lemma handshake_timeout_rejects_witness :
  reachable (new_client true well_behaved)
  /\ failed_connect "token" Auth_silence (new_client true well_behaved)
     = Some unanswered_connect
  /\ rejections (trace unanswered_connect)
     = rejections (trace (new_client true well_behaved))
       ++ [(fresh (new_client true well_behaved),
            Error (JStr "Authentication timeout"))]
  /\ getConnectionState unanswered_connect = "connected"
  /\ AuthError (S (S (S (fresh (new_client true well_behaved)))))
               (S (S (S (S (fresh (new_client true well_behaved))))))
     ∈ subscribers (eventHandlers unanswered_connect) "auth_error".
Proof.
  assert (Hu : url_ok (new_client true well_behaved) = true) by reflexivity.
  assert (Ht : "token" <> "") by discriminate.
  assert (Hs : State.eqb (connectionState (new_client true well_behaved)) State.connected
               || State.eqb (connectionState (new_client true well_behaved))
                    State.authenticated = false) by reflexivity.
  assert (H : failed_connect "token" Auth_silence (new_client true well_behaved)
              = Some unanswered_connect) by (vm_compute; reflexivity).
  destruct (handshake_timeout_rejects "token" (new_client true well_behaved)
              unanswered_connect (new_client_reachable true well_behaved)
              Hu Ht Hs H)
    as (H1 & _ & _ & H4 & _ & _ & _ & _ & _ & H10).
  split; [apply new_client_reachable|]. split; [exact H|].
  split; [exact H1|]. split; [exact H4|exact H10].
Defined.

Lemma handshake_refusal_rejects_witness :
  reachable (new_client true well_behaved)
  /\ failed_connect "bad" (Auth_refused refusal) (new_client true well_behaved)
     = Some refused_connect
  /\ rejections (trace refused_connect)
     = rejections (trace (new_client true well_behaved))
       ++ [(fresh (new_client true well_behaved),
            Error (or_else
                     (field "message"
                        (or_else (rsp_data refusal) (frame_object refusal)))
                     (JStr "Authentication failed")))]
  /\ getConnectionState refused_connect = "connected"
  /\ sub_registry (eventHandlers refused_connect)
       (eventHandlers (new_client true well_behaved)).
Proof.
  assert (Hi : handshake_idle (new_client true well_behaved)).
  { intros e h Hin. unfold subscribers in Hin. cbn in Hin.
    rewrite lookup_empty in Hin. now apply not_elem_of_nil in Hin. }
  assert (Hu : url_ok (new_client true well_behaved) = true) by reflexivity.
  assert (Ht : "bad" <> "") by discriminate.
  assert (Hs : State.eqb (connectionState (new_client true well_behaved)) State.connected
               || State.eqb (connectionState (new_client true well_behaved))
                    State.authenticated = false) by reflexivity.
  assert (Hm : rsp_type refusal = "auth_error") by reflexivity.
  assert (H : failed_connect "bad" (Auth_refused refusal) (new_client true well_behaved)
              = Some refused_connect) by (vm_compute; reflexivity).
  destruct (handshake_refusal_rejects "bad" refusal (new_client true well_behaved)
              refused_connect (new_client_reachable true well_behaved)
              Hi Hu Ht Hs Hm H)
    as (H1 & H2 & _ & _ & _ & H6 & _).
  split; [apply new_client_reachable|]. split; [exact H|].
  split; [exact H1|]. split; [exact H2|exact H6].
Defined.
